(** * MAU data scraper: the extraction-and-verification pipeline

    A shallow embedding of [src/mau_scraper_v2.py]: the post-LLM sanitizer
    [_sanitize_call], the hallucination check [_verify_calls], the transcript
    chunker [_chunk_transcript] and the per-chunk loop of [parse_transcripts],
    followed by the properties of the specification that concern them.

    Conventions of the embedding.
    - A Python [str] is a [string]; the character classes ([str.lower],
      [str.isspace], the regular-expression classes [\d], [\s], [\w]) are
      those of Python on the ASCII range, which is the text this development
      reads; a character above 127 is kept as it is and belongs to no class.
    - A decoded JSON value is a [json]; a record (a Python [dict] with string
      keys) is a [gmap string json], mutated in place by the source and
      threaded through here.
    - A Python exception is a [Raise] in the [result] monad.
    - Python's [re] is embedded as a small backtracking matcher over the
      fragment of the syntax the program uses. *)

From Stdlib Require Import Ascii String ZArith NArith Lia Bool.
From Stdlib Require Import DecimalString DecimalNat.
From stdpp Require Import base option list gmap strings.

Local Open Scope Z_scope.
Local Open Scope nat_scope.

(* ===================================================================== *)
(** * Part I: the program *)
(* ===================================================================== *)

(** ** Characters *)

Module Chr.

Definition code (c : ascii) : N := N_of_ascii c.

Definition between (lo hi : N) (c : ascii) : bool :=
  (lo <=? code c)%N && (code c <=? hi)%N.

Definition is_upper (c : ascii) : bool := between 65 90 c.
Definition is_lower (c : ascii) : bool := between 97 122 c.
Definition is_alpha (c : ascii) : bool := is_upper c || is_lower c.
(** [\d] and [str.isdigit] *)
Definition is_digit (c : ascii) : bool := between 48 57 c.
(** [\s] and [str.isspace]: TAB LF VT FF CR, FS GS RS US, and the space *)
Definition is_space (c : ascii) : bool := between 9 13 c || between 28 32 c.
(** [\w] *)
Definition is_word (c : ascii) : bool :=
  is_alpha c || is_digit c || Ascii.eqb c "_"%char.
(** [.] without DOTALL *)
Definition not_newline (c : ascii) : bool := negb (Ascii.eqb c "010"%char).
Definition one (a : ascii) (c : ascii) : bool := Ascii.eqb a c.

Definition lower (c : ascii) : ascii :=
  if is_upper c then ascii_of_N (code c + 32) else c.
Definition upper (c : ascii) : ascii :=
  if is_lower c then ascii_of_N (code c - 32) else c.

Definition digit_val (c : ascii) : nat := N.to_nat (code c - 48).

End Chr.

(** ** Strings: the [str] methods the program calls *)

Module Str.

Fixpoint map (f : ascii -> ascii) (s : string) : string :=
  match s with
  | EmptyString => EmptyString
  | String c t => String (f c) (map f t)
  end.

(** [s.lower()], [s.upper()] *)
Definition lower : string -> string := map Chr.lower.
Definition upper : string -> string := map Chr.upper.

(** [s.title()]: a letter that follows a letter is lowered, any other
    letter is raised. *)
Fixpoint title_go (prev_cased : bool) (s : string) : string :=
  match s with
  | EmptyString => EmptyString
  | String c t =>
      String (if prev_cased then Chr.lower c else Chr.upper c)
             (title_go (Chr.is_alpha c) t)
  end.
Definition title : string -> string := title_go false.

Definition is_empty (s : string) : bool :=
  match s with EmptyString => true | _ => false end.

(** [s.strip()] *)
Fixpoint lstrip (s : string) : string :=
  match s with
  | String c t => if Chr.is_space c then lstrip t else s
  | EmptyString => EmptyString
  end.
Fixpoint rstrip (s : string) : string :=
  match s with
  | String c t =>
      let t' := rstrip t in
      if Chr.is_space c && is_empty t' then EmptyString else String c t'
  | EmptyString => EmptyString
  end.
Definition strip (s : string) : string := rstrip (lstrip s).

(** [s[:n]] and [s[n:]] for [n >= 0] *)
Fixpoint take (n : nat) (s : string) : string :=
  match n, s with
  | S n', String c t => String c (take n' t)
  | _, _ => EmptyString
  end.
Fixpoint drop (n : nat) (s : string) : string :=
  match n, s with
  | S n', String _ t => drop n' t
  | _, _ => s
  end.

(** Python slices with any integer bound: a negative bound counts from
    the end, and every bound is clipped to the string. *)
Definition slice_bound (n : Z) (s : string) : nat :=
  if (0 <=? n)%Z then Z.to_nat n
  else String.length s - Z.to_nat (- n).
Definition slice_to (n : Z) (s : string) : string := take (slice_bound n s) s.
Definition slice_from (n : Z) (s : string) : string := drop (slice_bound n s) s.

Fixpoint starts_with (p s : string) : bool :=
  match p, s with
  | EmptyString, _ => true
  | String a p', String b s' => Ascii.eqb a b && starts_with p' s'
  | String _ _, EmptyString => false
  end.

(** [sub in s] *)
Fixpoint contains (sub s : string) : bool :=
  starts_with sub s ||
  match s with
  | EmptyString => false
  | String _ t => contains sub t
  end.

(** [s.split()] without argument: the maximal runs of non-space
    characters. [cur] is the run being read, reversed. *)
Fixpoint split_ws_go (cur : string) (s : string) : list string :=
  match s with
  | EmptyString => if is_empty cur then [] else [String.rev cur]
  | String c t =>
      if Chr.is_space c
      then (if is_empty cur then [] else [String.rev cur]) ++ split_ws_go EmptyString t
      else split_ws_go (String c cur) t
  end.
Definition split_ws : string -> list string := split_ws_go EmptyString.

(** [s.split(sep)] for a one-character separator *)
Fixpoint split_on_go (sep : ascii) (cur : string) (s : string) : list string :=
  match s with
  | EmptyString => [String.rev cur]
  | String c t =>
      if Ascii.eqb c sep
      then String.rev cur :: split_on_go sep EmptyString t
      else split_on_go sep (String c cur) t
  end.
Definition split_on (sep : ascii) : string -> list string :=
  split_on_go sep EmptyString.

(** [sep.join(l)] *)
Fixpoint join (sep : string) (l : list string) : string :=
  match l with
  | [] => EmptyString
  | [x] => x
  | x :: l' => x +:+ sep +:+ join sep l'
  end.

(** [''.join(l)] *)
Fixpoint concat (l : list string) : string :=
  match l with
  | [] => EmptyString
  | x :: l' => x +:+ concat l'
  end.

(** [s.replace(a, by)] for a one-character [a] *)
Fixpoint replace (a : ascii) (by_ : string) (s : string) : string :=
  match s with
  | EmptyString => EmptyString
  | String c t =>
      if Ascii.eqb c a then by_ +:+ replace a by_ t else String c (replace a by_ t)
  end.

Definition all (p : ascii -> bool) (s : string) : bool :=
  forallb p (list_ascii_of_string s).

(** [int(s)] for a string of decimal digits *)
Definition int_of (s : string) : nat :=
  fold_left (fun acc c => 10 * acc + Chr.digit_val c) (list_ascii_of_string s) 0.

(** [str(n)] and the format [f"{n:02d}"] for [n >= 0] *)
Definition of_nat (n : nat) : string := NilZero.string_of_uint (Nat.to_uint n).
Definition fmt_02d (n : nat) : string :=
  let d := of_nat n in
  if String.length d <? 2 then String "0"%char d else d.

(** [x in l] for a list, a set or the keys of a dict of strings *)
Definition mem (x : string) (l : list string) : bool :=
  existsb (String.eqb x) l.

(** [d.get(k)] on a dict literal given by its items, in source order *)
Fixpoint assoc (k : string) (d : list (string * string)) : option string :=
  match d with
  | [] => None
  | (k', v) :: d' => if String.eqb k k' then Some v else assoc k d'
  end.

End Str.

(** ** Regular expressions: the fragment of Python's [re] the program uses *)

Module Re.

(** Abstract syntax. A repetition applies to a character class (every
    repetition in the program does); alternation is ordered and
    repetition greedy, as in a backtracking matcher. No pattern of the
    program captures inside a lookahead, so [Ahead] keeps no group. *)
Inductive regex : Type :=
| Eps                                              (* the empty pattern *)
| Lit (s : string)                                 (* literal text *)
| Cls (p : ascii -> bool)                          (* one character of a class *)
| Cat (r1 r2 : regex)                              (* r1 r2 *)
| Alt (r1 r2 : regex)                              (* r1|r2 *)
| Rep (p : ascii -> bool) (lo : nat) (hi : option nat)   (* p{lo,hi} *)
| Grp (n : nat) (r : regex)                        (* the n-th (...) *)
| Bol                                              (* ^ *)
| Eol                                              (* $ *)
| Wb                                               (* \b *)
| Ahead (r : regex).                               (* (?=r) *)

(** [r?] *)
Definition Opt (r : regex) : regex := Alt r Eps.

(** The state of a match: the offset reached, the character before it,
    the text still ahead, and the groups captured so far. *)
Record mst : Type := MSt {
  pos : nat;
  prev : option ascii;
  rest : string;
  caps : list (nat * string)
}.

Definition start (s : string) : mst := MSt 0 None s [].

Definition set_cap (n : nat) (w : string) (st : mst) : mst :=
  MSt (pos st) (prev st) (rest st) ((n, w) :: caps st).

(** [m.group(n)]: the last capture of group [n], [None] if it took no part *)
Fixpoint lookup_cap (n : nat) (cs : list (nat * string)) : option string :=
  match cs with
  | [] => None
  | (m, w) :: cs' => if Nat.eqb n m then Some w else lookup_cap n cs'
  end.
Definition group (n : nat) (st : mst) : option string := lookup_cap n (caps st).

(** Reading the literal [l] *)
Fixpoint eat (l : string) (st : mst) : option mst :=
  match l with
  | EmptyString => Some st
  | String a l' =>
      match rest st with
      | String c t =>
          if Ascii.eqb a c then eat l' (MSt (S (pos st)) (Some c) t (caps st)) else None
      | EmptyString => None
      end
  end.

Definition below (n : nat) (hi : option nat) : bool :=
  match hi with None => true | Some h => n <? h end.

(** Greedy repetition: one more character first, the continuation [k]
    after fewer on failure. [n] characters have been read. *)
Fixpoint rep (p : ascii -> bool) (lo : nat) (hi : option nat) (n : nat)
    (s : string) (ps : nat) (pv : option ascii) (cs : list (nat * string))
    (k : mst -> option mst) : option mst :=
  let stop := if lo <=? n then k (MSt ps pv s cs) else None in
  match s with
  | String c t =>
      if p c && below n hi
      then match rep p lo hi (S n) t (S ps) (Some c) cs k with
           | Some r => Some r
           | None => stop
           end
      else stop
  | EmptyString => stop
  end.

Definition is_wordchar (o : option ascii) : bool :=
  match o with Some c => Chr.is_word c | None => false end.
Definition next (st : mst) : option ascii :=
  match rest st with String c _ => Some c | EmptyString => None end.

(** [$] without MULTILINE: the end of the text, or just before a final
    line feed *)
Definition at_eol (s : string) : bool :=
  match s with
  | EmptyString => true
  | String c EmptyString => Ascii.eqb c "010"%char
  | _ => false
  end.

(** The matcher, in continuation-passing style: [rx r st k] is the first
    success, in the order of a backtracking search, of [r] from [st]
    followed by [k]. *)
Fixpoint rx (r : regex) (st : mst) (k : mst -> option mst) : option mst :=
  match r with
  | Eps => k st
  | Lit l => match eat l st with Some st' => k st' | None => None end
  | Cls p =>
      match rest st with
      | String c t =>
          if p c then k (MSt (S (pos st)) (Some c) t (caps st)) else None
      | EmptyString => None
      end
  | Cat r1 r2 => rx r1 st (fun st' => rx r2 st' k)
  | Alt r1 r2 =>
      match rx r1 st k with
      | Some out => Some out
      | None => rx r2 st k
      end
  | Rep p lo hi => rep p lo hi 0 (rest st) (pos st) (prev st) (caps st) k
  | Grp n r1 =>
      rx r1 st (fun st' => k (set_cap n (Str.take (pos st' - pos st) (rest st)) st'))
  | Bol => if pos st =? 0 then k st else None
  | Eol => if at_eol (rest st) then k st else None
  | Wb => if xorb (is_wordchar (prev st)) (is_wordchar (next st)) then k st else None
  | Ahead r1 =>
      match rx r1 st Some with
      | Some _ => k st
      | None => None
      end
  end.

(** [if m], [m is not None] for the result of a match *)
Definition matched (o : option mst) : bool :=
  match o with Some _ => true | None => false end.

(** [re.match(r, s)] *)
Definition match_ (r : regex) (s : string) : option mst := rx r (start s) Some.

(** [re.search(r, s)]: the leftmost position with a match *)
Fixpoint search_go (r : regex) (ps : nat) (pv : option ascii) (s : string)
    : option mst :=
  match rx r (MSt ps pv s []) Some with
  | Some out => Some out
  | None =>
      match s with
      | String c t => search_go r (S ps) (Some c) t
      | EmptyString => None
      end
  end.
Definition search (r : regex) (s : string) : option mst := search_go r 0 None s.

(** [re.finditer(r, s)], as the list of (start, matched text): the
    matches from left to right, none overlapping. After a match that
    ends at [e] the scan resumes at [e], and one position further after
    an empty match. Every pattern the program scans with is either a
    lone lookahead, which matches empty, or cannot match empty; [skip]
    counts the positions inside the last match still to pass. *)
Fixpoint finditer_go (r : regex) (ps : nat) (pv : option ascii) (s : string)
    (skip : nat) : list (nat * string) :=
  let here :=
    match skip with
    | 0 => rx r (MSt ps pv s []) Some
    | S _ => None
    end in
  match here, s with
  | Some out, String c t =>
      (ps, Str.take (pos out - ps) s) :: finditer_go r (S ps) (Some c) t (pos out - ps - 1)
  | Some out, EmptyString => [(ps, EmptyString)]
  | None, String c t => finditer_go r (S ps) (Some c) t (skip - 1)
  | None, EmptyString => []
  end.
Definition finditer (r : regex) (s : string) : list (nat * string) :=
  finditer_go r 0 None s 0.

(** [re.findall(r, s)] for a pattern without group *)
Definition findall (r : regex) (s : string) : list string :=
  (finditer r s).*2.

(** [re.sub(r, "", s)]: the text with every match removed *)
Fixpoint remove_go (r : regex) (ps : nat) (pv : option ascii) (s : string)
    (skip : nat) : string :=
  let here :=
    match skip with
    | 0 => rx r (MSt ps pv s []) Some
    | S _ => None
    end in
  match s with
  | String c t =>
      match here with
      | Some out =>
          if pos out =? ps
          then String c (remove_go r (S ps) (Some c) t 0)
          else remove_go r (S ps) (Some c) t (pos out - ps - 1)
      | None =>
          match skip with
          | 0 => String c (remove_go r (S ps) (Some c) t 0)
          | S skip' => remove_go r (S ps) (Some c) t skip'
          end
      end
  | EmptyString => EmptyString
  end.
Definition remove (r : regex) (s : string) : string := remove_go r 0 None s 0.

(** Shorthands for the classes and quantifiers of the patterns below *)
Definition d : ascii -> bool := Chr.is_digit.
Definition sp : ascii -> bool := Chr.is_space.
Definition times (p : ascii -> bool) (n : nat) : regex := Rep p n (Some n).
Definition star (p : ascii -> bool) : regex := Rep p 0 None.
Definition plus (p : ascii -> bool) : regex := Rep p 1 None.
Fixpoint seq (rs : list regex) : regex :=
  match rs with
  | [] => Eps
  | [r] => r
  | r :: rs' => Cat r (seq rs')
  end.
Fixpoint alts (rs : list regex) : regex :=
  match rs with
  | [] => Eps
  | [r] => r
  | r :: rs' => Alt r (alts rs')
  end.

End Re.

(** ** Values, records and exceptions *)

(** A Python float, as far as the program looks at one: whether it is zero. *)
Inductive pyfloat : Type :=
| FNan
| FInf (negative : bool)
| FFin (negative : bool) (mantissa : N) (exponent : Z).

Set Warnings "-register-all".
(** What [json.loads] returns. *)
Inductive json : Type :=
| JNull                                (* None *)
| JBool (b : bool)
| JInt (z : Z)
| JFloat (f : pyfloat)
| JStr (s : string)
| JArr (l : list json)
| JObj (m : gmap string json).
Set Warnings "register-all".

(** One call record: a [dict] with string keys. *)
Abbreviation call := (gmap string json).

Inductive exn : Type :=
| TypeError         (* unhashable type, item assignment on a non-dict, ... *)
| AttributeError.   (* a [str] method called on a value that is not a [str] *)

Inductive result (A : Type) : Type :=
| Ok (a : A)
| Raise (e : exn).
Arguments Ok {A} a.
Arguments Raise {A} e.

Definition bind {A B : Type} (m : result A) (f : A -> result B) : result B :=
  match m with
  | Ok a => f a
  | Raise e => Raise e
  end.

(** The exception monad, with stdpp's notation [x ← m; f]. *)
Global Instance result_ret : MRet result := @Ok.
Global Instance result_bind : MBind result := fun A B f m => bind m f.

Module Py.

(** [d.get(k)]: [None] for a missing key *)
Definition get (c : call) (k : string) : json := default JNull (c !! k).

Definition float_is_zero (f : pyfloat) : bool :=
  match f with
  | FFin _ m _ => (m =? 0)%N
  | _ => false
  end.

(** [bool(v)] *)
Definition truthy (v : json) : bool :=
  match v with
  | JNull => false
  | JBool b => b
  | JInt z => negb (z =? 0)%Z
  | JFloat f => negb (float_is_zero f)
  | JStr s => negb (Str.is_empty s)
  | JArr l => match l with [] => false | _ => true end
  | JObj m => negb (Nat.eqb (size m) 0)
  end.

(** [v or d] *)
Definition or_ (v d : json) : json := if truthy v then v else d.

(** [v in keys], for a set or dict whose keys are the strings [keys]:
    a list or a dict cannot be hashed; no other value equals a string. *)
Definition in_ (v : json) (keys : list string) : result bool :=
  match v with
  | JArr _ | JObj _ => Raise TypeError
  | JStr s => Ok (Str.mem s keys)
  | _ => Ok false
  end.

(** [v.lower()] *)
Definition lower (v : json) : result string :=
  match v with
  | JStr s => Ok (Str.lower s)
  | _ => Raise AttributeError
  end.

(** [v.strip()] *)
Definition strip (v : json) : result string :=
  match v with
  | JStr s => Ok (Str.strip s)
  | _ => Raise AttributeError
  end.

End Py.

(** ** The sanitizer: [_sanitize_call] and its tables *)

Module Sanitizer.

Import Re.

Definition VALID_TONES : list string :=
  ["scared"; "calm"; "nostalgic"; "humorous"; "matter-of-fact"; "emotional"].

Definition VALID_ENTITY_LABELS : list string :=
  [
    "Bigfoot/Sasquatch"; "Dogman"; "Mothman"; "Skinwalker"; "Wendigo";
    "Thunderbird"; "Crawler/Rake"; "Chupacabra";
    "Mutant Canine/Turner Beast"; "Lake Monster"; "Black-Eyed Kids (BEK)";
    "Not Deer"; "Goatman"; "Jersey Devil"; "Unknown Cryptid";
    "Ghost/Apparition"; "Shadow Person"; "Hat Man"; "Old Hag"; "Poltergeist";
    "Demonic Entity"; "Angel/Positive Spirit"; "Doppelganger";
    "Residual Haunting"; "Intelligent Haunting"; "Portal/Vortex";
    "Afterlife Communication (ADC)"; "Sleep Paralysis Entity"; "UFO/UAP";
    "Black Triangle"; "Orb/Light"; "Fireball"; "Phantom Lights"; "Abduction";
    "Alien Entity"; "Satellite/Rocket (Explained)"; "Missing Time";
    "Glitch in the Matrix"; "Time Slip"; "Premonition/Precognition";
    "Telepathy"; "Psychic Experience"; "Astral Projection"; "Aura/Energy";
    "Synchronicity"; "Men in Black"; "Phantom Person"; "Vanishing Object";
    "Dime/Coin from the Dead"; "Phantom Sound"; "Phantom Smell";
    "Unexplained Animal Behavior"; "Electronic Malfunction";
    "Temperature Anomaly"; "Coincidence"; "Unidentified Animal";
    "Explained (mundane)"; "Dream/Vision"; "Curse/Hex"; "Fairy/Fae";
    "Humanoid (unclassified)"; "Other"
  ].

Definition STATE_ABBREV_TO_FULL : list (string * string) :=
  [
    ("AL", "Alabama"); ("AK", "Alaska"); ("AZ", "Arizona");
    ("AR", "Arkansas"); ("CA", "California"); ("CO", "Colorado");
    ("CT", "Connecticut"); ("DE", "Delaware"); ("FL", "Florida");
    ("GA", "Georgia"); ("HI", "Hawaii"); ("ID", "Idaho"); ("IL", "Illinois");
    ("IN", "Indiana"); ("IA", "Iowa"); ("KS", "Kansas"); ("KY", "Kentucky");
    ("LA", "Louisiana"); ("ME", "Maine"); ("MD", "Maryland");
    ("MA", "Massachusetts"); ("MI", "Michigan"); ("MN", "Minnesota");
    ("MS", "Mississippi"); ("MO", "Missouri"); ("MT", "Montana");
    ("NE", "Nebraska"); ("NV", "Nevada"); ("NH", "New Hampshire");
    ("NJ", "New Jersey"); ("NM", "New Mexico"); ("NY", "New York");
    ("NC", "North Carolina"); ("ND", "North Dakota"); ("OH", "Ohio");
    ("OK", "Oklahoma"); ("OR", "Oregon"); ("PA", "Pennsylvania");
    ("RI", "Rhode Island"); ("SC", "South Carolina"); ("SD", "South Dakota");
    ("TN", "Tennessee"); ("TX", "Texas"); ("UT", "Utah"); ("VT", "Vermont");
    ("VA", "Virginia"); ("WA", "Washington"); ("WV", "West Virginia");
    ("WI", "Wisconsin"); ("WY", "Wyoming"); ("DC", "District of Columbia")
  ].

Definition STATE_ALIASES : list (string * string) :=
  [
    ("cali", "California"); ("socal", "California");
    ("norcal", "California"); ("mass", "Massachusetts");
    ("mich", "Michigan"); ("minn", "Minnesota"); ("penn", "Pennsylvania");
    ("tenn", "Tennessee"); ("wisc", "Wisconsin"); ("conn", "Connecticut");
    ("wash", "Washington"); ("ore", "Oregon"); ("okla", "Oklahoma");
    ("mont", "Montana"); ("miss", "Mississippi"); ("ala", "Alabama");
    ("ariz", "Arizona"); ("ark", "Arkansas"); ("colo", "Colorado");
    ("dela", "Delaware"); ("fla", "Florida"); ("ind", "Indiana");
    ("neb", "Nebraska"); ("nev", "Nevada")
  ].

Definition TIME_WORD_MAP : list (string * string) :=
  [
    ("midnight", "00:00"); ("middle of the night", "03:00");
    ("pre-dawn", "04:00"); ("predawn", "04:00"); ("early morning", "05:00");
    ("dawn", "06:00"); ("sunrise", "06:00"); ("morning", "08:00");
    ("mid-morning", "10:00"); ("noon", "12:00"); ("midday", "12:00");
    ("afternoon", "14:00"); ("late afternoon", "16:00"); ("dusk", "19:00");
    ("sunset", "19:00"); ("twilight", "19:00"); ("evening", "20:00");
    ("night", "21:00"); ("nighttime", "21:00"); ("late night", "23:00");
    ("late at night", "23:00")
  ].

Definition US_REGIONS : list (string * string) :=
  [
    ("Connecticut", "Northeast"); ("Maine", "Northeast");
    ("Massachusetts", "Northeast"); ("New Hampshire", "Northeast");
    ("Rhode Island", "Northeast"); ("Vermont", "Northeast");
    ("New Jersey", "Northeast"); ("New York", "Northeast");
    ("Pennsylvania", "Northeast"); ("Alabama", "Southeast");
    ("Arkansas", "Southeast"); ("Delaware", "Southeast");
    ("Florida", "Southeast"); ("Georgia", "Southeast");
    ("Kentucky", "Southeast"); ("Louisiana", "Southeast");
    ("Maryland", "Southeast"); ("Mississippi", "Southeast");
    ("North Carolina", "Southeast"); ("Oklahoma", "Southeast");
    ("South Carolina", "Southeast"); ("Tennessee", "Southeast");
    ("Texas", "Southeast"); ("Virginia", "Southeast");
    ("West Virginia", "Southeast"); ("Illinois", "Midwest");
    ("Indiana", "Midwest"); ("Iowa", "Midwest"); ("Kansas", "Midwest");
    ("Michigan", "Midwest"); ("Minnesota", "Midwest");
    ("Missouri", "Midwest"); ("Nebraska", "Midwest");
    ("North Dakota", "Midwest"); ("Ohio", "Midwest");
    ("South Dakota", "Midwest"); ("Wisconsin", "Midwest");
    ("Alaska", "West"); ("Arizona", "West"); ("California", "West");
    ("Colorado", "West"); ("Hawaii", "West"); ("Idaho", "West");
    ("Montana", "West"); ("Nevada", "West"); ("New Mexico", "West");
    ("Oregon", "West"); ("Utah", "West"); ("Washington", "West");
    ("Wyoming", "West")
  ].

Definition NULL_STRINGS : list string :=
  [
    "na"; "n/a"; "none"; "null"; "unknown"; "unclear"; "unspecified";
    "parts unknown"; "anonymous"; ""; "not mentioned"; "not specified"
  ].

Definition tone_map : list (string * string) :=
  [
    ("frightened", "scared"); ("terrified", "scared"); ("afraid", "scared");
    ("anxious", "scared"); ("nervous", "scared"); ("uneasy", "scared");
    ("relaxed", "calm"); ("composed", "calm"); ("neutral", "calm");
    ("sentimental", "nostalgic"); ("wistful", "nostalgic");
    ("reflective", "nostalgic"); ("funny", "humorous");
    ("joking", "humorous"); ("lighthearted", "humorous");
    ("factual", "matter-of-fact"); ("matter of fact", "matter-of-fact");
    ("deadpan", "matter-of-fact"); ("dry", "matter-of-fact");
    ("upset", "emotional"); ("tearful", "emotional");
    ("crying", "emotional"); ("excited", "emotional");
    ("passionate", "emotional"); ("moved", "emotional")
  ].

(** The patterns of the date and time rules.
    [^\d{4}-\d{2}-\d{2}$], [^\d{4}$], [^\d{4}-\d{2}$], [(\d{4})s],
    [(\d{2})s], [^\d{1,2}:\d{2}$] and
    [(?:around\s+)?(\d{1,2})(?::(\d{2}))?\s*(am|pm|a\.m\.|p\.m\.)] *)
Definition re_full_date : regex :=
  seq [Bol; times d 4; Lit "-"; times d 2; Lit "-"; times d 2; Eol].
Definition re_year : regex := seq [Bol; times d 4; Eol].
Definition re_year_month : regex := seq [Bol; times d 4; Lit "-"; times d 2; Eol].
Definition re_decade4 : regex := seq [Grp 1 (times d 4); Lit "s"].
Definition re_decade2 : regex := seq [Grp 1 (times d 2); Lit "s"].
Definition re_hhmm : regex := seq [Bol; Rep d 1 (Some 2); Lit ":"; times d 2; Eol].
Definition re_ampm : regex :=
  seq [Opt (Cat (Lit "around") (plus sp));
       Grp 1 (Rep d 1 (Some 2));
       Opt (Cat (Lit ":") (Grp 2 (times d 2)));
       star sp;
       Grp 3 (alts [Lit "am"; Lit "pm"; Lit "a.m."; Lit "p.m."])].

(** [val.strip().lower() in NULL_STRINGS] *)
Definition null_like (val : string) : bool :=
  Str.mem (Str.lower (Str.strip val)) NULL_STRINGS.

(** Null normalization: one turn of the loop over the keys *)
Definition null_step (c : call) (key : string) : call :=
  match Py.get c key with
  | JStr val => if null_like val then <[key := JNull]> c else c
  | _ => c
  end.

Definition null_keys : list string :=
  ["state_or_region"; "city"; "country"; "call_type_secondary";
   "date_of_event"; "time_of_event"; "setting"; "derek_commentary";
   "caller_intro_snippet"].

Definition normalize_nulls (c : call) : call := foldl null_step c null_keys.

Definition normalize_name (c : call) : call :=
  match Py.get c "caller_name" with
  | JStr name => if null_like name then <["caller_name" := JNull]> c else c
  | _ => c
  end.

(** The value the state rule stores for the string [state] *)
Definition state_value (state : string) : json :=
  let s := Str.strip state in
  let upper := Str.upper s in
  let lower := Str.lower s in
  match Str.assoc upper STATE_ABBREV_TO_FULL with
  | Some full => JStr full
  | None =>
      match Str.assoc lower STATE_ALIASES with
      | Some full => JStr full
      | None =>
          if Str.mem lower NULL_STRINGS then JNull
          else JStr (if String.eqb s (Str.lower s) || String.eqb s (Str.upper s)
                     then Str.title s else s)
      end
  end.

Definition normalize_state (c : call) : call :=
  match Py.get c "state_or_region" with
  | JStr state => <["state_or_region" := state_value state]> c
  | _ => c
  end.

(** [if call.get("state_or_region") and call["state_or_region"] in US_REGIONS] *)
Definition force_country (c : call) : result call :=
  let state := Py.get c "state_or_region" in
  if Py.truthy state then
    b ← Py.in_ state US_REGIONS.*1;
    mret (if b : bool then <["country" := JStr "USA"]> c else c)
  else mret c.

(** The loop [for label in VALID_ENTITY_LABELS] with its [break]: the
    first label equal to [v] up to case, [None] when the [else] of the
    loop runs. Each turn evaluates [v.lower()]. *)
Fixpoint find_label (v : json) (labels : list string) : result (option string) :=
  match labels with
  | [] => mret None
  | label :: labels' =>
      l ← Py.lower v;
      if String.eqb (Str.lower label) l then mret (Some label)
      else find_label v labels'
  end.

Definition validate_call_type (c : call) : result call :=
  let ct := Py.or_ (Py.get c "call_type") (JStr "") in
  known ← Py.in_ ct VALID_ENTITY_LABELS;
  if negb known then
    if Py.truthy ct then
      found ← find_label ct VALID_ENTITY_LABELS;
      match found with
      | Some label => mret (<["call_type" := JStr label]> c)
      | None => mret (<["call_type" := JStr "Other"]> c)
      end
    else mret (<["call_type" := JStr "Other"]> c)
  else mret c.

Definition validate_secondary (c : call) : result call :=
  match Py.get c "call_type_secondary" with
  | JNull => mret c
  | ct2 =>
      known ← Py.in_ ct2 VALID_ENTITY_LABELS;
      if negb known then
        found ← find_label ct2 VALID_ENTITY_LABELS;
        match found with
        | Some label => mret (<["call_type_secondary" := JStr label]> c)
        | None => mret (<["call_type_secondary" := JNull]> c)
        end
      else mret c
  end.

Definition group_text (n : nat) (m : mst) : string := default "" (group n m).

(** The value the date rule stores for the string [date_val], [None]
    when the rule leaves the field as it is *)
Definition date_value (date_val0 : string) : option json :=
  let date_val := Str.strip date_val0 in
  if matched (match_ re_full_date date_val) then None
  else if matched (match_ re_year date_val) then
    Some (JStr (date_val +:+ "-01-01"))
  else if matched (match_ re_year_month date_val) then
    Some (JStr (date_val +:+ "-01"))
  else
    match search re_decade4 date_val with
    | Some m => Some (JStr (group_text 1 m +:+ "-01-01"))
    | None =>
        match search re_decade2 date_val with
        | Some m =>
            let decade_str := group_text 1 m in
            let century := if 30 <=? Str.int_of decade_str then "19" else "20" in
            Some (JStr (century +:+ decade_str +:+ "-01-01"))
        | None => Some JNull
        end
    end.

Definition normalize_date (c : call) : call :=
  match Py.get c "date_of_event" with
  | JStr date_val =>
      match date_value date_val with
      | Some v => <["date_of_event" := v]> c
      | None => c
      end
  | _ => c
  end.

(** The loop over [TIME_WORD_MAP.items()], in the order of the literal *)
Definition first_word_in (tv : string) : option string :=
  snd <$> List.find (fun wh => Str.contains (fst wh) tv) TIME_WORD_MAP.

(** The 12-hour branch: [h], [mins] and [ampm] from the groups *)
Definition ampm_value (m : mst) : string :=
  let h := Str.int_of (group_text 1 m) in
  let mins := match group 2 m with
              | Some g => if Str.is_empty g then "00" else g
              | None => "00"
              end in
  let ampm := Str.replace "." "" (group_text 3 m) in
  let h := if String.eqb ampm "pm" && negb (h =? 12) then h + 12
           else if String.eqb ampm "am" && (h =? 12) then 0
           else h in
  Str.fmt_02d h +:+ ":" +:+ mins.

(** The value the time rule stores for the string [time_val] *)
Definition time_value (time_val : string) : json :=
  let tv := Str.lower (Str.strip time_val) in
  if matched (match_ re_hhmm tv) then
    let parts := Str.split_on ":" tv in
    JStr (Str.fmt_02d (Str.int_of (nth 0 parts "")) +:+ ":" +:+ nth 1 parts "")
  else
    match Str.assoc tv TIME_WORD_MAP with
    | Some hhmm => JStr hhmm
    | None =>
        match match_ re_ampm tv with
        | Some m => JStr (ampm_value m)
        | None =>
            match first_word_in tv with
            | Some hhmm => JStr hhmm
            | None => JNull
            end
        end
    end.

Definition normalize_time (c : call) : call :=
  match Py.get c "time_of_event" with
  | JStr time_val => <["time_of_event" := time_value time_val]> c
  | _ => c
  end.

Definition witness_value (wit : json) : option json :=
  match wit with
  | JBool _ => None
  | JStr w => Some (JBool (Str.mem (Str.lower (Str.strip w)) ["true"; "yes"; "1"]))
  | _ => Some (JBool false)
  end.

Definition normalize_witnesses (c : call) : call :=
  match witness_value (Py.get c "involves_other_witnesses") with
  | Some v => <["involves_other_witnesses" := v]> c
  | None => c
  end.


Definition tone_value (tone0 : json) : string :=
  match Py.or_ tone0 (JStr "") with
  | JStr tone =>
      let t := Str.replace "_" "-" (Str.lower (Str.strip tone)) in
      if Str.mem t VALID_TONES then t
      else default "matter-of-fact" (Str.assoc t tone_map)
  | _ => "matter-of-fact"
  end.

Definition normalize_tone (c : call) : call :=
  <["caller_emotional_tone" := JStr (tone_value (Py.get c "caller_emotional_tone"))]> c.

(** [_sanitize_call]: the rules in the order of the source, on the one
    record they all mutate *)
Definition _sanitize_call (c : call) : result call :=
  let c := normalize_nulls c in
  let c := normalize_name c in
  let c := normalize_state c in
  c ← force_country c;
  c ← validate_call_type c;
  c ← validate_secondary c;
  let c := normalize_date c in
  let c := normalize_time c in
  let c := normalize_witnesses c in
  mret (normalize_tone c).

End Sanitizer.

(** ** The verifier: [_verify_calls] *)

Module Verifier.

Import Re.

(** [\b[a-z]{4,}\b] *)
Definition re_word4 : regex := seq [Wb; Rep Chr.is_lower 4 None; Wb].

(** [(call.get(key) or "").strip()] *)
Definition field (c : call) (key : string) : result string :=
  Py.strip (Py.or_ (Py.get c key) (JStr "")).

Definition nonempty (s : string) : bool := negb (Str.is_empty s).

(** Check 1: the intro snippet, whole or by its first five words *)
Definition check_snippet (t_lower snippet : string) : list string :=
  if nonempty snippet && Str.contains (Str.lower snippet) t_lower then ["snippet_match"]
  else if nonempty snippet then
    let words := take 5 (Str.split_ws (Str.lower snippet)) in
    if (3 <=? length words) && Str.contains (Str.join " " words) t_lower
    then ["snippet_partial"] else []
  else [].

(** Checks 2 and 3: the caller name, the state or region *)
Definition check_found (tag : string) (t_lower value : string) : list string :=
  if nonempty value && Str.contains (Str.lower value) t_lower then [tag] else [].

(** Check 4: [desc_words] and [matches] *)
Definition desc_words (desc : string) : list string :=
  Str.lower <$> findall re_word4 (Str.lower desc).
Definition matches (t_lower desc : string) : nat :=
  length (filter (fun w => Is_true (Str.contains w t_lower)) (desc_words desc)).
Definition check_desc (t_lower desc : string) : list string :=
  if nonempty desc then
    if 3 <=? matches t_lower desc then ["desc_words_match"] else []
  else [].

(** The list [evidence] at the end of one turn of the loop *)
Definition evidence_of (t_lower : string) (c : call) : result (list string) :=
  snippet ← field c "caller_intro_snippet";
  name ← field c "caller_name";
  state ← field c "state_or_region";
  desc ← field c "description";
  mret (check_snippet t_lower snippet ++ check_found "name_found" t_lower name
        ++ check_found "state_found" t_lower state ++ check_desc t_lower desc).

(** One turn of the loop over the calls: the verdict and its evidence *)
Definition verify_call (t_lower : string) (c : call) : result call :=
  evidence ← evidence_of t_lower c;
  let c := <["verified" := JBool (0 <? length evidence)]> c in
  mret (<["verification_evidence" :=
           JStr (match evidence with [] => "none" | _ => Str.join "," evidence end)]> c).

(** [_verify_calls], up to the summary it logs: the records verified in
    turn against the lowered transcript *)
Fixpoint verify_all (t_lower : string) (calls : list call) : result (list call) :=
  match calls with
  | [] => mret []
  | c :: calls' =>
      c' ← verify_call t_lower c;
      rest ← verify_all t_lower calls';
      mret (c' :: rest)
  end.
Definition _verify_calls (calls : list call) (transcript : string) : result (list call) :=
  verify_all (Str.lower transcript) calls.

End Verifier.

(** ** The chunker: [_chunk_transcript] *)

Module Chunker.

Import Re.

(** The narration-transition markers, each a lookahead:
    [(?=Now (?:folks|gang|working|from|moving|I also))],
    [(?=(?:Alright|All right),? (?:gang|folks))],
    [(?=(?:Thank you|Thanks),? .{1,30}(?:for (?:calling|sharing|ringing)))] *)
Definition markers : list regex :=
  [ Ahead (seq [Lit "Now ";
                alts [Lit "folks"; Lit "gang"; Lit "working"; Lit "from";
                      Lit "moving"; Lit "I also"]]);
    Ahead (seq [alts [Lit "Alright"; Lit "All right"];
                Rep (Chr.one ",") 0 (Some 1); Lit " ";
                alts [Lit "gang"; Lit "folks"]]);
    Ahead (seq [alts [Lit "Thank you"; Lit "Thanks"];
                Rep (Chr.one ",") 0 (Some 1); Lit " ";
                Rep Chr.not_newline 1 (Some 30);
                Lit "for "; alts [Lit "calling"; Lit "sharing"; Lit "ringing"]]) ].

Definition len (s : string) : Z := Z.of_nat (String.length s).

(** [max_chars * 0.5 < start < max_chars]; the product is exact in
    floating point for every budget below 2^53 *)
Definition in_window (max_chars : Z) (start : nat) : bool :=
  (max_chars <? 2 * Z.of_nat start)%Z && (Z.of_nat start <? max_chars)%Z.

(** The inner loop for one marker: its matches from the last to the
    first, up to the first one in the window *)
Definition marker_split (max_chars : Z) (window : string) (m : regex) : option nat :=
  List.find (in_window max_chars) (rev (finditer m window).*1).

(** The outer loop: [best] after all the markers *)
Definition split_point (max_chars : Z) (remaining : string) : Z :=
  fold_left
    (fun best m =>
       match marker_split max_chars (Str.slice_to (max_chars + 5000) remaining) m with
       | Some start => Z.of_nat start
       | None => best
       end)
    markers max_chars.

(** The [while] loop, run for at most [fuel] turns: [None] when the
    fuel does not suffice *)
Fixpoint chunk_loop (fuel : nat) (max_chars : Z) (chunks : list string)
    (remaining : string) : option (list string) :=
  if (max_chars <? len remaining)%Z then
    match fuel with
    | O => None
    | S fuel' =>
        let best := split_point max_chars remaining in
        chunk_loop fuel' max_chars (chunks ++ [Str.slice_to best remaining])
                   (Str.slice_from best remaining)
    end
  else Some (if Str.is_empty remaining then chunks else chunks ++ [remaining]).

Definition _chunk_transcript (fuel : nat) (text : string) (max_chars : Z)
    : option (list string) :=
  if (len text <=? max_chars)%Z then Some [text]
  else chunk_loop fuel max_chars [] text.

(** The budget every caller uses: the default of the parameter *)
Definition default_max_chars : Z := 75000.

End Chunker.

(** ** The extractor: the loop over the chunks in [parse_transcripts] *)

(** An episode, as far as the loop reads it: [ep["name"]],
    [ep["release_date"]], and the keys [season] and [episode], which may be
    missing. *)
Record episode : Type := Episode {
  ep_name : string;
  ep_release_date : string;
  ep_season : option json;
  ep_episode : option json
}.

(** What a [try] block raises: [json.JSONDecodeError], or any other
    [Exception]; each with the text [str(e)]. *)
Inductive raised : Type :=
| JSONDecodeError (msg : string)
| OtherException (msg : string).

(** What the loop does besides building the list of records. *)
Inductive event : Type :=
| LogError (line : string)       (* log.error(line) *)
| Sleep (milliseconds : nat).    (* time.sleep *)

Module Extractor.

Import Re.

Section Loop.

(** The world outside: the state of the backend, the hosted model
    behind [_llm_call], which answers with a text or raises,
    [json.loads], Python's [str] on a value and on an exception of the
    sanitizer, the system prompt, and [_resolve_timestamps], which runs
    when the episode has a time index. *)
Context {W : Type}.
Variable _llm_call : W -> string -> string -> string -> string -> W * (raised + string).
Variable json_loads : string -> string + json.
Variable str : json -> string.
Variable str_exn : exn -> string.
Variable PARSE_SYSTEM_PROMPT : string.
Variable _resolve_timestamps : option (list call -> raised + list call).

(** The state the loop threads: the backend, [episode_calls], and the
    trace of log lines and sleeps. *)
Record state : Type := State {
  world : W;
  episode_calls : list call;
  trace : list event
}.

Definition emit (e : event) (st : state) : state :=
  State (world st) (episode_calls st) (trace st ++ [e]).

(** [ep.get(key, "Unknown")] inside the f-string *)
Definition shown (v : option json) : string :=
  match v with Some x => str x | None => "Unknown" end.

Definition user_content (ep : episode) (chunk : string) : string :=
  Str.concat ["Episode: "; ep_name ep; String "010" "";
              "Season: "; shown (ep_season ep); String "010" "";
              "Episode Number: "; shown (ep_episode ep); String "010" "";
              "Release Date: "; ep_release_date ep; String "010" (String "010" "");
              "TRANSCRIPT:"; String "010" ""; chunk].

(** The two [re.sub] that strip a code fence:
    [^```(?:json)?\s*] and [\s*```$] *)
Definition strip_fence (raw : string) : string :=
  let raw := remove (seq [Bol; Lit "```"; Opt (Lit "json"); star sp]) raw in
  remove (seq [star sp; Lit "```"; Eol]) raw.

(** The four assignments that stamp a record with its episode *)
Definition stamp (ep : episode) (c : call) : call :=
  let c := <["season" := default JNull (ep_season ep)]> c in
  let c := <["episode" := default JNull (ep_episode ep)]> c in
  let c := <["episode_title" := JStr (ep_name ep)]> c in
  <["release_date" := JStr (ep_release_date ep)]> c.

Definition lift {A : Type} (r : result A) : raised + A :=
  match r with
  | Ok a => inr a
  | Raise e => inl (OtherException (str_exn e))
  end.

(** [for call in calls] over a list: each element must take an item
    assignment, which only a dict does *)
Fixpoint sanitize_each (ep : episode) (items : list json) : raised + list call :=
  match items with
  | [] => inr []
  | JObj c :: items' =>
      match lift (Sanitizer._sanitize_call (stamp ep c)) with
      | inl e => inl e
      | inr c' =>
          match sanitize_each ep items' with
          | inl e => inl e
          | inr cs => inr (c' :: cs)
          end
      end
  | _ :: _ => inl (OtherException (str_exn TypeError))
  end.

(** [for call in calls] over whatever [json.loads] returned: an empty
    dict or string is iterated without a turn, a number, a boolean or
    [None] cannot be iterated *)
Definition sanitize_calls (ep : episode) (calls : json) : raised + list call :=
  match calls with
  | JArr items => sanitize_each ep items
  | JObj m => if Nat.eqb (size m) 0 then inr [] else inl (OtherException (str_exn TypeError))
  | JStr s => if Str.is_empty s then inr [] else inl (OtherException (str_exn TypeError))
  | _ => inl (OtherException (str_exn TypeError))
  end.

(** The body of the [try], after the backend has answered [raw] *)
Definition decode (ep : episode) (raw : string) : raised + list call :=
  match json_loads (strip_fence raw) with
  | inl msg => inl (JSONDecodeError msg)
  | inr calls =>
      match sanitize_calls ep calls with
      | inl e => inl e
      | inr cs =>
          match _resolve_timestamps with
          | Some resolve => resolve cs
          | None => inr cs
          end
      end
  end.

(** One turn of [for i, chunk in enumerate(chunks)]: the [try], its
    two handlers, and the sleep that ends the turn *)
Definition process_chunk (model_name provider : string) (ep : episode)
    (st : state) (chunk : string) : state :=
  let (w, answer) :=
    _llm_call (world st) model_name PARSE_SYSTEM_PROMPT (user_content ep chunk) provider in
  let st := State w (episode_calls st) (trace st) in
  let outcome :=
    match answer with
    | inl e => inl e
    | inr raw => decode ep raw
    end in
  let st :=
    match outcome with
    | inr cs => State (world st) (episode_calls st ++ cs) (trace st)
    | inl (JSONDecodeError msg) =>
        emit (LogError (Str.concat ["JSON error for "; Str.take 50 (ep_name ep); ": "; msg])) st
    | inl (OtherException msg) =>
        emit (Sleep 5000)
          (emit (LogError (Str.concat ["API error for "; Str.take 50 (ep_name ep); ": "; msg])) st)
    end in
  emit (Sleep 1500) st.

Definition process_chunks (model_name provider : string) (ep : episode)
    (st : state) (chunks : list string) : state :=
  foldl (process_chunk model_name provider ep) st chunks.

End Loop.

End Extractor.


(** ** The vocabulary of the specification *)

(** The definitions below are not part of the program: they say, in the
    words of the specification, what the program is measured against. *)

Module ChunkerSpec.

Import Chunker.

(** The offsets at which the pattern [m] matches in [window] *)
Definition starts (m : Re.regex) (window : string) : list nat :=
  (Re.finditer m window).*1.

(** All the marker matches in the tolerance window, whatever the marker *)
Definition window_matches (max_chars : Z) (remaining : string) : list nat :=
  filter (fun s => Is_true (in_window max_chars s))
         (mjoin ((fun m => starts m (Str.slice_to (max_chars + 5000) remaining)) <$> markers)).

(** The split the specification describes: the marker match nearest to
    the budget boundary, the boundary itself when there is none *)
Definition nearest_marker (max_chars : Z) (remaining : string) : Z :=
  match window_matches max_chars remaining with
  | [] => max_chars
  | s :: l => Z.of_nat (foldr Nat.max s l)
  end.

(** A text with two markers in the window of a budget of 30 *)
Definition two_markers : string :=
  "xxxxxxxxxxxxxxxxAlright gang Now from here on it is the next caller".

(** A list of offsets that increases strictly, from [lo] on *)
Fixpoint ascending (lo : nat) (l : list nat) : Prop :=
  match l with
  | [] => True
  | x :: l' => lo ≤ x ∧ ascending (S x) l'
  end.

End ChunkerSpec.

Module ReSpec.

Import Re.

(** The state of a match that starts at offset [i] of [s]: the scan of
    [finditer] and [search] reaches it after [i] characters *)
Fixpoint at_offset (i : nat) (ps : nat) (pv : option ascii) (s : string) : mst :=
  match i, s with
  | S i', String c t => at_offset i' (S ps) (Some c) t
  | _, _ => MSt ps pv s []
  end.

(** The pattern matches at offset [i] of [s] *)
Definition matches_at (r : regex) (s : string) (i : nat) : Prop :=
  i ≤ String.length s ∧ matched (rx r (at_offset i 0 None s) Some) = true.

(** Reading the text [w], every character of which is in the class [p] *)
Fixpoint run (p : ascii -> bool) (w : string) (st : mst) : option mst :=
  match w with
  | EmptyString => Some st
  | String a w' =>
      match rest st with
      | String c t =>
          if Ascii.eqb a c && p c
          then run p w' (MSt (S (pos st)) (Some c) t (caps st))
          else None
      | EmptyString => None
      end
  end.

(** What it means for a pattern to match between two states, without
    reference to the order of the search: [rmatch r st st'] when [r] can
    take the matcher from [st] to [st']. *)
Inductive rmatch : regex -> mst -> mst -> Prop :=
| M_Eps st : rmatch Eps st st
| M_Lit l st st' : eat l st = Some st' -> rmatch (Lit l) st st'
| M_Cls p st c t :
    rest st = String c t -> p c = true ->
    rmatch (Cls p) st (MSt (S (pos st)) (Some c) t (caps st))
| M_Cat r1 r2 st1 st2 st3 :
    rmatch r1 st1 st2 -> rmatch r2 st2 st3 -> rmatch (Cat r1 r2) st1 st3
| M_AltL r1 r2 st st' : rmatch r1 st st' -> rmatch (Alt r1 r2) st st'
| M_AltR r1 r2 st st' : rmatch r2 st st' -> rmatch (Alt r1 r2) st st'
| M_Rep p lo hi w st st' :
    run p w st = Some st' -> lo <= String.length w ->
    (forall h, hi = Some h -> String.length w <= h) ->
    rmatch (Rep p lo hi) st st'
| M_Grp n r st st' :
    rmatch r st st' ->
    rmatch (Grp n r) st (set_cap n (Str.take (pos st' - pos st) (rest st)) st')
| M_Bol st : pos st = 0 -> rmatch Bol st st
| M_Eol st : at_eol (rest st) = true -> rmatch Eol st st
| M_Wb st :
    xorb (is_wordchar (prev st)) (is_wordchar (next st)) = true -> rmatch Wb st st
| M_Ahead r st st' : rmatch r st st' -> rmatch (Ahead r) st st.

End ReSpec.

Module StrSpec.

(** Whether a text begins, or ends, with white space: [strip] removes
    both, and leaves any other text as it is *)
Definition head_space (s : string) : bool :=
  match s with
  | String c _ => Chr.is_space c
  | EmptyString => false
  end.
Fixpoint last_space (s : string) : bool :=
  match s with
  | EmptyString => false
  | String c EmptyString => Chr.is_space c
  | String _ t => last_space t
  end.

(** A text of the ASCII range. On such a text the character classes and
    the case mappings above are exactly those of Python's [str] and [re];
    beyond it Python's are those of Unicode. *)
Definition ascii_text (s : string) : bool :=
  Str.all (fun c => (Chr.code c <? 128)%N) s.

End StrSpec.

Module SanitizerSpec.

Import Sanitizer.

(** A record given by its items *)
Definition record (items : list (string * json)) : call := list_to_map items.

(** The content of the field [k] after the sanitizer *)
Definition field_after (k : string) (c : call) : result (option json) :=
  c' ← _sanitize_call c; mret (c' !! k).

(** The canonical label of [s]: the label of the vocabulary equal to it
    up to case *)
Definition canonical_label (s : string) : option string :=
  List.find (fun label => String.eqb (Str.lower label) (Str.lower s)) VALID_ENTITY_LABELS.

(** A rule that rewrites a field only when it holds a string: [f s] is
    the new content, [None] to leave the field as it is *)
Definition on_str (f : string -> option json) (v : option json) : option json :=
  match v with
  | Some (JStr s) => match f s with Some v' => Some v' | None => v end
  | _ => v
  end.

(** Null coercion of the content of a field *)
Definition nullify : option json -> option json :=
  on_str (fun s => if null_like s then Some JNull else None).

(** The fields the sanitizer may write; it reads no other *)
Definition sanitized_keys : list string :=
  null_keys ++ ["caller_name"; "call_type"; "involves_other_witnesses";
                "caller_emotional_tone"].

(** A value that is no string, or a string of the ASCII range *)
Definition plain (v : json) : bool :=
  match v with JStr s => StrSpec.ascii_text s | _ => true end.

(** The fields the sanitizer reads hold no text beyond the ASCII range *)
Definition plain_fields (c : call) : bool :=
  forallb (fun k => plain (Py.get c k)) sanitized_keys.

(** Two decimal digits *)
Definition two_digits (s : string) : bool :=
  match s with
  | String a (String b EmptyString) => Chr.is_digit a && Chr.is_digit b
  | _ => false
  end.

(** Zero-padded [HH:MM] with the hour in [0,23] and the minute in [0,59] *)
Definition valid_hhmm (t : string) : bool :=
  match Str.split_on ":" t with
  | [h; m] =>
      two_digits h && two_digits m && (Str.int_of h <=? 23) && (Str.int_of m <=? 59)
  | _ => false
  end.

(** What the time rule writes when it writes a clock reading, as the code
    stands: a decimal hour of two digits or more, a colon, and two decimal
    digits. The hour is not bounded. *)
Definition clock_shape (t : string) : bool :=
  match Str.split_on ":" t with
  | [h; m] => (2 <=? String.length h) && Str.all Chr.is_digit h && two_digits m
  | _ => false
  end.

(** The numerals of a time given as a clock reading are those of a time of
    day: an hour up to 23 and a minute up to 59 in the 24-hour form, an
    hour up to 12 and a minute up to 59 in the 12-hour form. A text that is
    not a clock reading has no numeral to check. *)
Definition numerals_in_range (time_val : string) : bool :=
  let tv := Str.lower (Str.strip time_val) in
  if Re.matched (Re.match_ re_hhmm tv) then
    let parts := Str.split_on ":" tv in
    (Str.int_of (nth 0 parts "") <=? 23) && (Str.int_of (nth 1 parts "") <=? 59)
  else
    match Str.assoc tv TIME_WORD_MAP, Re.match_ re_ampm tv with
    | None, Some m =>
        (Str.int_of (group_text 1 m) <=? 12)
        && (Str.int_of (default "00" (Re.group 2 m)) <=? 59)
    | _, _ => true
    end.

(** The sanitizer applied twice *)
Definition sanitize_twice (c : call) : result call :=
  c' ← _sanitize_call c; _sanitize_call c'.

(** The content of the field [k] after the sanitizer has run twice *)
Definition field_after_twice (k : string) (c : call) : result (option json) :=
  c' ← sanitize_twice c; mret (c' !! k).

(** The time of the record, when a string, has no more than the five
    characters of [HH:MM] *)
Definition time_fits (c : call) : Prop :=
  ∀ t, c !! "time_of_event" = Some (JStr t) → String.length t ≤ 5.

End SanitizerSpec.

Module VerifierSpec.

Import Verifier.

(** The run of word characters (letters, digits, the underscore) at the
    head of a text *)
Fixpoint word_run (s : string) : string :=
  match s with
  | String c t => if Chr.is_word c then String c (word_run t) else EmptyString
  | EmptyString => EmptyString
  end.

(** The words of a text, from left to right: a word starts at each word
    character that does not follow a word character, and goes on as far
    as word characters do. [inside] tells whether the character before
    [s] is a word character. *)
Fixpoint words_from (inside : bool) (s : string) : list string :=
  match s with
  | EmptyString => []
  | String c t =>
      if Chr.is_word c then
        if inside then words_from true t
        else String c (word_run t) :: words_from true t
      else words_from false t
  end.
Definition words : string -> list string := words_from false.









End VerifierSpec.

(** ** The vocabulary of the further properties *)

Module FieldSpec.

Import Sanitizer SanitizerSpec.

Definition is_str (v : json) : bool :=
  match v with JStr _ => true | _ => false end.
Definition is_null (v : json) : bool :=
  match v with JNull => true | _ => false end.
(** A value that can be looked up in a set or a dict *)
Definition hashable (v : json) : bool :=
  match v with JArr _ | JObj _ => false | _ => true end.

(** The records on which the sanitizer runs to completion: the state is
    not a list or dict with elements, the category is a string or falsy,
    the secondary category is a string, null or missing. *)
Definition sanitizable (c : call) : bool :=
  let state := Py.get c "state_or_region" in
  let ct := Py.get c "call_type" in
  let ct2 := Py.get c "call_type_secondary" in
  (negb (Py.truthy state) || hashable state)
  && (negb (Py.truthy ct) || is_str ct)
  && (is_null ct2 || is_str ct2).

(** Whether a computation returns *)
Definition completes {A : Type} (r : result A) : bool :=
  match r with Ok _ => true | Raise _ => false end.


(** Four digits, two digits and two digits, between hyphens *)
Definition iso_date (t : string) : Prop :=
  ∃ y m dd, t = y +:+ "-" +:+ m +:+ "-" +:+ dd
            ∧ Str.all Chr.is_digit y = true ∧ String.length y = 4
            ∧ two_digits m = true ∧ two_digits dd = true.

(** The fields in which the sanitizer coerces a null sentinel *)
Definition nullable_keys : list string := null_keys ++ ["caller_name"].

End FieldSpec.

Module ChunkSpec.

Import Chunker.

(** A chunk cut by the loop: longer than half the budget, and within it *)
Definition full_chunk (max_chars : Z) (chunk : string) : Prop :=
  (max_chars < 2 * len chunk)%Z ∧ (len chunk ≤ max_chars)%Z.

End ChunkSpec.

(** ** The verifier, with the summary it logs *)

Module VerifierLog.

Import Verifier FieldSpec.

(** [c.get('description','?')[:60]], in the warning for an unverified
    record: a string or a list can be sliced; [None], a boolean, a number
    or a dict cannot, and the subscript raises. *)
Definition description_head (c : call) : option json :=
  match default (JStr "?") (c !! "description") with
  | JStr s => Some (JStr (Str.take 60 s))
  | JArr l => Some (JArr (take 60 l))
  | _ => None
  end.

(** [not c.get("verified")] *)
Definition unverified (c : call) : bool := negb (Py.truthy (Py.get c "verified")).

(** The summary, as far as it can fail: the warnings for the first three
    unverified records, each of which formats [description_head] *)
Definition summary_completes (calls : list call) : bool :=
  forallb (fun c => match description_head c with Some _ => true | None => false end)
          (take 3 (List.filter unverified calls)).

(** [_verify_calls] with its summary: [None] when the loop over the
    records or the summary raises *)
Definition _verify_calls_logged (calls : list call) (transcript : string)
    : option (list call) :=
  match _verify_calls calls transcript with
  | Ok calls' => if summary_completes calls' then Some calls' else None
  | Raise _ => None
  end.

(** A field the verifier can read: a string, or a falsy value, which it
    takes for the empty string *)
Definition readable (v : json) : bool := negb (Py.truthy v) || is_str v.

Definition verifiable (c : call) : bool :=
  forallb (fun k => readable (Py.get c k))
          ["caller_intro_snippet"; "caller_name"; "state_or_region"; "description"].

(** The tags the four checks can give, in the order of the checks *)
Definition evidence_tags : list string :=
  ["snippet_match"; "snippet_partial"; "name_found"; "state_found"; "desc_words_match"].

End VerifierLog.

Module ExtractorSpec.

(** A record that carries the stamps of the episode [ep] *)
Definition stamped (ep : episode) (c : call) : Prop :=
  c !! "season" = Some (default JNull (ep_season ep))
  ∧ c !! "episode" = Some (default JNull (ep_episode ep))
  ∧ c !! "episode_title" = Some (JStr (ep_name ep))
  ∧ c !! "release_date" = Some (JStr (ep_release_date ep)).

End ExtractorSpec.

(** ** Numbering the records, and the rows of the workbook *)

Module Workbook.

Import Sanitizer.

(** The numbering loop of [parse_transcripts] and [main]:
    [instance_counter += 1; call["instance"] = instance_counter] for each
    record in turn; the counter goes on from one episode to the next. *)
Fixpoint number_calls (instance_counter : Z) (calls : list call) : Z * list call :=
  match calls with
  | [] => (instance_counter, [])
  | c :: calls' =>
      let instance_counter := (instance_counter + 1)%Z in
      let '(n, out) := number_calls instance_counter calls' in
      (n, <["instance" := JInt instance_counter]> c :: out)
  end.

(** [export_to_xlsx]: the header row *)
Definition headers : list string :=
  ["instance"; "season"; "episode"; "episode_title"; "release_date"; "call_start_time";
   "caller_name"; "country"; "state_or_region"; "city"; "us_census_region";
   "call_type"; "call_type_secondary"; "description"; "date_of_event";
   "time_of_event"; "setting"; "involves_other_witnesses";
   "caller_emotional_tone"; "sentiment_compound"; "sentiment_pos";
   "sentiment_neg"; "sentiment_neu"; "derek_commentary"; "verified"].

(** [v == "USA"] *)
Definition is_usa (v : json) : bool :=
  match v with JStr s => String.eqb s "USA" | _ => false end.

(** [US_REGIONS.get(state, None) if call.get("country") == "USA" and state
    else None]: the lookup hashes the state *)
Definition region (c : call) : result json :=
  let state := Py.get c "state_or_region" in
  if is_usa (Py.get c "country") && Py.truthy state then
    match state with
    | JArr _ | JObj _ => Raise TypeError
    | JStr s => Ok (match Str.assoc s US_REGIONS with Some r => JStr r | None => JNull end)
    | _ => Ok JNull
    end
  else Ok JNull.

(** [v if isinstance(v, bool) else None] *)
Definition only_bool (v : json) : json :=
  match v with JBool _ => v | _ => JNull end.

(** ["NA" if v is None else v] *)
Definition na (v : json) : json :=
  match v with JNull => JStr "NA" | _ => v end.

(** The list [row] of one record, each value as it is handed to
    [ws.cell]; what the workbook library does with a value is not part of
    this embedding *)
Definition row (c : call) : result (list json) :=
  region ← region c;
  mret (na <$> [Py.get c "instance"; Py.get c "season"; Py.get c "episode";
                Py.get c "episode_title"; Py.get c "release_date";
                Py.get c "call_start_time"; Py.get c "caller_name";
                Py.get c "country"; Py.get c "state_or_region"; Py.get c "city";
                region;
                Py.get c "call_type"; Py.get c "call_type_secondary";
                Py.get c "description"; Py.get c "date_of_event";
                Py.get c "time_of_event"; Py.get c "setting";
                only_bool (Py.get c "involves_other_witnesses");
                Py.get c "caller_emotional_tone"; Py.get c "sentiment_compound";
                Py.get c "sentiment_pos"; Py.get c "sentiment_neg";
                Py.get c "sentiment_neu"; Py.get c "derek_commentary";
                only_bool (Py.get c "verified")]).

End Workbook.

Module WorkbookSpec.

Import Workbook.

(** What the column [h] shows of the record [c], whose census region is
    [region]: the field of that name, the two flags only when booleans, and
    "NA" for a value that is missing or null *)
Definition cell (c : call) (region : json) (h : string) : json :=
  na (if String.eqb h "us_census_region" then region
      else if String.eqb h "involves_other_witnesses" || String.eqb h "verified"
           then only_bool (Py.get c h)
           else Py.get c h).

End WorkbookSpec.

(** ** Time offsets: [_seconds_to_hms] *)

Module Hms.

(** [int(x)] for a float of value [mantissa * 2 ^ exponent], signed:
    truncation toward zero; [None] for nan and the infinities, on which
    [int] raises *)
Definition int_of_float (x : pyfloat) : option Z :=
  match x with
  | FFin negative m e =>
      let magnitude :=
        if (0 <=? e)%Z then (Z.of_N m * 2 ^ e)%Z else (Z.of_N m / 2 ^ (- e))%Z in
      Some (if negative then (- magnitude)%Z else magnitude)
  | _ => None
  end.

(** [str(z)], and [f"{z}"], for an integer *)
Definition of_Z (z : Z) : string :=
  if (z <? 0)%Z then String "-" (Str.of_nat (Z.to_nat (- z)))
  else Str.of_nat (Z.to_nat z).

(** [_seconds_to_hms]: [//] is the floor division and [%] the remainder
    of the sign of the divisor, as [Z.div] and [Z.modulo] are *)
Definition _seconds_to_hms (seconds : pyfloat) : option string :=
  total ← int_of_float seconds;
  let h := (total / 3600)%Z in
  let m := ((total mod 3600) / 60)%Z in
  let s := (total mod 60)%Z in
  Some (of_Z h +:+ ":" +:+ Str.fmt_02d (Z.to_nat m) +:+ ":" +:+ Str.fmt_02d (Z.to_nat s)).

End Hms.

Module HmsSpec.

Import SanitizerSpec.

(** The integer a text of decimal digits stands for, with or without a
    minus sign *)
Definition Z_of (s : string) : Z :=
  match s with
  | String c t =>
      if Ascii.eqb c "-" then (- Z.of_nat (Str.int_of t))%Z else Z.of_nat (Str.int_of s)
  | EmptyString => 0%Z
  end.

(** The seconds a text [H:MM:SS] stands for: hours, then minutes and
    seconds of two digits each and below sixty *)
Definition seconds_of (hms : string) : option Z :=
  match Str.split_on ":" hms with
  | [h; m; s] =>
      if two_digits m && two_digits s && (Str.int_of m <? 60) && (Str.int_of s <? 60)
      then Some (Z_of h * 3600 + Z.of_nat (Str.int_of m) * 60 + Z.of_nat (Str.int_of s))%Z
      else None
  | _ => None
  end.

End HmsSpec.

(** ** The output file: [_versioned_path] *)

Module Versioning.

Import Re.

(** A path, as far as [_versioned_path] reads it: its directory
    [path.parent], and the [path.stem] and [path.suffix] that make up its
    file name *)
Record path : Type := Path {
  parent : string;
  stem : string;
  suffix : string
}.

Definition name (p : path) : string := stem p +:+ suffix p.

(** [_v\d+$] *)
Definition re_version : regex := seq [Lit "_v"; plus d; Eol].

(** [f"{base}_v{version}{suffix}"], with [base] the stem less its
    version *)
Definition candidate (p : path) (version : nat) : string :=
  remove re_version (stem p) +:+ "_v" +:+ Str.of_nat version +:+ suffix p.

Section FileSystem.

(** [(directory / file_name).exists()], in the file system of the call *)
Variable exists_ : string → string → bool.

(** The loop [while True], run for at most [fuel] turns *)
Fixpoint next_free (fuel : nat) (p : path) (version : nat) : option string :=
  match fuel with
  | O => None
  | S fuel' =>
      if negb (exists_ (parent p) (candidate p version)) then Some (candidate p version)
      else next_free fuel' p (S version)
  end.

(** [_versioned_path]: the directory and the file name of the path
    returned *)
Definition _versioned_path (fuel : nat) (p : path) : option (string * string) :=
  if negb (exists_ (parent p) (name p)) then Some (parent p, name p)
  else pair (parent p) <$> next_free fuel p 2.

End FileSystem.

End Versioning.

(** ** Titles and audio addresses: [_parse_season_episode], [_clean_audio_url] *)

Module Titles.

Import Re.

Definition is_S (c : ascii) : bool := Ascii.eqb c "S" || Ascii.eqb c "s".
Definition is_E (c : ascii) : bool := Ascii.eqb c "E" || Ascii.eqb c "e".
Definition dot : ascii → bool := Chr.one ".".

(** The three patterns of season and episode, and the pattern of a lone
    episode (the first is written here with blanks around its two
    alternatives):
    [[Ss](?: n\.?\s* | eason\s* )(\d+)\s*[Ee]p(?:isode)?\.?\s*(\d+)],
    [[Ss](\d+)\s*[Ee]p?(\d+)],
    [\(Sn\.\s*(\d+)\s*Ep\.\s*(\d+)\)] and
    [[Ee]p(?:isode)?\.?\s*(\d+)] *)
Definition re_season_long : regex :=
  seq [Cls is_S;
       Alt (seq [Lit "n"; Rep dot 0 (Some 1); star sp]) (seq [Lit "eason"; star sp]);
       Grp 1 (plus d); star sp;
       Cls is_E; Lit "p"; Opt (Lit "isode"); Rep dot 0 (Some 1); star sp;
       Grp 2 (plus d)].
Definition re_season_short : regex :=
  seq [Cls is_S; Grp 1 (plus d); star sp; Cls is_E; Rep (Chr.one "p") 0 (Some 1);
       Grp 2 (plus d)].
Definition re_season_paren : regex :=
  seq [Lit "(Sn."; star sp; Grp 1 (plus d); star sp; Lit "Ep."; star sp;
       Grp 2 (plus d); Lit ")"].
Definition re_episode : regex :=
  seq [Cls is_E; Lit "p"; Opt (Lit "isode"); Rep dot 0 (Some 1); star sp;
       Grp 1 (plus d)].

Definition patterns : list regex := [re_season_long; re_season_short; re_season_paren].

(** [m.group(n)] of a group that took part in the match *)
Definition group_text (n : nat) (m : mst) : string := default "" (group n m).

(** The loop [for pat in patterns] with its [return] *)
Fixpoint first_season (title : string) (pats : list regex) : option (nat * nat) :=
  match pats with
  | [] => None
  | pat :: pats' =>
      match search pat title with
      | Some m => Some (Str.int_of (group_text 1 m), Str.int_of (group_text 2 m))
      | None => first_season title pats'
      end
  end.

Definition _parse_season_episode (title : string) : option nat * option nat :=
  match first_season title patterns with
  | Some (season, ep) => (Some season, Some ep)
  | None =>
      match search re_episode title with
      | Some m => (None, Some (Str.int_of (group_text 1 m)))
      | None => (None, None)
      end
  end.

End Titles.

Module Audio.

Import Re.

(** [(audioboom\.com/posts/\d+\.mp3)] *)
Definition re_audioboom : regex :=
  Grp 1 (seq [Lit "audioboom.com/posts/"; plus d; Lit ".mp3"]).

Definition not_slash (c : ascii) : bool := negb (Ascii.eqb c "/").
(** [[^\s?]] *)
Definition in_path (c : ascii) : bool := negb (Chr.is_space c) && negb (Ascii.eqb c "?").

(** [((?:https?://)?[^/]*HOST/[^\s?]+\.mp3)], with [HOST] the escaped
    name of the host *)
Definition re_host (host : string) : regex :=
  Grp 1 (seq [Opt (seq [Lit "http"; Rep (Chr.one "s") 0 (Some 1); Lit "://"]);
              star not_slash; Lit host; Lit "/"; plus in_path; Lit ".mp3"]).

Definition hosts : list string :=
  ["megaphone.fm"; "libsyn.com"; "podbean.com"; "buzzsprout.com"].

(** The loop [for host in ...] with its [return] *)
Fixpoint first_host (url : string) (hs : list string) : option string :=
  match hs with
  | [] => None
  | host :: hs' =>
      match search (re_host host) url with
      | Some m =>
          let clean := Titles.group_text 1 m in
          Some (if Str.starts_with "http" clean then clean else "https://" +:+ clean)
      | None => first_host url hs'
      end
  end.

(** [_clean_audio_url], up to the line it logs at debug level *)
Definition _clean_audio_url (url : string) : string :=
  match search re_audioboom url with
  | Some m => "https://" +:+ Titles.group_text 1 m
  | None => default url (first_host url hosts)
  end.

End Audio.

Module AudioSpec.


End AudioSpec.

(** ** What a pattern cannot match without *)

Module ReNeeds.

Import Re.

(** Every ASCII character and every byte above *)
Definition all_chars : list ascii := ascii_of_nat <$> List.seq 0 256.

(** The class [p] lies within the class [q] *)
Definition within (p q : ascii → bool) : bool :=
  forallb (fun c => implb (p c) (q c)) all_chars.

(** Some character of [s] is in the class [q] *)
Definition has (q : ascii → bool) (s : string) : bool :=
  existsb q (list_ascii_of_string s).

(** A sufficient test that every match of [r] reads the text [l] *)
Fixpoint needs (l : string) (r : regex) : bool :=
  match r with
  | Lit l' => Str.contains l l'
  | Cat r1 r2 => needs l r1 || needs l r2
  | Alt r1 r2 => needs l r1 && needs l r2
  | Grp _ r1 => needs l r1
  | _ => false
  end.

(** A sufficient test that every match of [r] reads a character of [q] *)
Fixpoint needs_class (q : ascii → bool) (r : regex) : bool :=
  match r with
  | Lit l => has q l
  | Cls p => within p q
  | Rep p lo _ => (1 <=? lo) && within p q
  | Cat r1 r2 => needs_class q r1 || needs_class q r2
  | Alt r1 r2 => needs_class q r1 && needs_class q r2
  | Grp _ r1 => needs_class q r1
  | _ => false
  end.

(** The texts a pattern without anchor or lookahead can read, whatever
    comes before and after *)
Inductive reads : regex → string → Prop :=
| R_Eps : reads Eps ""
| R_Lit l : reads (Lit l) l
| R_Cls p c : p c = true → reads (Cls p) (String c "")
| R_Cat r1 r2 w1 w2 : reads r1 w1 → reads r2 w2 → reads (Cat r1 r2) (w1 +:+ w2)
| R_AltL r1 r2 w : reads r1 w → reads (Alt r1 r2) w
| R_AltR r1 r2 w : reads r2 w → reads (Alt r1 r2) w
| R_Rep p lo hi w :
    Str.all p w = true → lo ≤ String.length w →
    (∀ h, hi = Some h → String.length w ≤ h) →
    reads (Rep p lo hi) w
| R_Grp n r w : reads r w → reads (Grp n r) w.

(** The states of a scan of [s]: each has a suffix of [s] ahead. *)
Definition ahead_of (s : string) (st : mst) : Prop := ∃ pre, s = pre +:+ rest st.

End ReNeeds.

(** ** Episode identifiers: the [episode_id] of [fetch_episode_list] *)

Module Episodes.

Import Re.

(** [re.sub(r, by, s)] for a pattern [r] that matches no empty text: the
    matches from left to right, none overlapping, each replaced by [by].
    [skip] counts the positions inside the last match still to pass. *)
Fixpoint sub_go (r : regex) (by_ : string) (ps : nat) (pv : option ascii) (s : string)
    (skip : nat) : string :=
  match s with
  | String c t =>
      match skip with
      | S skip' => sub_go r by_ (S ps) (Some c) t skip'
      | O =>
          match rx r (MSt ps pv s []) Some with
          | Some out =>
              if pos out =? ps then String c (sub_go r by_ (S ps) (Some c) t 0)
              else by_ +:+ sub_go r by_ (S ps) (Some c) t (pos out - ps - 1)
          | None => String c (sub_go r by_ (S ps) (Some c) t 0)
          end
      end
  | EmptyString => EmptyString
  end.
Definition sub (r : regex) (by_ : string) (s : string) : string := sub_go r by_ 0 None s 0.

(** [[^\w]] *)
Definition not_word (c : ascii) : bool := negb (Chr.is_word c).

(** [re.sub(r"[^\w]", "_", title)[:60]] *)
Definition episode_id (title : string) : string :=
  Str.take 60 (sub (Cls not_word) "_" title).

End Episodes.

Module EpisodesSpec.

(** A character of the ASCII range that is no letter, digit or
    underscore: a blank, a separator of paths, a dot, punctuation *)
Definition unsafe (c : ascii) : bool :=
  (Chr.code c <? 128)%N && negb (Chr.is_word c).

End EpisodesSpec.

(** ** Start times: [_resolve_timestamps] *)

Module Timestamps.

(** One segment of the time index, as [fetch_transcripts] writes it: its
    text, and the offset [start_hms] at which it starts *)
Record segment : Type := Segment {
  seg_text : string;
  seg_start_hms : json
}.

(** [s.find(sub)]: the first offset at which [sub] occurs in [s]; [None]
    stands for -1 *)
Fixpoint find_go (sub s : string) (i : nat) : option nat :=
  if Str.starts_with sub s then Some i
  else match s with
       | String _ t => find_go sub t (S i)
       | EmptyString => None
       end.
Definition find (sub s : string) : option nat := find_go sub s 0.

(** One turn of the loop over the segments, on [full_text] and
    [char_to_time] *)
Definition index_step (acc : string * list (nat * nat * json)) (seg : segment)
    : string * list (nat * nat * json) :=
  let start_pos := String.length acc.1 in
  let full_text := acc.1 +:+ (seg_text seg +:+ " ") in
  (full_text, acc.2 ++ [(start_pos, String.length full_text, seg_start_hms seg)]).

Definition index (segments : list segment) : string * list (nat * nat * json) :=
  foldl index_step ("", []) segments.

(** The loop [for cs, ce, hms in char_to_time], with its [break] and its
    [else] *)
Definition time_at (idx : nat) (char_to_time : list (nat * nat * json)) : json :=
  match List.find (fun span => (span.1.1 <=? idx) && (idx <? span.1.2)) char_to_time with
  | Some span => span.2
  | None => JNull
  end.

(** The loop over the phrases that introduce a caller: [idx] when it
    ends *)
Fixpoint find_phrase (full_lower : string) (pats : list string) : option nat :=
  match pats with
  | [] => None
  | pat :: pats' =>
      match find pat full_lower with
      | Some i => Some i
      | None => find_phrase full_lower pats'
      end
  end.

(** [idx]: by the whole snippet, by its first six words, by the name of
    the caller in one of the three phrases *)
Definition locate (full_lower : string) (c : call) (snippet : string)
    : result (option nat) :=
  match find snippet full_lower with
  | Some i => Ok (Some i)
  | None =>
      match find (Str.join " " (take 6 (Str.split_ws snippet))) full_lower with
      | Some i => Ok (Some i)
      | None =>
          name ← Py.lower (Py.or_ (Py.get c "caller_name") (JStr ""));
          if negb (Str.is_empty name) && negb (String.eqb name "anonymous")
          then Ok (find_phrase full_lower
                     ["this is " +:+ name; "my name is " +:+ name; "call me " +:+ name])
          else Ok None
      end
  end.

(** One turn of the loop over the records *)
Definition resolve_call (full_lower : string) (char_to_time : list (nat * nat * json))
    (c : call) : result call :=
  snippet ← Py.lower (Py.or_ (Py.get c "caller_intro_snippet") (JStr ""));
  let snippet := Str.strip snippet in
  if Str.is_empty snippet then Ok (<["call_start_time" := JNull]> c)
  else
    idx ← locate full_lower c snippet;
    Ok (<["call_start_time" :=
           match idx with Some i => time_at i char_to_time | None => JNull end]> c).

Fixpoint resolve_all (full_lower : string) (char_to_time : list (nat * nat * json))
    (calls : list call) : result (list call) :=
  match calls with
  | [] => Ok []
  | c :: calls' =>
      c' ← resolve_call full_lower char_to_time c;
      rest ← resolve_all full_lower char_to_time calls';
      Ok (c' :: rest)
  end.

(** [_resolve_timestamps], on the segments the file holds; [None] when
    the file cannot be read, and the records are left as they are *)
Definition _resolve_timestamps (segments : option (list segment)) (calls : list call)
    : result (list call) :=
  match segments with
  | None => Ok calls
  | Some segments =>
      let full := index segments in
      resolve_all (Str.lower full.1) full.2 calls
  end.

End Timestamps.

Module TimestampsSpec.

Import Timestamps.

(** The text and the spans of the index, by the segments *)
Fixpoint spans (offset : nat) (segments : list segment) : list (nat * nat * json) :=
  match segments with
  | [] => []
  | seg :: segments' =>
      let stop := offset + String.length (seg_text seg) + 1 in
      (offset, stop, seg_start_hms seg) :: spans stop segments'
  end.

Fixpoint text_of (segments : list segment) : string :=
  match segments with
  | [] => ""
  | seg :: segments' => (seg_text seg +:+ " ") +:+ text_of segments'
  end.

(** The length of the text of the segments, each followed by a blank *)
Definition span (segments : list segment) : nat :=
  String.length (index segments).1.

End TimestampsSpec.

(** ** The location patch: [reparse_regions] *)

Module Regions.

Import Sanitizer.

Definition location_fields : list string := ["country"; "state_or_region"; "city"].

(** One turn of [for field in ("country", "state_or_region", "city")]:
    [loc.get(field)], a null sentinel replaced by [None], stored in the
    record *)
Definition patch_field (loc : gmap string json) (c : call) (field : string) : call :=
  let new_val := Py.get loc field in
  let new_val :=
    match new_val with
    | JStr s => if null_like s then JNull else new_val
    | _ => new_val
    end in
  <[field := new_val]> c.

(** The body of the [try] after [json.loads], on the record it mutates:
    the record as the [except] clause finds it, and the exception caught,
    if any. An answer that is not an object has no [get]; the test of
    the state against [US_REGIONS] needs a hashable value. *)
Definition patch_location (loc : json) (c : call) : call * option exn :=
  match loc with
  | JObj loc =>
      let c := foldl (patch_field loc) c location_fields in
      let c := normalize_state c in
      match force_country c with
      | Ok c' => (c', None)
      | Raise e => (c, Some e)
      end
  | _ => (c, Some AttributeError)
  end.

End Regions.

Module RegionsSpec.

Import Sanitizer.




End RegionsSpec.
(* ===================================================================== *)
(** * Part II: the properties *)
(* ===================================================================== *)

(** ** Strings *)

Section StringFacts.

Implicit Types s t u : string.

Lemma app_nil_l s : "" +:+ s = s.
Proof. reflexivity. Qed.

Lemma app_cons c s t : String c s +:+ t = String c (s +:+ t).
Proof. reflexivity. Qed.

Lemma app_empty_r s : s +:+ "" = s.
Proof. induction s as [|c s IH]; [done | by rewrite app_cons, IH]. Qed.

Lemma app_assoc_str s t u : (s +:+ t) +:+ u = s +:+ (t +:+ u).
Proof. induction s as [|c s IH]; [done | by rewrite !app_cons, IH]. Qed.

Lemma length_app_str s t : String.length (s +:+ t) = String.length s + String.length t.
Proof. induction s as [|c s IH]; [done | by rewrite app_cons; simpl; rewrite IH]. Qed.

Lemma take_drop n s : Str.take n s +:+ Str.drop n s = s.
Proof.
  revert s; induction n as [|n IH]; intros [|c s]; simpl; try done.
  by rewrite app_cons, IH.
Qed.

Lemma length_take n s : String.length (Str.take n s) = n `min` String.length s.
Proof.
  revert s; induction n as [|n IH]; intros [|c s]; simpl; try done.
  by rewrite IH.
Qed.

Lemma length_drop n s : String.length (Str.drop n s) = String.length s - n.
Proof.
  revert s; induction n as [|n IH]; intros [|c s]; simpl; try done.
Qed.

Lemma slice_to_from n s : Str.slice_to n s +:+ Str.slice_from n s = s.
Proof. apply take_drop. Qed.

Lemma concat_app (l1 l2 : list string) :
  Str.concat (l1 ++ l2) = Str.concat l1 +:+ Str.concat l2.
Proof.
  induction l1 as [|x l1 IH]; simpl; [done|].
  by rewrite IH, app_assoc_str.
Qed.

Lemma is_empty_true s : Str.is_empty s = true → s = "".
Proof. by destruct s. Qed.

End StringFacts.

(** ** The chunker *)

Module ChunkerFacts.

Import Chunker.

(** The split point is the budget itself or a marker offset in the
    window, whatever the markers are. *)
Lemma split_point_cases max_chars remaining :
  split_point max_chars remaining = max_chars ∨
  ∃ start : nat, split_point max_chars remaining = Z.of_nat start ∧
                 in_window max_chars start = true.
Proof.
  unfold split_point.
  generalize (Str.slice_to (max_chars + 5000) remaining) as window.
  intros window.
  assert (Hgen : ∀ ms best,
    (best = max_chars ∨ ∃ start : nat, best = Z.of_nat start ∧ in_window max_chars start = true) →
    let out := fold_left (fun best m =>
                   match marker_split max_chars window m with
                   | Some start => Z.of_nat start
                   | None => best
                   end) ms best in
    out = max_chars ∨ ∃ start : nat, out = Z.of_nat start ∧ in_window max_chars start = true).
  { induction ms as [|m ms IH]; intros best Hbest; simpl; [done|].
    apply IH. destruct (marker_split max_chars window m) as [start|] eqn:Hm; [|done].
    right. exists start. split; [done|].
    unfold marker_split in Hm. by apply find_some in Hm as [_ ?]. }
  apply Hgen. by left.
Qed.

Lemma split_point_bounds max_chars remaining :
  (1 ≤ max_chars)%Z →
  (1 ≤ split_point max_chars remaining ≤ max_chars)%Z.
Proof.
  intros Hmax. destruct (split_point_cases max_chars remaining) as [->|(start & -> & Hw)].
  - lia.
  - unfold in_window in Hw. apply andb_true_iff in Hw as [H1 H2].
    apply Z.ltb_lt in H1, H2. lia.
Qed.

(** One turn of the loop removes at least one character. *)
Lemma turn_shrinks max_chars remaining :
  (1 ≤ max_chars)%Z → (max_chars < len remaining)%Z →
  String.length (Str.slice_from (split_point max_chars remaining) remaining)
    < String.length remaining.
Proof.
  intros Hmax Hlen. pose proof (split_point_bounds max_chars remaining Hmax) as Hb.
  unfold Str.slice_from, Str.slice_bound.
  destruct (Z.leb_spec 0 (split_point max_chars remaining)); [|lia].
  rewrite length_drop. unfold len in Hlen. lia.
Qed.

(** The loop keeps the text: what it returns concatenates to the chunks
    cut so far followed by the remainder. *)
Lemma chunk_loop_concat fuel max_chars chunks remaining out :
  chunk_loop fuel max_chars chunks remaining = Some out →
  Str.concat out = Str.concat chunks +:+ remaining.
Proof.
  revert chunks remaining; induction fuel as [|fuel IH]; intros chunks remaining; simpl.
  - destruct (max_chars <? len remaining)%Z; [done|].
    intros [= <-]. destruct (Str.is_empty remaining) eqn:He.
    + apply is_empty_true in He as ->. by rewrite app_empty_r.
    + rewrite concat_app. simpl. by rewrite app_empty_r.
  - destruct (max_chars <? len remaining)%Z.
    + intros Hrun. apply IH in Hrun. rewrite Hrun, concat_app. simpl.
      rewrite app_empty_r, app_assoc_str. by rewrite slice_to_from.
    + intros [= <-]. destruct (Str.is_empty remaining) eqn:He.
      * apply is_empty_true in He as ->. by rewrite app_empty_r.
      * rewrite concat_app. simpl. by rewrite app_empty_r.
Qed.

Lemma chunk_transcript_concat fuel text max_chars out :
  _chunk_transcript fuel text max_chars = Some out → Str.concat out = text.
Proof.
  unfold _chunk_transcript. destruct (len text <=? max_chars)%Z.
  - intros [= <-]. simpl. apply app_empty_r.
  - intros Hrun. by apply chunk_loop_concat in Hrun.
Qed.

(** With a budget of at least one character the loop ends within as
    many turns as the text has characters. *)
Lemma chunk_loop_total fuel max_chars chunks remaining :
  (1 ≤ max_chars)%Z → String.length remaining ≤ fuel →
  is_Some (chunk_loop fuel max_chars chunks remaining).
Proof.
  intros Hmax. revert chunks remaining.
  induction fuel as [|fuel IH]; intros chunks remaining Hfuel; simpl.
  - destruct (Z.ltb_spec max_chars (len remaining)); [|done].
    unfold len in *. lia.
  - destruct (Z.ltb_spec max_chars (len remaining)); [|done].
    apply IH. pose proof (turn_shrinks max_chars remaining Hmax). lia.
Qed.

(** More fuel does not change an answer. *)
Lemma chunk_loop_mono fuel fuel' max_chars chunks remaining out :
  chunk_loop fuel max_chars chunks remaining = Some out → fuel ≤ fuel' →
  chunk_loop fuel' max_chars chunks remaining = Some out.
Proof.
  revert fuel' chunks remaining; induction fuel as [|fuel IH];
    intros fuel' chunks remaining; simpl.
  - destruct (max_chars <? len remaining)%Z eqn:Hlt; [done|].
    intros Hout _. destruct fuel'; simpl; by rewrite Hlt.
  - destruct (max_chars <? len remaining)%Z eqn:Hlt.
    + intros Hrun Hle. destruct fuel' as [|fuel']; [lia|]. simpl. rewrite Hlt.
      apply IH; [done | lia].
    + intros Hout _. destruct fuel'; simpl; by rewrite Hlt.
Qed.

Lemma chunk_transcript_total text max_chars :
  (1 ≤ max_chars)%Z →
  ∃ chunks, ∀ fuel, String.length text ≤ fuel →
    _chunk_transcript fuel text max_chars = Some chunks.
Proof.
  intros Hmax. unfold _chunk_transcript.
  destruct (len text <=? max_chars)%Z; [by eexists|].
  destruct (chunk_loop_total (String.length text) max_chars [] text Hmax) as [out Hout];
    [done|].
  exists out. intros fuel Hfuel. by eapply chunk_loop_mono.
Qed.

(** Without that bound the loop need not end: with a budget of zero it
    cuts an empty chunk for ever. *)
Lemma chunk_transcript_zero_budget fuel c text :
  _chunk_transcript fuel (String c text) 0 = None.
Proof.
  unfold _chunk_transcript. simpl.
  assert (Hsp : split_point 0 (String c text) = 0%Z).
  { destruct (split_point_cases 0 (String c text)) as [->|(start & _ & Hw)]; [done|].
    unfold in_window in Hw. apply andb_true_iff in Hw as [H1 H2].
    apply Z.ltb_lt in H1, H2. lia. }
  generalize (@nil string) as chunks.
  induction fuel as [|fuel IH]; intros chunks; simpl; [done|].
  rewrite Hsp. unfold Str.slice_from, Str.slice_to. simpl. apply IH.
Qed.

End ChunkerFacts.

Module ChunkerClaims.

Import Chunker ChunkerSpec ChunkerFacts.

(** C2: chunking is lossless. For every text, with the configured budget
    of 75000 characters, [_chunk_transcript] returns a list of chunks
    (given enough turns, the same list) whose concatenation is the text
    itself, whether the text is shorter than, equal to or longer than the
    budget. *)
Theorem chunking_lossless (text : string) :
  ∃ chunks,
    (∀ fuel, String.length text ≤ fuel →
       _chunk_transcript fuel text default_max_chars = Some chunks)
    ∧ Str.concat chunks = text.
Proof.
  destruct (chunk_transcript_total text default_max_chars) as [chunks Hrun]; [done|].
  exists chunks. split; [done|].
  eapply chunk_transcript_concat. by apply (Hrun (String.length text)).
Qed.

Lemma chunking_lossless_witness :
  ∃ chunks,
    _chunk_transcript 9 "Now folks" default_max_chars = Some chunks
    ∧ Str.concat chunks = "Now folks".
Proof.
  destruct (chunking_lossless "Now folks") as (chunks & Hrun & Hcat).
  exists chunks. split; [apply Hrun; simpl; lia | exact Hcat].
Defined.

(** The same for any budget, on texts below, at and above it. *)
Example chunk_short : _chunk_transcript 0 "Now folks" 10 = Some ["Now folks"].
Proof. reflexivity. Qed.
Example chunk_exact : _chunk_transcript 0 "Now folks" 9 = Some ["Now folks"].
Proof. reflexivity. Qed.
Example chunk_long :
  _chunk_transcript 9 "Now folks" 4 = Some ["Now "; "folk"; "s"].
Proof. vm_compute. reflexivity. Qed.

(** C10: the chunker terminates. For every text and every budget of at
    least one character, [_chunk_transcript] returns within as many turns
    of its loop as the text has characters; every split point is at least
    1 (it is the budget, or a marker offset above half the budget and
    below the budget), so each turn leaves a strictly shorter text. *)
Theorem chunk_transcript_terminates (text : string) (max_chars : Z) :
  (1 ≤ max_chars)%Z →
  (∃ chunks, ∀ fuel, String.length text ≤ fuel →
     _chunk_transcript fuel text max_chars = Some chunks)
  ∧ (∀ remaining, (max_chars < len remaining)%Z →
       let best := split_point max_chars remaining in
       (1 ≤ best)%Z
       ∧ (best = max_chars ∨ (max_chars < 2 * best ∧ best < max_chars)%Z)
       ∧ String.length (Str.slice_from best remaining) < String.length remaining).
Proof.
  intros Hmax. split; [by apply chunk_transcript_total|].
  intros remaining Hlen best. split; [|split].
  - by apply split_point_bounds.
  - destruct (split_point_cases max_chars remaining) as [?|(start & Hs & Hw)]; [by left|].
    right. unfold best. rewrite Hs. unfold in_window in Hw.
    apply andb_true_iff in Hw as [H1 H2]. apply Z.ltb_lt in H1, H2. lia.
  - by apply turn_shrinks.
Qed.

Lemma chunk_transcript_terminates_witness :
  ∃ chunks, ∀ fuel, 9 ≤ fuel → _chunk_transcript fuel "Now folks" 4 = Some chunks.
Proof.
  refine (proj1 (chunk_transcript_terminates "Now folks" 4 _)). lia.
Defined.

End ChunkerClaims.

(** ** Scanning a text for a pattern *)

Module ScanFacts.

Import Re ReSpec ChunkerSpec.

Lemma ascending_weaken lo lo' l : lo ≤ lo' → ascending lo' l → ascending lo l.
Proof. destruct l as [|x l]; simpl; [done|]. intros ? [? ?]. split; [lia | done]. Qed.

Lemma ascending_lower lo l y : ascending lo l → y ∈ l → lo ≤ y.
Proof.
  revert lo; induction l as [|x l IH]; intros lo Hasc Hy; [by apply elem_of_nil in Hy|].
  destruct Hasc as [Hlo Hasc]. apply elem_of_cons in Hy as [->|Hy]; [done|].
  specialize (IH _ Hasc Hy). lia.
Qed.

(** [finditer] reports its matches from left to right. *)
Lemma finditer_go_ascending r ps pv s skip :
  ascending ps (finditer_go r ps pv s skip).*1.
Proof.
  revert ps pv skip; induction s as [|c t IH]; intros ps pv skip; simpl.
  - destruct skip; [destruct (rx r _ Some)|]; simpl; auto.
  - destruct skip as [|skip].
    + destruct (rx r _ Some) as [out|]; simpl.
      * split; [done|]. apply IH.
      * eapply ascending_weaken; [|apply IH]. lia.
    + eapply ascending_weaken; [|apply IH]. lia.
Qed.

Lemma finditer_ascending r s : ascending 0 (starts r s).
Proof. apply finditer_go_ascending. Qed.

(** A lookahead is found at every offset where its pattern matches. *)
Lemma finditer_go_ahead r ps pv s x :
  x ∈ (finditer_go (Ahead r) ps pv s 0).*1 ↔
  ∃ i, x = ps + i ∧ i ≤ String.length s ∧
       matched (rx r (at_offset i ps pv s) Some) = true.
Proof.
  revert ps pv; induction s as [|c t IH]; intros ps pv; simpl.
  - destruct (rx r (MSt ps pv "" []) Some) as [out|] eqn:Hrx; simpl.
    + rewrite list_elem_of_singleton. split.
      * intros ->. exists 0. rewrite Nat.add_0_r. simpl. by rewrite Hrx.
      * intros (i & -> & Hi & _). assert (i = 0) as -> by lia. lia.
    + split; [by intros ?%elem_of_nil|].
      intros (i & -> & Hi & Hm). assert (i = 0) as -> by lia.
      simpl in Hm. by rewrite Hrx in Hm.
  - destruct (rx r (MSt ps pv (String c t) []) Some) as [out|] eqn:Hrx; simpl.
    + replace (ps - ps - 1) with 0 by lia. rewrite elem_of_cons, IH. split.
      * intros [->|(i & -> & Hi & Hm)].
        -- exists 0. rewrite Nat.add_0_r. simpl. rewrite Hrx. split; [done|]. split; [lia|done].
        -- exists (S i). split; [lia|]. split; [lia|done].
      * intros ([|i] & -> & Hi & Hm); [left; lia|].
        right. exists i. split; [lia|]. split; [lia|done].
    + rewrite IH. split.
      * intros (i & -> & Hi & Hm). exists (S i). split; [lia|]. split; [lia|done].
      * intros ([|i] & -> & Hi & Hm).
        -- simpl in Hm. by rewrite Hrx in Hm.
        -- exists i. split; [lia|]. split; [lia|done].
Qed.

Lemma finditer_ahead r s x :
  x ∈ starts (Ahead r) s ↔ matches_at r s x.
Proof.
  unfold starts, finditer, matches_at. rewrite finditer_go_ahead. split.
  - intros (i & -> & ? & ?). done.
  - intros [? ?]. by exists x.
Qed.

Lemma find_app_list {A} (p : A → bool) (l1 l2 : list A) :
  List.find p (l1 ++ l2) =
  match List.find p l1 with Some x => Some x | None => List.find p l2 end.
Proof. induction l1 as [|a l1 IH]; simpl; [done|]. by destruct (p a). Qed.

(** Scanning an increasing list backward stops at the greatest element
    that passes the test. *)
Lemma find_rev_ascending (p : nat → bool) lo l :
  ascending lo l →
  match List.find p (rev l) with
  | Some x => p x = true ∧ x ∈ l ∧ ∀ y, y ∈ l → p y = true → y ≤ x
  | None => ∀ y, y ∈ l → p y = false
  end.
Proof.
  revert lo; induction l as [|a l IH]; intros lo Hasc; simpl.
  - by intros y ?%elem_of_nil.
  - destruct Hasc as [Hlo Hasc]. specialize (IH _ Hasc).
    rewrite find_app_list. destruct (List.find p (rev l)) as [x|].
    + destruct IH as (Hp & Hx & Hmax). split; [done|]. split; [by right|].
      intros y [->|Hy]%elem_of_cons Hpy; [|by apply Hmax].
      pose proof (ascending_lower _ _ _ Hasc Hx). lia.
    + simpl. destruct (p a) eqn:Hpa.
      * split; [done|]. split; [by left|].
        intros y [->|Hy]%elem_of_cons Hpy; [done|].
        rewrite (IH y Hy) in Hpy. done.
      * intros y [->|Hy]%elem_of_cons; [done | by apply IH].
Qed.

End ScanFacts.

Module SplitClaims.

Import Chunker ChunkerSpec ScanFacts.

(** C7, as stated, fails: with a budget of 30 the text [two_markers] has
    a "Now from" marker at offset 29 and an "Alright gang" marker at
    offset 16, both in the window between 15 and 30; the nearest to the
    budget boundary is the one at 29, and the chunker splits at 16. *)
Lemma split_point_not_nearest :
  (30 < len two_markers)%Z
  ∧ window_matches 30 two_markers = [29; 16]
  ∧ nearest_marker 30 two_markers = 29%Z
  ∧ split_point 30 two_markers = 16%Z
  ∧ split_point 30 two_markers ≠ nearest_marker 30 two_markers.
Proof. vm_compute. repeat split; try reflexivity; discriminate. Qed.

Lemma fold_keep {A} (f : Z → A → Z) (l : list A) (best : Z) :
  (∀ x, x ∈ l → f best x = best) → fold_left f l best = best.
Proof.
  induction l as [|x l IH]; simpl; [done|]. intros Hkeep.
  rewrite Hkeep by left. apply IH. intros y Hy. apply Hkeep. by right.
Qed.

(** C7, amended: each marker pattern is scanned backward from the budget
    boundary for its nearest match in the window (offset strictly between
    half the budget and the budget); of the patterns that have such a
    match, the last one in the list of markers decides the split, at its
    nearest match; only when no pattern has a match in the window is the
    split made exactly at the budget boundary. *)
Theorem split_point_last_marker (max_chars : Z) (remaining : string) :
  let window := Str.slice_to (max_chars + 5000) remaining in
  let nearest := marker_split max_chars window in
  ((∀ m, m ∈ markers → nearest m = None) →
     split_point max_chars remaining = max_chars)
  ∧ (∀ before m after s,
       markers = before ++ m :: after → nearest m = Some s →
       (∀ m', m' ∈ after → nearest m' = None) →
       split_point max_chars remaining = Z.of_nat s)
  ∧ (∀ m,
       match nearest m with
       | Some s =>
           in_window max_chars s = true ∧ s ∈ starts m window ∧
           ∀ s', s' ∈ starts m window → in_window max_chars s' = true → s' ≤ s
       | None => ∀ s', s' ∈ starts m window → in_window max_chars s' = false
       end).
Proof.
  intros window nearest. split; [|split].
  - intros Hnone. unfold split_point. apply fold_keep.
    intros m Hm. fold window. fold (nearest m). by rewrite Hnone.
  - intros before m after s Hsplit Hs Hafter. unfold split_point.
    fold window. rewrite Hsplit, fold_left_app. simpl.
    fold (nearest m). rewrite Hs. apply fold_keep.
    intros m' Hm'. fold (nearest m'). by rewrite Hafter.
  - intros m. unfold nearest, marker_split.
    apply (find_rev_ascending (in_window max_chars) 0), finditer_ascending.
Qed.

Lemma split_point_last_marker_witness :
  split_point 30 two_markers = 16%Z.
Proof.
  refine (proj1 (proj2 (split_point_last_marker 30 two_markers))
            [nth 0 markers Re.Eps] (nth 1 markers Re.Eps) [nth 2 markers Re.Eps] 16 _ _ _).
  - reflexivity.
  - vm_compute. reflexivity.
  - intros m' Hm'. apply list_elem_of_singleton in Hm' as ->. vm_compute. reflexivity.
Defined.

End SplitClaims.

(** ** The extractor *)

Module ExtractorClaims.

Import Extractor.

Section Loop.

Context {W : Type}.
Variable _llm_call : W → string → string → string → string → W * (raised + string).
Variable json_loads : string → string + json.
Variable str : json → string.
Variable str_exn : exn → string.
Variable PARSE_SYSTEM_PROMPT : string.
Variable _resolve_timestamps : option (list call → raised + list call).
Variables model_name provider : string.
Variable ep : episode.

Local Abbreviation turn :=
  (process_chunk _llm_call json_loads str str_exn PARSE_SYSTEM_PROMPT
                 _resolve_timestamps model_name provider ep).
Local Abbreviation turns :=
  (process_chunks _llm_call json_loads str str_exn PARSE_SYSTEM_PROMPT
                  _resolve_timestamps model_name provider ep).

Lemma process_chunks_app st earlier later :
  turns st (earlier ++ later) = turns (turns st earlier) later.
Proof. unfold process_chunks. apply foldl_app. Qed.

(** C9: a chunk whose answer does not decode is skipped, and the
    session goes on. When the backend answers [raw] for a chunk and
    [json.loads] raises a decode error on it, the turn of the loop for
    that chunk adds no record to [episode_calls], logs one line that
    names the episode (the first 50 characters of its name) and carries
    the text of the error, sleeps the 1.5 seconds that end every turn,
    and the loop goes on with the chunks that follow. *)
Theorem decode_error_skips_chunk (st0 : state) (earlier : list string)
    (chunk : string) (later : list string) (w : W) (raw msg : string) :
  let st := turns st0 earlier in
  _llm_call (world st) model_name PARSE_SYSTEM_PROMPT (user_content str ep chunk) provider
    = (w, inr raw) →
  json_loads (strip_fence raw) = inl msg →
  let st' := turn st chunk in
  episode_calls st' = episode_calls st
  ∧ trace st' = trace st ++
      [LogError (Str.concat ["JSON error for "; Str.take 50 (ep_name ep); ": "; msg]);
       Sleep 1500]
  ∧ world st' = w
  ∧ turns st0 (earlier ++ chunk :: later) = turns st' later.
Proof.
  intros st Hanswer Hloads st'.
  assert (Hturn : st' = State w (episode_calls st)
            (trace st ++
               [LogError (Str.concat ["JSON error for "; Str.take 50 (ep_name ep); ": "; msg]);
                Sleep 1500])).
  { unfold st', process_chunk. rewrite Hanswer. unfold decode. rewrite Hloads.
    unfold emit. simpl. by rewrite <- app_assoc. }
  rewrite Hturn. simpl. repeat split.
  rewrite process_chunks_app. fold st. simpl. fold st'. by rewrite Hturn.
Qed.

End Loop.

(** A session of three chunks whose second answer is not JSON. *)
Lemma decode_error_skips_chunk_witness :
  let backend (w : nat) (_ _ content _ : string) : nat * (raised + string) :=
    (S w, inr (if Str.contains "second" content then "I cannot help" else "[]")) in
  let loads (raw : string) : string + json :=
    if String.eqb raw "[]" then inr (JArr []) else inl "Expecting value" in
  let ep := Episode "Episode 12" "2024-01-01" None None in
  let run := process_chunks backend loads (fun _ => "") (fun _ => "") "" None "m" "p" ep in
  let st := run (State 0 [] []) ["first"] in
  let st' := process_chunk backend loads (fun _ => "") (fun _ => "") "" None "m" "p" ep
               st "second" in
  episode_calls st' = episode_calls st
  ∧ trace st' = trace st ++ [LogError "JSON error for Episode 12: Expecting value"; Sleep 1500]
  ∧ world st' = 2
  ∧ run (State 0 [] []) (["first"] ++ "second" :: ["third"]) = run st' ["third"].
Proof.
  intros backend loads ep run st st'.
  apply (decode_error_skips_chunk backend loads (fun _ => "") (fun _ => "") "" None "m" "p" ep
           (State 0 [] []) ["first"] "second" ["third"] 2 "I cannot help" "Expecting value");
    vm_compute; reflexivity.
Defined.

End ExtractorClaims.

(** ** The matcher finds only what the pattern allows *)

Module ReFacts.

Import Re ReSpec.

Lemma run_spec p w st st' :
  run p w st = Some st' →
  rest st = w +:+ rest st' ∧ pos st' = pos st + String.length w
  ∧ caps st' = caps st ∧ Str.all p w = true.
Proof.
  revert st; induction w as [|a w IH]; intros st; simpl.
  - intros [= <-]. rewrite Nat.add_0_r. done.
  - destruct (rest st) as [|c t] eqn:Hrest; [done|].
    destruct (Ascii.eqb a c) eqn:Hac; [|done]. apply Ascii.eqb_eq in Hac as <-.
    destruct (p a) eqn:Hp; [|done]. simpl. intros Hrun.
    apply IH in Hrun as (Hr & Hp' & Hc & Hall). simpl in *.
    rewrite app_cons, <- Hr, Hp', Hc. unfold Str.all in *. simpl. rewrite Hp, Hall.
    repeat split; lia.
Qed.

Lemma eat_run l st : eat l st = run (fun _ => true) l st.
Proof.
  revert st; induction l as [|a l IH]; intros st; simpl; [done|].
  destruct (rest st) as [|c t]; [done|]. rewrite andb_true_r.
  destruct (Ascii.eqb a c); [apply IH | done].
Qed.

Lemma eat_spec l st st' :
  eat l st = Some st' →
  rest st = l +:+ rest st' ∧ pos st' = pos st + String.length l ∧ caps st' = caps st.
Proof. rewrite eat_run. intros H%run_spec. tauto. Qed.

(** Greedy repetition stops after some run of the class. *)
Lemma rep_sound p lo hi n s ps pv cs k out :
  rep p lo hi n s ps pv cs k = Some out →
  ∃ w st', run p w (MSt ps pv s cs) = Some st'
           ∧ lo ≤ n + String.length w
           ∧ (∀ h, hi = Some h → w = "" ∨ n + String.length w ≤ h)
           ∧ k st' = Some out.
Proof.
  revert n ps pv; induction s as [|c t IH]; intros n ps pv.
  - simpl. destruct (Nat.leb_spec lo n); [|done]. intros Hk.
    exists "", (MSt ps pv "" cs). simpl. repeat split; [lia | by left | done].
  - simpl.
    assert (Hstop : (if lo <=? n then k (MSt ps pv (String c t) cs) else None) = Some out →
      ∃ w st', run p w (MSt ps pv (String c t) cs) = Some st'
               ∧ lo ≤ n + String.length w
               ∧ (∀ h, hi = Some h → w = "" ∨ n + String.length w ≤ h)
               ∧ k st' = Some out).
    { destruct (Nat.leb_spec lo n); [|done]. intros Hk.
      exists "", (MSt ps pv (String c t) cs). simpl. repeat split; [lia | by left | done]. }
    destruct (p c && below n hi) eqn:Hgo; [|done].
    apply andb_true_iff in Hgo as [Hpc Hbelow].
    destruct (rep p lo hi (S n) t (S ps) (Some c) cs k) as [r|] eqn:Hrep; [|done].
    intros [= ->]. apply IH in Hrep as (w & st' & Hrun & Hlo & Hhi & Hk).
    exists (String c w), st'. simpl. rewrite Ascii.eqb_refl, Hpc. simpl.
    split; [done|]. split; [lia|]. split; [|done].
    intros h Hh. right. destruct (Hhi h Hh) as [->|?]; [|lia].
    subst hi. simpl in Hbelow. apply Nat.ltb_lt in Hbelow. simpl. lia.
Qed.

(** Soundness: a success of the matcher is a match of the pattern,
    followed by a success of the continuation. *)
Theorem rx_sound r st k out :
  rx r st k = Some out → ∃ st', rmatch r st st' ∧ k st' = Some out.
Proof.
  revert st k out; induction r as [|l|p|r1 IH1 r2 IH2|r1 IH1 r2 IH2|p lo hi|n r IH| | | |r IH];
    intros st k out; simpl.
  - intros Hk. exists st. split; [constructor | done].
  - destruct (eat l st) as [st'|] eqn:Heat; [|done]. intros Hk.
    exists st'. split; [by constructor | done].
  - destruct (rest st) as [|c t] eqn:Hrest; [done|].
    destruct (p c) eqn:Hp; [|done]. intros Hk.
    eexists. split; [by econstructor | done].
  - intros H. apply IH1 in H as (st1 & H1 & H). apply IH2 in H as (st2 & H2 & H).
    exists st2. split; [by econstructor | done].
  - destruct (rx r1 st k) as [o|] eqn:H1.
    + intros [= ->]. apply IH1 in H1 as (st' & H1 & Hk).
      exists st'. split; [by apply M_AltL | done].
    + intros H2. apply IH2 in H2 as (st' & H2 & Hk).
      exists st'. split; [by apply M_AltR | done].
  - intros H. apply rep_sound in H as (w & st' & Hrun & Hlo & Hhi & Hk).
    exists st'. split; [|done]. destruct st as [ps pv s cs]. simpl in *.
    apply (M_Rep p lo hi w); [done | done |].
    intros h Hh. destruct (Hhi h Hh) as [->|?]; simpl; lia.
  - intros H. apply IH in H as (st' & H & Hk).
    eexists. split; [by constructor | done].
  - destruct (Nat.eqb_spec (pos st) 0); [|done]. intros Hk.
    exists st. split; [by constructor | done].
  - destruct (at_eol (rest st)) eqn:He; [|done]. intros Hk.
    exists st. split; [by constructor | done].
  - destruct (xorb _ _) eqn:Hx; [|done]. intros Hk.
    exists st. split; [by constructor | done].
  - destruct (rx r st Some) as [st'|] eqn:H; [|done]. intros Hk.
    apply IH in H as (st'' & H & _). exists st. split; [by econstructor | done].
Qed.

(** A match reads a stretch of the text and only adds groups. *)
Lemma rmatch_reads r st st' :
  rmatch r st st' →
  ∃ w, rest st = w +:+ rest st' ∧ pos st' = pos st + String.length w.
Proof.
  induction 1 as [st|l st st' Heat|p st c t Hrest Hp|r1 r2 st1 st2 st3 _ IH1 _ IH2
                 |r1 r2 st st' _ IH|r1 r2 st st' _ IH|p lo hi w st st' Hrun _ _
                 |n r st st' _ IH|st _|st _|st _|r st st' _ _].
  - exists "". rewrite Nat.add_0_r. done.
  - exists l. apply eat_spec in Heat. tauto.
  - exists (String c ""). simpl. rewrite Hrest. split; [done | lia].
  - destruct IH1 as (w1 & Hr1 & Hp1), IH2 as (w2 & Hr2 & Hp2).
    exists (w1 +:+ w2). rewrite app_assoc_str, <- Hr2, <- Hr1, length_app_str. split; [done | lia].
  - done.
  - done.
  - exists w. apply run_spec in Hrun. tauto.
  - destruct IH as (w & Hr & Hp). by exists w.
  - exists "". rewrite Nat.add_0_r. done.
  - exists "". rewrite Nat.add_0_r. done.
  - exists "". rewrite Nat.add_0_r. done.
  - exists "". rewrite Nat.add_0_r. done.
Qed.

Lemma take_app_length w t : Str.take (String.length w) (w +:+ t) = w.
Proof.
  induction w as [|c w IH]; [by destruct t|].
  rewrite app_cons. simpl. by rewrite IH.
Qed.

(** The cases of a match, one by one *)
Lemma rmatch_eps st st' : rmatch Eps st st' → st' = st.
Proof. by inversion 1. Qed.
Lemma rmatch_lit l st st' : rmatch (Lit l) st st' → eat l st = Some st'.
Proof. by inversion 1. Qed.
Lemma rmatch_cat r1 r2 st st' :
  rmatch (Cat r1 r2) st st' → ∃ st1, rmatch r1 st st1 ∧ rmatch r2 st1 st'.
Proof. inversion 1; subst. eauto. Qed.
Lemma rmatch_alt r1 r2 st st' :
  rmatch (Alt r1 r2) st st' → rmatch r1 st st' ∨ rmatch r2 st st'.
Proof. inversion 1; subst; eauto. Qed.
Lemma rmatch_rep p lo hi st st' :
  rmatch (Rep p lo hi) st st' →
  ∃ w, run p w st = Some st' ∧ lo ≤ String.length w
       ∧ (∀ h, hi = Some h → String.length w ≤ h).
Proof. inversion 1; subst. eauto. Qed.
Lemma rmatch_bol st st' : rmatch Bol st st' → pos st = 0 ∧ st' = st.
Proof. by inversion 1. Qed.
Lemma rmatch_eol st st' : rmatch Eol st st' → at_eol (rest st) = true ∧ st' = st.
Proof. by inversion 1. Qed.

Lemma matched_some o : matched o = true → ∃ m, o = Some m.
Proof. destruct o; [eauto | done]. Qed.

End ReFacts.

(** ** Characters and case *)

Module ChrFacts.

Ltac by_cases c :=
  destruct c as [[] [] [] [] [] [] [] []]; try reflexivity; try discriminate.

Lemma lower_lower_chr c : Chr.lower (Chr.lower c) = Chr.lower c.
Proof. by_cases c. Qed.
Lemma upper_upper c : Chr.upper (Chr.upper c) = Chr.upper c.
Proof. by_cases c. Qed.
Lemma upper_lower c : Chr.upper (Chr.lower c) = Chr.upper c.
Proof. by_cases c. Qed.
Lemma lower_upper c : Chr.lower (Chr.upper c) = Chr.lower c.
Proof. by_cases c. Qed.
Lemma is_alpha_lower c : Chr.is_alpha (Chr.lower c) = Chr.is_alpha c.
Proof. by_cases c. Qed.
Lemma is_alpha_upper c : Chr.is_alpha (Chr.upper c) = Chr.is_alpha c.
Proof. by_cases c. Qed.
Lemma is_space_lower c : Chr.is_space (Chr.lower c) = Chr.is_space c.
Proof. by_cases c. Qed.
Lemma is_space_upper c : Chr.is_space (Chr.upper c) = Chr.is_space c.
Proof. by_cases c. Qed.
Lemma digit_not_space c : Chr.is_digit c = true → Chr.is_space c = false.
Proof. by_cases c. Qed.
Lemma digit_lower c : Chr.is_digit c = true → Chr.lower c = c.
Proof. by_cases c. Qed.
Lemma digit_not_colon c : Chr.is_digit c = true → Ascii.eqb c ":" = false.
Proof. by_cases c. Qed.
Lemma digit_val_lt c : Chr.is_digit c = true → Chr.digit_val c < 10.
Proof. by_cases c; intros _; vm_compute; lia. Qed.
Lemma digit_of_val c :
  Chr.is_digit c = true → c = ascii_of_nat (48 + Chr.digit_val c).
Proof. by_cases c. Qed.

End ChrFacts.

(** ** Case, title case and white space on strings *)

Module StrFacts.

Import StrSpec ChrFacts.

Lemma length_map f s : String.length (Str.map f s) = String.length s.
Proof. induction s as [|c s IH]; simpl; [done | by rewrite IH]. Qed.

Lemma lower_lower s : Str.lower (Str.lower s) = Str.lower s.
Proof.
  unfold Str.lower. induction s as [|c s IH]; simpl; [done|].
  by rewrite lower_lower_chr, IH.
Qed.

Lemma upper_title_go b s : Str.upper (Str.title_go b s) = Str.upper s.
Proof.
  unfold Str.upper. revert b; induction s as [|c s IH]; intros b; simpl; [done|].
  rewrite IH. by destruct b; rewrite ?upper_lower, ?upper_upper.
Qed.

Lemma lower_title_go b s : Str.lower (Str.title_go b s) = Str.lower s.
Proof.
  unfold Str.lower. revert b; induction s as [|c s IH]; intros b; simpl; [done|].
  rewrite IH. by destruct b; rewrite ?lower_lower_chr, ?lower_upper.
Qed.

Lemma title_go_idem b s : Str.title_go b (Str.title_go b s) = Str.title_go b s.
Proof.
  revert b; induction s as [|c s IH]; intros b; simpl; [done|].
  destruct b.
  - by rewrite lower_lower_chr, is_alpha_lower, IH.
  - by rewrite upper_upper, is_alpha_upper, IH.
Qed.

Lemma head_lstrip s : head_space (Str.lstrip s) = false.
Proof.
  induction s as [|c s IH]; simpl; [done|].
  destruct (Chr.is_space c) eqn:Hc; [done | by simpl].
Qed.

Lemma lstrip_fix s : head_space s = false → Str.lstrip s = s.
Proof. destruct s as [|c s]; simpl; [done|]. by intros ->. Qed.

Lemma last_rstrip s : last_space (Str.rstrip s) = false.
Proof.
  induction s as [|c s IH]; simpl; [done|].
  destruct (Chr.is_space c && Str.is_empty (Str.rstrip s)) eqn:Hc; [done|].
  simpl. destruct (Str.rstrip s) as [|c' s'] eqn:Hr; [|done].
  simpl in Hc. by rewrite andb_true_r in Hc.
Qed.

Lemma rstrip_fix s : last_space s = false → Str.rstrip s = s.
Proof.
  induction s as [|c s IH]; [done|]. intros Hlast.
  destruct s as [|c' s'].
  - simpl in *. by rewrite Hlast.
  - change (last_space (String c (String c' s'))) with (last_space (String c' s')) in Hlast.
    change (Str.rstrip (String c (String c' s')))
      with (let t' := Str.rstrip (String c' s') in
            if Chr.is_space c && Str.is_empty t' then EmptyString else String c t').
    rewrite (IH Hlast). simpl. by rewrite andb_false_r.
Qed.

Lemma head_rstrip s : head_space s = false → head_space (Str.rstrip s) = false.
Proof.
  destruct s as [|c s]; simpl; [done|]. intros Hc. rewrite Hc. simpl. exact Hc.
Qed.

Lemma strip_head s : head_space (Str.strip s) = false.
Proof. apply head_rstrip, head_lstrip. Qed.

Lemma strip_last s : last_space (Str.strip s) = false.
Proof. apply last_rstrip. Qed.

Lemma strip_fix s : head_space s = false → last_space s = false → Str.strip s = s.
Proof. intros Hh Hl. unfold Str.strip. by rewrite (lstrip_fix _ Hh), (rstrip_fix _ Hl). Qed.

Lemma strip_strip s : Str.strip (Str.strip s) = Str.strip s.
Proof. apply strip_fix; [apply strip_head | apply strip_last]. Qed.

Lemma head_title_go b s : head_space (Str.title_go b s) = head_space s.
Proof. destruct s as [|c s]; simpl; [done|]. by destruct b; rewrite ?is_space_lower, ?is_space_upper. Qed.

Lemma last_title_go b s : last_space (Str.title_go b s) = last_space s.
Proof.
  revert b; induction s as [|c s IH]; intros b; [done|].
  destruct s as [|c' s'].
  - simpl. by destruct b; rewrite ?is_space_lower, ?is_space_upper.
  - change (last_space (String c (String c' s'))) with (last_space (String c' s')).
    rewrite <- (IH (Chr.is_alpha c)). done.
Qed.

Lemma strip_title s :
  Str.strip (Str.title (Str.strip s)) = Str.title (Str.strip s).
Proof.
  apply strip_fix; unfold Str.title.
  - rewrite head_title_go. apply strip_head.
  - rewrite last_title_go. apply strip_last.
Qed.

Lemma lstrip_map f s :
  (∀ c, Chr.is_space (f c) = Chr.is_space c) →
  Str.lstrip (Str.map f s) = Str.map f (Str.lstrip s).
Proof.
  intros Hf. induction s as [|c s IH]; simpl; [done|].
  rewrite Hf. by destruct (Chr.is_space c).
Qed.

Lemma rstrip_map f s :
  (∀ c, Chr.is_space (f c) = Chr.is_space c) →
  Str.rstrip (Str.map f s) = Str.map f (Str.rstrip s).
Proof.
  intros Hf. induction s as [|c s IH]; simpl; [done|].
  rewrite Hf, IH. destruct (Str.rstrip s); simpl; by destruct (Chr.is_space c).
Qed.

Lemma strip_lower s : Str.strip (Str.lower s) = Str.lower (Str.strip s).
Proof.
  unfold Str.strip, Str.lower.
  by rewrite lstrip_map, rstrip_map by apply is_space_lower.
Qed.

Lemma eqb_refl_str s : String.eqb s s = true.
Proof. by apply String.eqb_eq. Qed.

Lemma mem_spec x l : Str.mem x l = true ↔ x ∈ l.
Proof.
  unfold Str.mem. rewrite existsb_exists. split.
  - intros (y & Hy & Heq). apply String.eqb_eq in Heq as ->. by apply list_elem_of_In.
  - intros Hx. exists x. split; [by apply list_elem_of_In | apply eqb_refl_str].
Qed.

Lemma assoc_spec k d v : Str.assoc k d = Some v → (k, v) ∈ d.
Proof.
  induction d as [|[k' v'] d IH]; simpl; [done|].
  destruct (String.eqb_spec k k') as [->|].
  - intros [= ->]. by left.
  - intros H. right. by apply IH.
Qed.

End StrFacts.

(** ** The sanitizer, rule by rule *)

Module SanitizerFacts.

Import Sanitizer SanitizerSpec StrFacts.

Ltac unfold_bind := unfold mbind, result_bind, bind, mret, result_ret in *.

(** The tables are looked into by computation only. *)
Global Arguments VALID_ENTITY_LABELS : simpl never.
Global Arguments VALID_TONES : simpl never.
Global Arguments STATE_ABBREV_TO_FULL : simpl never.
Global Arguments STATE_ALIASES : simpl never.
Global Arguments TIME_WORD_MAP : simpl never.
Global Arguments US_REGIONS : simpl never.
Global Arguments NULL_STRINGS : simpl never.
Global Arguments tone_map : simpl never.
Global Arguments Str.mem : simpl never.
Global Arguments Str.assoc : simpl never.

(** *** Each rule writes one field *)

Lemma get_lookup c k v : c !! k = Some v → Py.get c k = v.
Proof. unfold Py.get. by intros ->. Qed.

Lemma get_str c k s : Py.get c k = JStr s ↔ c !! k = Some (JStr s).
Proof.
  unfold Py.get. destruct (c !! k) as [v|]; simpl; [|done].
  split; [by intros -> | by intros [= ->]].
Qed.

Lemma get_other (c c' : call) k :
  c' !! k = c !! k → Py.get c' k = Py.get c k.
Proof. unfold Py.get. by intros ->. Qed.

Lemma null_step_other c key k : k ≠ key → null_step c key !! k = c !! k.
Proof.
  intros. unfold null_step. repeat case_match; rewrite ?lookup_insert_ne; done.
Qed.

Lemma nulls_other_gen keys c k :
  Forall (fun key => k ≠ key) keys → foldl null_step c keys !! k = c !! k.
Proof.
  revert c; induction keys as [|key keys IH]; intros c Hk; simpl; [done|].
  inversion Hk; subst. rewrite IH by done. by apply null_step_other.
Qed.

Lemma normalize_nulls_other c k : k ∉ null_keys → normalize_nulls c !! k = c !! k.
Proof.
  intros Hk. apply nulls_other_gen, Forall_forall. intros key Hkey ->.
  apply Hk. by apply list_elem_of_In.
Qed.

Lemma normalize_name_other c k : k ≠ "caller_name" → normalize_name c !! k = c !! k.
Proof. intros. unfold normalize_name. repeat case_match; rewrite ?lookup_insert_ne; done. Qed.

Lemma normalize_state_other c k : k ≠ "state_or_region" → normalize_state c !! k = c !! k.
Proof. intros. unfold normalize_state. repeat case_match; rewrite ?lookup_insert_ne; done. Qed.

Lemma force_country_other c c' k :
  force_country c = Ok c' → k ≠ "country" → c' !! k = c !! k.
Proof.
  unfold force_country. unfold_bind. intros H Hk.
  repeat case_match; simplify_eq; rewrite ?lookup_insert_ne; done.
Qed.

Lemma validate_call_type_other c c' k :
  validate_call_type c = Ok c' → k ≠ "call_type" → c' !! k = c !! k.
Proof.
  unfold validate_call_type. unfold_bind. intros H Hk.
  repeat case_match; simplify_eq; rewrite ?lookup_insert_ne; done.
Qed.

Lemma validate_secondary_other c c' k :
  validate_secondary c = Ok c' → k ≠ "call_type_secondary" → c' !! k = c !! k.
Proof.
  unfold validate_secondary. unfold_bind. intros H Hk.
  repeat case_match; simplify_eq; rewrite ?lookup_insert_ne; done.
Qed.

Lemma normalize_date_other c k : k ≠ "date_of_event" → normalize_date c !! k = c !! k.
Proof. intros. unfold normalize_date. repeat case_match; rewrite ?lookup_insert_ne; done. Qed.

Lemma normalize_time_other c k : k ≠ "time_of_event" → normalize_time c !! k = c !! k.
Proof. intros. unfold normalize_time. repeat case_match; rewrite ?lookup_insert_ne; done. Qed.

Lemma normalize_witnesses_other c k :
  k ≠ "involves_other_witnesses" → normalize_witnesses c !! k = c !! k.
Proof. intros. unfold normalize_witnesses. repeat case_match; rewrite ?lookup_insert_ne; done. Qed.

Lemma normalize_tone_other c k :
  k ≠ "caller_emotional_tone" → normalize_tone c !! k = c !! k.
Proof. intros. unfold normalize_tone. by rewrite lookup_insert_ne. Qed.

(** The run of the sanitizer, taken apart *)
Lemma sanitize_inv c c' :
  _sanitize_call c = Ok c' →
  ∃ c1 c2 c3,
    force_country (normalize_state (normalize_name (normalize_nulls c))) = Ok c1
    ∧ validate_call_type c1 = Ok c2
    ∧ validate_secondary c2 = Ok c3
    ∧ c' = normalize_tone (normalize_witnesses (normalize_time (normalize_date c3))).
Proof.
  unfold _sanitize_call. unfold_bind.
  destruct (force_country _) as [c1|] eqn:H1; [|done].
  destruct (validate_call_type c1) as [c2|] eqn:H2; [|done].
  destruct (validate_secondary c2) as [c3|] eqn:H3; [|done].
  intros [= <-]. by exists c1, c2, c3.
Qed.

(** A field outside [sanitized_keys] is left as it is. *)
Lemma sanitize_other c c' k :
  _sanitize_call c = Ok c' → k ∉ sanitized_keys → c' !! k = c !! k.
Proof.
  intros (c1 & c2 & c3 & H1 & H2 & H3 & ->)%sanitize_inv Hk.
  unfold sanitized_keys in Hk. rewrite elem_of_app in Hk.
  assert (k ∉ null_keys) by tauto.
  assert (k ∉ ["caller_name"; "call_type"; "involves_other_witnesses";
               "caller_emotional_tone"]) as Hk' by tauto.
  rewrite !not_elem_of_cons in Hk'. destruct Hk' as (? & ? & ? & ? & _).
  assert (k ≠ "state_or_region" ∧ k ≠ "country" ∧ k ≠ "call_type_secondary"
          ∧ k ≠ "date_of_event" ∧ k ≠ "time_of_event") as (? & ? & ? & ? & ?).
  { repeat split; intros ->; apply H; unfold null_keys; rewrite !elem_of_cons; tauto. }
  rewrite normalize_tone_other, normalize_witnesses_other, normalize_time_other,
    normalize_date_other by done.
  rewrite (validate_secondary_other _ _ _ H3), (validate_call_type_other _ _ _ H2),
    (force_country_other _ _ _ H1) by done.
  rewrite normalize_state_other, normalize_name_other, normalize_nulls_other by done.
  done.
Qed.

End SanitizerFacts.

(** ** The category field *)

Module CallTypeFacts.

Import Sanitizer SanitizerSpec StrFacts SanitizerFacts.

(** On a string the loop over the labels is a search of the vocabulary. *)
Lemma find_label_str s labels :
  find_label (JStr s) labels =
  Ok (List.find (fun label => String.eqb (Str.lower label) (Str.lower s)) labels).
Proof.
  induction labels as [|label labels IH]; simpl; [done|].
  unfold_bind. by destruct (String.eqb _ _).
Qed.

(** On any other value its first turn raises. *)
Lemma find_label_raises v label labels :
  (∀ s, v ≠ JStr s) → find_label v (label :: labels) = Raise AttributeError.
Proof. intros Hv. destruct v; simpl; try done. by destruct (Hv s). Qed.

Lemma canonical_label_spec s l :
  canonical_label s = Some l → l ∈ VALID_ENTITY_LABELS ∧ Str.lower l = Str.lower s.
Proof.
  unfold canonical_label. intros [Hin Heq]%find_some.
  split; [by apply list_elem_of_In | by apply String.eqb_eq].
Qed.

Lemma canonical_label_none s l :
  canonical_label s = None → l ∈ VALID_ENTITY_LABELS → Str.lower l ≠ Str.lower s.
Proof.
  unfold canonical_label. intros Hnone Hl Heq.
  apply list_elem_of_In in Hl. pose proof (find_none _ _ Hnone _ Hl) as Hf.
  simpl in Hf. rewrite Heq, eqb_refl_str in Hf. done.
Qed.

(** No two labels of the vocabulary are equal up to case: the order in
    which the set is iterated does not matter. *)
Lemma labels_distinct_up_to_case l l' :
  l ∈ VALID_ENTITY_LABELS → l' ∈ VALID_ENTITY_LABELS →
  Str.lower l = Str.lower l' → l = l'.
Proof.
  assert (Hall : forallb (fun a => forallb (fun b =>
            implb (String.eqb (Str.lower a) (Str.lower b)) (String.eqb a b))
            VALID_ENTITY_LABELS) VALID_ENTITY_LABELS = true) by (vm_compute; reflexivity).
  intros Hl Hl' Heq. rewrite forallb_forall in Hall.
  specialize (Hall l ltac:(by apply list_elem_of_In)). rewrite forallb_forall in Hall.
  specialize (Hall l' ltac:(by apply list_elem_of_In)).
  rewrite Heq, eqb_refl_str in Hall. simpl in Hall. by apply String.eqb_eq.
Qed.

(** [VALID_ENTITY_LABELS] is a set, iterated in an order the source does
    not fix: whatever the order, the loop finds the same label. *)
Lemma canonical_label_any_order s labels :
  labels ≡ₚ VALID_ENTITY_LABELS →
  List.find (fun label => String.eqb (Str.lower label) (Str.lower s)) labels
  = canonical_label s.
Proof.
  intros Hperm.
  destruct (List.find _ labels) as [l|] eqn:Hl;
    destruct (canonical_label s) as [l0|] eqn:Hl0; try done.
  - apply find_some in Hl as [Hin%list_elem_of_In Heq%String.eqb_eq].
    apply canonical_label_spec in Hl0 as [Hin0 Heq0].
    f_equal. apply labels_distinct_up_to_case; [by rewrite <- Hperm | done | congruence].
  - apply find_some in Hl as [Hin%list_elem_of_In Heq%String.eqb_eq].
    rewrite Hperm in Hin. by destruct (canonical_label_none s l Hl0 Hin).
  - apply canonical_label_spec in Hl0 as [Hin0 Heq0]. rewrite <- Hperm in Hin0.
    apply list_elem_of_In in Hin0. pose proof (find_none _ _ Hl _ Hin0) as Hf.
    simpl in Hf. by rewrite Heq0, eqb_refl_str in Hf.
Qed.


(** What the category rule leaves in the field *)
Lemma validate_call_type_inv c c' :
  validate_call_type c = Ok c' →
  match Py.get c "call_type" with
  | JStr s =>
      if Str.mem s VALID_ENTITY_LABELS then c' = c
      else c' = <["call_type" := JStr (default "Other" (canonical_label s))]> c
  | v => Py.truthy v = false ∧ c' = <["call_type" := JStr "Other"]> c
  end.
Proof.
  assert (Hraise : ∀ v, (∀ s, v ≠ JStr s) →
            find_label v VALID_ENTITY_LABELS = Raise AttributeError).
  { intros v Hv. by apply (find_label_raises v "Bigfoot/Sasquatch"). }
  unfold validate_call_type, Py.or_. unfold_bind.
  destruct (Py.get c "call_type") as [|b|z|f|s|l|m] eqn:Hget;
    try (destruct (Py.truthy _) eqn:Ht;
         [ simpl; simpl in Ht; rewrite ?Ht; simpl; rewrite ?Hraise by done; done
         | simpl; simpl in Ht; rewrite ?Ht; simpl; by intros [= <-] ]).
  destruct s as [|a s]; cbn [Py.truthy Str.is_empty negb Py.in_].
  - assert (Str.mem "" VALID_ENTITY_LABELS = false) as -> by (vm_compute; reflexivity).
    assert (canonical_label "" = None) as -> by (vm_compute; reflexivity).
    cbn [negb default]. by intros [= <-].
  - rewrite find_label_str. fold (canonical_label (String a s)).
    destruct (Str.mem (String a s) VALID_ENTITY_LABELS) eqn:Hmem; cbn [negb];
      [by intros [= <-]|].
    destruct (canonical_label (String a s)); cbn [default]; by intros [= <-].
Qed.

End CallTypeFacts.

Module SanitizerClaims.

Import Sanitizer SanitizerSpec StrFacts SanitizerFacts CallTypeFacts.



(** The three cases of C1 on concrete records *)
Example call_type_exact :
  field_after "call_type" (record [("call_type", JStr "UFO/UAP")])
  = Ok (Some (JStr "UFO/UAP")).
Proof. vm_compute. reflexivity. Qed.
Example call_type_promoted :
  field_after "call_type" (record [("call_type", JStr "ufo/uap")])
  = Ok (Some (JStr "UFO/UAP")).
Proof. vm_compute. reflexivity. Qed.
Example call_type_fallback :
  field_after "call_type" (record [("call_type", JStr "Yeti")]) = Ok (Some (JStr "Other"))
  ∧ field_after "call_type" (record []) = Ok (Some (JStr "Other")).
Proof. vm_compute. split; reflexivity. Qed.

(** C3 fails on the code: a [call_type] that is a number makes the
    sanitizer raise. The category rule calls [ct.lower()] on whatever the
    field holds, where the other rules test [isinstance(., str)] first. *)
Theorem sanitize_raises_on_number :
  _sanitize_call (record [("call_type", JInt 5)]) = Raise AttributeError.
Proof. reflexivity. Qed.

(** The same for a secondary category that is a number, and for a state or
    a category that is a list. *)
Lemma sanitize_raises_more :
  _sanitize_call (record [("call_type_secondary", JInt 5)]) = Raise AttributeError
  ∧ _sanitize_call (record [("state_or_region", JArr [JStr "Ohio"])]) = Raise TypeError
  ∧ _sanitize_call (record [("call_type", JArr [JStr "Dogman"])]) = Raise TypeError.
Proof. repeat split; reflexivity. Qed.

End SanitizerClaims.

(** ** The matcher finds a match whenever there is one *)

Module ReComplete.

Import Re ReSpec ReFacts.

(** Greedy repetition succeeds when the continuation does after some run
    of the class within the bounds. *)
Lemma rep_complete p lo hi w : ∀ n st st' k,
  run p w st = Some st' →
  lo ≤ n + String.length w →
  (∀ h, hi = Some h → n + String.length w ≤ h) →
  is_Some (k st') →
  is_Some (rep p lo hi n (rest st) (pos st) (prev st) (caps st) k).
Proof.
  induction w as [|a w IH]; intros n st st' k Hrun Hlo Hhi Hk.
  - simpl in Hrun. injection Hrun as <-. simpl in Hlo.
    assert (Hstop : is_Some (if lo <=? n then k (MSt (pos st) (prev st) (rest st) (caps st))
                             else None)).
    { destruct (Nat.leb_spec lo n); [|lia]. by destruct st. }
    destruct (rest st) as [|c t] eqn:Hrest; simpl; [done|].
    destruct (p c && below n hi); [|done].
    destruct (rep p lo hi (S n) t _ _ _ k); [by eexists | done].
  - simpl in Hrun. destruct (rest st) as [|c t] eqn:Hrest; [done|].
    destruct (Ascii.eqb a c) eqn:Hac; [|done]. apply Ascii.eqb_eq in Hac as <-.
    destruct (p a) eqn:Hp; [|done]. simpl in Hrun.
    simpl. rewrite Hp.
    assert (Hbelow : below n hi = true).
    { destruct hi as [h|]; [|done]. simpl. apply Nat.ltb_lt.
      specialize (Hhi h eq_refl). simpl in Hhi. lia. }
    rewrite Hbelow. simpl.
    specialize (IH (S n) _ _ k Hrun). simpl in IH.
    destruct IH as [r Hr]; [simpl in *; lia | intros h Hh; specialize (Hhi h Hh); simpl in *; lia | done |].
    rewrite Hr. by eexists.
Qed.

(** Completeness: when the pattern matches from [st] to [st'] and the
    continuation succeeds from [st'], the matcher succeeds. *)
Theorem rx_complete r st st' :
  rmatch r st st' → ∀ k, is_Some (k st') → is_Some (rx r st k).
Proof.
  induction 1 as [st|l st st' Heat|p st c t Hrest Hp|r1 r2 st1 st2 st3 _ IH1 _ IH2
                 |r1 r2 st st' _ IH|r1 r2 st st' _ IH|p lo hi w st st' Hrun Hlo Hhi
                 |n r st st' _ IH|st Hpos|st Heol|st Hwb|r st st' _ IH];
    intros k Hk; simpl.
  - done.
  - by rewrite Heat.
  - by rewrite Hrest, Hp.
  - apply IH1. by apply IH2.
  - destruct (IH k Hk) as [out ->]. by eexists.
  - destruct (rx r1 st k); [by eexists | by apply IH].
  - eapply rep_complete; [done | simpl; lia | | done].
    intros h Hh. specialize (Hhi h Hh). simpl. lia.
  - by apply IH.
  - by rewrite Hpos.
  - by rewrite Heol.
  - by rewrite Hwb.
  - destruct (IH Some) as [out ->]; [by eexists | done].
Qed.

(** A match of [re.match] is a match of the pattern from the start of the
    text, and conversely. *)
Corollary match_iff r s :
  matched (match_ r s) = true ↔ ∃ st', rmatch r (start s) st'.
Proof.
  unfold match_. split.
  - intros [m Hm]%matched_some. apply rx_sound in Hm as (st' & H & _). eauto.
  - intros [st' H]. destruct (rx_complete _ _ _ H Some) as [out ->]; [by eexists | done].
Qed.

(** Reading a run of the class that is there *)
Lemma run_here p w : ∀ ps pv t cs,
  Str.all p w = true →
  ∃ pv', run p w (MSt ps pv (w +:+ t) cs) = Some (MSt (ps + String.length w) pv' t cs).
Proof.
  induction w as [|a w IH]; intros ps pv t cs Hall.
  - exists pv. simpl. by rewrite Nat.add_0_r.
  - unfold Str.all in Hall. simpl in Hall. apply andb_true_iff in Hall as [Ha Hall].
    destruct (IH (S ps) (Some a) t cs Hall) as [pv' Hrun].
    exists pv'. rewrite app_cons. simpl. rewrite Ascii.eqb_refl, Ha. simpl.
    rewrite Hrun. do 2 f_equal. lia.
Qed.

Lemma eat_here l : ∀ ps pv t cs,
  ∃ pv', eat l (MSt ps pv (l +:+ t) cs) = Some (MSt (ps + String.length l) pv' t cs).
Proof.
  intros. rewrite eat_run. by apply run_here, forallb_forall.
Qed.

End ReComplete.

(** ** Clock readings *)

Module ClockFacts.

Import Sanitizer SanitizerSpec StrSpec StrFacts ChrFacts Re ReSpec ReFacts ReComplete.

Lemma at_eol_cases e : at_eol e = true → e = "" ∨ e = String "010" "".
Proof.
  destruct e as [|c [|c' e]]; simpl; [by left | | done].
  intros ->%Ascii.eqb_eq. by right.
Qed.

Lemma rev_app_rev_app a : ∀ b c,
  String.rev_app (String.rev_app a b) c = String.rev_app b (a +:+ c).
Proof.
  induction a as [|x a IH]; intros b c; simpl; [done|].
  by rewrite IH.
Qed.

Lemma rev_rev_app w : String.rev (String.rev_app w "") = w.
Proof. unfold String.rev. rewrite rev_app_rev_app. simpl. apply app_empty_r. Qed.

(** Splitting at a separator that the first part does not contain *)
Lemma split_on_go_plain sep w : ∀ cur t,
  Str.all (fun c => negb (Ascii.eqb c sep)) w = true →
  Str.split_on_go sep cur (w +:+ t) = Str.split_on_go sep (String.rev_app w cur) t.
Proof.
  induction w as [|a w IH]; intros cur t Hall; [done|].
  unfold Str.all in Hall. simpl in Hall. apply andb_true_iff in Hall as [Ha Hall].
  rewrite app_cons. simpl. apply negb_true_iff in Ha. rewrite Ha. by apply IH.
Qed.

Lemma digits_no_colon w :
  Str.all Chr.is_digit w = true → Str.all (fun c => negb (Ascii.eqb c ":")) w = true.
Proof.
  unfold Str.all. induction w as [|a w IH]; simpl; [done|].
  intros [Ha Hw]%andb_true_iff. rewrite (digit_not_colon a Ha). simpl. by apply IH.
Qed.

Lemma split_on_clock h mm :
  Str.all Chr.is_digit h = true → Str.all Chr.is_digit mm = true →
  Str.split_on ":" (h +:+ ":" +:+ mm) = [h; mm].
Proof.
  intros Hh Hm. unfold Str.split_on.
  rewrite split_on_go_plain by by apply digits_no_colon.
  rewrite app_cons. simpl. rewrite rev_rev_app, app_nil_l. f_equal.
  rewrite <- (app_empty_r mm) at 1.
  rewrite (split_on_go_plain ":" mm "" "") by by apply digits_no_colon.
  simpl. by rewrite rev_rev_app.
Qed.

Lemma two_digits_all mm : two_digits mm = true → Str.all Chr.is_digit mm = true ∧ String.length mm = 2.
Proof.
  destruct mm as [|a [|b [|c mm]]]; simpl; try done.
  unfold Str.all. simpl. intros [-> ->]%andb_true_iff. done.
Qed.

Lemma all_two_digits mm : Str.all Chr.is_digit mm = true → String.length mm = 2 → two_digits mm = true.
Proof.
  destruct mm as [|a [|b [|c mm]]]; simpl; try done.
  unfold Str.all. simpl. intros [-> [-> _]%andb_true_iff]%andb_true_iff. done.
Qed.

Lemma int_of_two a b :
  Str.int_of (String a (String b "")) = 10 * Chr.digit_val a + Chr.digit_val b.
Proof. unfold Str.int_of. simpl. lia. Qed.

Lemma int_of_short w :
  Str.all Chr.is_digit w = true → String.length w ≤ 2 → Str.int_of w < 100.
Proof.
  destruct w as [|a [|b [|c w]]]; unfold Str.all; simpl.
  - intros _ _. unfold Str.int_of. simpl. lia.
  - intros [Ha%digit_val_lt _]%andb_true_iff _. unfold Str.int_of. simpl. lia.
  - intros [Ha%digit_val_lt [Hb%digit_val_lt _]%andb_true_iff]%andb_true_iff _.
    rewrite int_of_two. lia.
  - intros _ ?. lia.
Qed.

(** The format [:02d] writes a number below 100 with two digits, and
    reads back as the number. *)
Lemma fmt_02d_two n :
  n < 100 → two_digits (Str.fmt_02d n) = true ∧ Str.int_of (Str.fmt_02d n) = n.
Proof.
  intros Hn.
  assert (Hall : forallb (fun n => two_digits (Str.fmt_02d n)
                                   && (Str.int_of (Str.fmt_02d n) =? n))
                   (List.seq 0 100) = true) by (vm_compute; reflexivity).
  rewrite forallb_forall in Hall.
  specialize (Hall n ltac:(apply in_seq; lia)).
  apply andb_true_iff in Hall as [H1 H2]. by apply Nat.eqb_eq in H2.
Qed.

(** It writes a number from 100 to 111 with three digits. *)
Lemma fmt_02d_three n :
  100 ≤ n < 112 →
  Str.all Chr.is_digit (Str.fmt_02d n) = true ∧ String.length (Str.fmt_02d n) = 3.
Proof.
  intros Hn.
  assert (Hall : forallb (fun n => Str.all Chr.is_digit (Str.fmt_02d (100 + n))
                                   && (String.length (Str.fmt_02d (100 + n)) =? 3))
                   (List.seq 0 12) = true) by (vm_compute; reflexivity).
  rewrite forallb_forall in Hall.
  specialize (Hall (n - 100) ltac:(apply in_seq; lia)).
  replace (100 + (n - 100)) with n in Hall by lia.
  apply andb_true_iff in Hall as [H1 H2]. by apply Nat.eqb_eq in H2.
Qed.

(** What [^\d{1,2}:\d{2}$] matches *)
Lemma hhmm_inv tv m :
  match_ re_hhmm tv = Some m →
  ∃ w1 w2 e, tv = w1 +:+ ":" +:+ w2 +:+ e
    ∧ Str.all Chr.is_digit w1 = true ∧ 1 ≤ String.length w1 ≤ 2
    ∧ two_digits w2 = true ∧ at_eol e = true.
Proof.
  unfold match_. intros (st' & Hm & _)%rx_sound.
  unfold re_hhmm, times in Hm. simpl in Hm.
  apply rmatch_cat in Hm as (s1 & [_ ->]%rmatch_bol & Hm).
  apply rmatch_cat in Hm as (s2 & (w1 & Hr1 & Hlo1 & Hhi1)%rmatch_rep & Hm).
  apply rmatch_cat in Hm as (s3 & Hl%rmatch_lit & Hm).
  apply rmatch_cat in Hm as (s4 & (w2 & Hr2 & Hlo2 & Hhi2)%rmatch_rep & [He ->]%rmatch_eol).
  apply run_spec in Hr1 as (Hr1 & _ & _ & Hd1), Hr2 as (Hr2 & _ & _ & Hd2).
  apply eat_spec in Hl as (Hl & _). simpl in Hr1. unfold d in *.
  exists w1, w2, (rest s4). rewrite Hr1, Hl, Hr2.
  specialize (Hhi1 2 eq_refl). specialize (Hhi2 2 eq_refl).
  repeat split; try done; try lia. apply all_two_digits; [done | lia].
Qed.

Lemma last_space_app a e : e ≠ "" → last_space (a +:+ e) = last_space e.
Proof.
  intros He. induction a as [|c a IH]; [done|].
  rewrite app_cons. destruct (a +:+ e) as [|c' t] eqn:Hae.
  - destruct a; [by destruct e | done].
  - done.
Qed.

Lemma last_space_map f s :
  (∀ c, Chr.is_space (f c) = Chr.is_space c) →
  last_space (Str.map f s) = last_space s.
Proof.
  intros Hf. induction s as [|c s IH]; [done|].
  destruct s as [|c' s']; simpl; [apply Hf|]. apply IH.
Qed.

Lemma head_space_map f s :
  (∀ c, Chr.is_space (f c) = Chr.is_space c) →
  head_space (Str.map f s) = head_space s.
Proof. intros Hf. destruct s; simpl; [done | apply Hf]. Qed.

(** A stripped text that [^\d{1,2}:\d{2}$] matches is a clock reading. *)
Lemma hhmm_clock tv :
  last_space tv = false → matched (match_ re_hhmm tv) = true →
  ∃ h mm, tv = h +:+ ":" +:+ mm ∧ Str.all Chr.is_digit h = true
          ∧ 1 ≤ String.length h ≤ 2 ∧ two_digits mm = true.
Proof.
  intros Hlast [m (w1 & w2 & e & -> & Hd1 & Hl1 & Hd2 & He)%hhmm_inv]%matched_some.
  exists w1, w2. apply at_eol_cases in He as [->| ->].
  - by rewrite app_empty_r.
  - exfalso. rewrite <- !app_assoc_str in Hlast.
    rewrite last_space_app in Hlast by done. done.
Qed.

(** A clock reading is matched by [^\d{1,2}:\d{2}$]. *)
Lemma clock_hhmm h mm :
  Str.all Chr.is_digit h = true → 1 ≤ String.length h ≤ 2 → two_digits mm = true →
  matched (match_ re_hhmm (h +:+ ":" +:+ mm)) = true.
Proof.
  intros Hh Hlen [Hm Hlm]%two_digits_all. apply match_iff.
  destruct (run_here Chr.is_digit h 0 None (":" +:+ mm) [] Hh) as [pv1 H1].
  destruct (eat_here ":" (0 + String.length h) pv1 mm []) as [pv2 H2].
  destruct (run_here Chr.is_digit mm (0 + String.length h + String.length ":") pv2 "" [] Hm)
    as [pv3 H3].
  rewrite app_empty_r in H3.
  eexists. unfold re_hhmm, times, d. simpl.
  eapply M_Cat; [by apply M_Bol|].
  eapply M_Cat; [eapply (M_Rep _ _ _ h); [exact H1 | lia | intros ? [= <-]; lia]|].
  eapply M_Cat; [apply M_Lit; exact H2|].
  eapply M_Cat; [eapply (M_Rep _ _ _ mm); [exact H3 | lia | intros ? [= <-]; lia]|].
  by apply M_Eol.
Qed.

End ClockFacts.

(** ** The time rule *)

Module TimeFacts.

Import Sanitizer SanitizerSpec StrSpec StrFacts ChrFacts Re ReSpec ReFacts ReComplete ClockFacts.

Lemma rmatch_grp_raw n r st st' :
  rmatch (Grp n r) st st' →
  ∃ st1, rmatch r st st1 ∧ st' = set_cap n (Str.take (pos st1 - pos st) (rest st)) st1.
Proof. inversion 1; subst. eauto. Qed.

Lemma run_take p w st st' :
  run p w st = Some st' → Str.take (pos st' - pos st) (rest st) = w ∧ caps st' = caps st.
Proof.
  intros (Hr & Hp & Hc & _)%run_spec. split; [|done].
  rewrite Hr, Hp. replace (pos st + String.length w - pos st) with (String.length w) by lia.
  apply take_app_length.
Qed.

Lemma lit_take l st st' :
  rmatch (Lit l) st st' → Str.take (pos st' - pos st) (rest st) = l ∧ caps st' = caps st.
Proof. intros H%rmatch_lit. rewrite eat_run in H. by apply run_take in H. Qed.

Lemma grp_rep n p lo hi st st' :
  rmatch (Grp n (Rep p lo hi)) st st' →
  ∃ w, Str.all p w = true ∧ lo ≤ String.length w
       ∧ (∀ h, hi = Some h → String.length w ≤ h)
       ∧ caps st' = (n, w) :: caps st.
Proof.
  intros (st1 & (w & Hrun & Hlo & Hhi)%rmatch_rep & ->)%rmatch_grp_raw.
  exists w. pose proof (run_spec _ _ _ _ Hrun) as (_ & _ & _ & Hall).
  apply run_take in Hrun as [-> Hc]. simpl. by rewrite Hc.
Qed.

(** What the 12-hour pattern captures *)
Lemma ampm_inv tv m :
  match_ re_ampm tv = Some m →
  ∃ g1 g3,
    group 1 m = Some g1 ∧ Str.all Chr.is_digit g1 = true ∧ 1 ≤ String.length g1 ≤ 2
    ∧ (group 2 m = None ∨ ∃ g2, group 2 m = Some g2 ∧ two_digits g2 = true)
    ∧ group 3 m = Some g3 ∧ g3 ∈ ["am"; "pm"; "a.m."; "p.m."].
Proof.
  unfold match_. intros (st' & Hm & [= <-])%rx_sound.
  unfold re_ampm, Opt, plus, star, times in Hm. simpl in Hm.
  apply rmatch_cat in Hm as (s1 & Hopt1 & Hm).
  assert (Hc1 : caps s1 = []).
  { apply rmatch_alt in Hopt1 as [(s0 & [_ Ha]%lit_take & (w & Hrun & _)%rmatch_rep)%rmatch_cat
                                 | ->%rmatch_eps]; [|done].
    apply run_take in Hrun as [_ ->]. done. }
  apply rmatch_cat in Hm as (s2 & (g1 & Hd1 & Hlo1 & Hhi1 & Hc2)%grp_rep & Hm).
  rewrite Hc1 in Hc2. specialize (Hhi1 2 eq_refl).
  apply rmatch_cat in Hm as (s3 & Hopt2 & Hm).
  assert (Hc3 : caps s3 = caps s2
                ∨ ∃ g2, two_digits g2 = true ∧ caps s3 = (2, g2) :: caps s2).
  { apply rmatch_alt in Hopt2 as [(s0 & [_ Ha]%lit_take & (g2 & Hd2 & Hlo2 & Hhi2 & Hc)%grp_rep)%rmatch_cat
                                 | ->%rmatch_eps]; [|by left].
    right. exists g2. rewrite Hc, Ha. split; [|done].
    apply all_two_digits; [done|]. specialize (Hhi2 2 eq_refl). lia. }
  apply rmatch_cat in Hm as (s4 & (w & Hrun & _)%rmatch_rep & Hm).
  apply run_take in Hrun as [_ Hc4].
  apply rmatch_grp_raw in Hm as (s5 & Halt & ->).
  assert (Hg3 : ∃ g3, Str.take (pos s5 - pos s4) (rest s4) = g3 ∧ caps s5 = caps s4
                      ∧ g3 ∈ ["am"; "pm"; "a.m."; "p.m."]).
  { apply rmatch_alt in Halt as [[? ?]%lit_take|Halt]; [eexists; repeat split; [done..|(rewrite !elem_of_cons; tauto)]|].
    apply rmatch_alt in Halt as [[? ?]%lit_take|Halt]; [eexists; repeat split; [done..|(rewrite !elem_of_cons; tauto)]|].
    apply rmatch_alt in Halt as [[? ?]%lit_take|[? ?]%lit_take];
      eexists; repeat split; try done; (rewrite !elem_of_cons; tauto). }
  destruct Hg3 as (g3 & -> & Hc5 & Hin).
  exists g1, g3. unfold group. simpl. rewrite Hc5, Hc4.
  destruct Hc3 as [-> | (g2 & Hd2 & ->)]; rewrite Hc2; simpl.
  - repeat split; try done; try lia. by left.
  - repeat split; try done; try lia. right. by exists g2.
Qed.

(** The table of time words holds valid times, which the rule maps to
    themselves. *)
Lemma time_words_valid t :
  t ∈ TIME_WORD_MAP.*2 →
  valid_hhmm t = true ∧ clock_shape t = true ∧ null_like t = false
  ∧ time_value t = JStr t.
Proof.
  assert (Hall : forallb (fun t => valid_hhmm t && clock_shape t && negb (null_like t)
                    && match time_value t with JStr t' => String.eqb t t' | _ => false end)
                   TIME_WORD_MAP.*2 = true) by (vm_compute; reflexivity).
  rewrite forallb_forall in Hall. intros Ht%list_elem_of_In.
  specialize (Hall t Ht).
  apply andb_true_iff in Hall as [[[H1 H2]%andb_true_iff H3]%andb_true_iff H4].
  apply negb_true_iff in H3. destruct (time_value t); try done.
  by apply String.eqb_eq in H4 as <-.
Qed.

Lemma first_word_in_table tv hhmm :
  first_word_in tv = Some hhmm → hhmm ∈ TIME_WORD_MAP.*2.
Proof.
  unfold first_word_in. destruct (List.find _ _) as [[w h]|] eqn:Hf; [|done].
  intros [= <-]. apply find_some in Hf as [Hin _]. apply list_elem_of_In in Hin.
  apply list_elem_of_fmap. by exists (w, h).
Qed.

Lemma assoc_in_table tv hhmm :
  Str.assoc tv TIME_WORD_MAP = Some hhmm → hhmm ∈ TIME_WORD_MAP.*2.
Proof.
  intros H%assoc_spec. apply list_elem_of_fmap. by exists (tv, hhmm).
Qed.

Lemma fmt_int_two h : two_digits h = true → Str.fmt_02d (Str.int_of h) = h.
Proof.
  destruct h as [|a [|b [|c h]]]; simpl; try done.
  intros [Ha Hb]%andb_true_iff.
  rewrite (digit_of_val a Ha), (digit_of_val b Hb).
  pose proof (digit_val_lt a Ha) as Hda. pose proof (digit_val_lt b Hb) as Hdb.
  assert (Hall : forallb (fun i => forallb (fun j =>
            String.eqb (Str.fmt_02d (Str.int_of
                          (String (ascii_of_nat (48 + i)) (String (ascii_of_nat (48 + j)) ""))))
                       (String (ascii_of_nat (48 + i)) (String (ascii_of_nat (48 + j)) "")))
            (List.seq 0 10)) (List.seq 0 10) = true) by (vm_compute; reflexivity).
  rewrite forallb_forall in Hall.
  specialize (Hall (Chr.digit_val a) ltac:(apply in_seq; lia)).
  rewrite forallb_forall in Hall.
  specialize (Hall (Chr.digit_val b) ltac:(apply in_seq; lia)).
  by apply String.eqb_eq in Hall.
Qed.

(** A clock reading of two and two digits is kept by the time rule, and
    is no null sentinel. *)
Lemma clock_stable h mm :
  two_digits h = true → two_digits mm = true →
  time_value (h +:+ ":" +:+ mm) = JStr (h +:+ ":" +:+ mm)
  ∧ null_like (h +:+ ":" +:+ mm) = false.
Proof.
  intros Hh Hm. pose proof (two_digits_all _ Hh) as [Hdh Hlh].
  pose proof (two_digits_all _ Hm) as [Hdm Hlm].
  assert (Hfix : Str.lower (Str.strip (h +:+ ":" +:+ mm)) = h +:+ ":" +:+ mm).
  { destruct h as [|a [|b [|? ?]]]; try done. destruct mm as [|c [|e [|? ?]]]; try done.
    simpl in Hh, Hm. apply andb_true_iff in Hh as [Ha Hb], Hm as [Hc He].
    rewrite !app_cons, !app_nil_l. rewrite strip_fix.
    - unfold Str.lower. cbn [Str.map].
      rewrite (digit_lower a), (digit_lower b), (digit_lower c), (digit_lower e) by done.
      reflexivity.
    - simpl. by apply digit_not_space.
    - simpl. by apply digit_not_space. }
  split.
  - unfold time_value. rewrite Hfix.
    rewrite clock_hhmm by (done || lia).
    rewrite split_on_clock by done. simpl. by rewrite fmt_int_two.
  - unfold null_like.
    assert (Hstrip : Str.lower (Str.strip (h +:+ ":" +:+ mm))
                     = Str.lower (Str.strip (Str.lower (Str.strip (h +:+ ":" +:+ mm))))).
    { by rewrite strip_lower, strip_strip, lower_lower. }
    rewrite Hstrip, Hfix. rewrite Hfix in Hstrip. rewrite <- Hstrip.
    destruct (Str.mem _ NULL_STRINGS) eqn:Hmem; [|done].
    apply mem_spec in Hmem.
    assert (Hlen : String.length (h +:+ ":" +:+ mm) = 5).
    { rewrite !length_app_str. simpl. lia. }
    unfold NULL_STRINGS in Hmem. rewrite !elem_of_cons in Hmem.
    exfalso. repeat (destruct Hmem as [Hmem|Hmem]; [by rewrite Hmem in Hlen|]).
    by apply elem_of_nil in Hmem.
Qed.

(** What the time rule stores: nothing, a time of the table of words, or a
    clock reading whose hour the format [:02d] wrote. *)
Lemma time_value_cases x :
  time_value x = JNull
  ∨ (∃ t, time_value x = JStr t ∧ t ∈ TIME_WORD_MAP.*2)
  ∨ (∃ n mm, time_value x = JStr (Str.fmt_02d n +:+ ":" +:+ mm)
             ∧ n < 112 ∧ two_digits mm = true
             ∧ (numerals_in_range x = true → n ≤ 23 ∧ Str.int_of mm ≤ 59)).
Proof.
  unfold time_value, numerals_in_range.
  assert (Hlast : last_space (Str.lower (Str.strip x)) = false).
  { unfold Str.lower. rewrite last_space_map by apply is_space_lower. apply strip_last. }
  destruct (matched (match_ re_hhmm (Str.lower (Str.strip x)))) eqn:Hm.
  - apply hhmm_clock in Hm as (h & mm & Htv & Hh & Hlen & Hmm); [|done].
    right; right. exists (Str.int_of h), mm. rewrite Htv.
    pose proof (two_digits_all _ Hmm) as [Hdm _].
    rewrite split_on_clock by done. simpl.
    pose proof (int_of_short h Hh ltac:(lia)).
    split; [done|]. split; [lia|]. split; [done|].
    intros [H1%Nat.leb_le H2%Nat.leb_le]%andb_true_iff. done.
  - destruct (Str.assoc _ TIME_WORD_MAP) as [hhmm|] eqn:Ha.
    { right; left. exists hhmm. split; [done | by eapply assoc_in_table]. }
    destruct (match_ re_ampm _) as [m|] eqn:Hampm.
    + apply ampm_inv in Hampm as (g1 & g3 & Hg1 & Hd1 & Hl1 & Hg2 & Hg3 & Hin).
      right; right. unfold ampm_value, group_text. rewrite Hg1, Hg3. simpl.
      pose proof (int_of_short g1 Hd1 ltac:(lia)) as Hh.
      eexists _, _. split; [reflexivity|].
      assert (Hmins : two_digits (match group 2 m with
                                  | Some g => if Str.is_empty g then "00" else g
                                  | None => "00"
                                  end) = true
                      ∧ (match group 2 m with
                         | Some g => if Str.is_empty g then "00" else g
                         | None => "00"
                         end) = default "00" (group 2 m)).
      { destruct Hg2 as [-> | (g2 & -> & Hd2)]; [done|].
        destruct g2; [done|]. done. }
      destruct Hmins as [Hmins Hdef]. rewrite Hdef in *.
      split; [|split; [done|]].
      * repeat case_match; lia.
      * intros [H1%Nat.leb_le H2%Nat.leb_le]%andb_true_iff. split; [|done].
        repeat case_match; try lia.
        all: repeat match goal with
               | H : _ && _ = true |- _ => apply andb_true_iff in H as [? ?]
               | H : negb _ = true |- _ => apply negb_true_iff in H
               | H : (_ =? _) = false |- _ => apply Nat.eqb_neq in H
               | H : (_ =? _) = true |- _ => apply Nat.eqb_eq in H
               end; lia.
    + destruct (first_word_in _) as [hhmm|] eqn:Hw; [|by left].
      right; left. exists hhmm. split; [done | by eapply first_word_in_table].
Qed.

End TimeFacts.

(** ** The fields after the sanitizer *)

Module FieldFacts.

Import Sanitizer SanitizerSpec StrFacts SanitizerFacts.

Lemma nullify_idem v : nullify (nullify v) = nullify v.
Proof.
  unfold nullify, on_str. destruct v as [[| | | |s| |]|]; try done.
  destruct (null_like s) eqn:Hs; [done|]. by rewrite Hs.
Qed.

Lemma null_step_at c k : null_step c k !! k = nullify (c !! k).
Proof.
  unfold null_step, nullify, on_str, Py.get.
  destruct (c !! k) as [[| | | |s| |]|] eqn:Hk; simpl; try done.
  destruct (null_like s); [by rewrite lookup_insert_eq | done].
Qed.

Lemma normalize_nulls_at c k : k ∈ null_keys → normalize_nulls c !! k = nullify (c !! k).
Proof.
  unfold normalize_nulls. generalize null_keys as keys. intros keys Hk.
  revert c; induction keys as [|key keys IH]; intros c; [by apply elem_of_nil in Hk|].
  simpl. destruct (decide (k = key)) as [->|Hne].
  - destruct (decide (key ∈ keys)) as [Hin|Hnin].
    + rewrite IH by done. by rewrite null_step_at, nullify_idem.
    + rewrite nulls_other_gen; [apply null_step_at|].
      apply Forall_forall. intros x Hx ->. by apply Hnin, list_elem_of_In.
  - apply elem_of_cons in Hk as [?|Hk]; [done|].
    rewrite IH by done. by rewrite null_step_other.
Qed.

Lemma normalize_name_at c :
  normalize_name c !! "caller_name" = nullify (c !! "caller_name").
Proof.
  unfold normalize_name, nullify, on_str, Py.get.
  destruct (c !! "caller_name") as [[| | | |s| |]|] eqn:Hk; simpl; try done.
  destruct (null_like s); [by rewrite lookup_insert_eq | done].
Qed.

Lemma normalize_state_at c :
  normalize_state c !! "state_or_region"
  = on_str (fun s => Some (state_value s)) (c !! "state_or_region").
Proof.
  unfold normalize_state, on_str, Py.get.
  destruct (c !! "state_or_region") as [[| | | |s| |]|] eqn:Hk; simpl; try done.
  by rewrite lookup_insert_eq.
Qed.

Lemma normalize_date_at c :
  normalize_date c !! "date_of_event" = on_str date_value (c !! "date_of_event").
Proof.
  unfold normalize_date, on_str, Py.get.
  destruct (c !! "date_of_event") as [[| | | |s| |]|] eqn:Hk; simpl; try done.
  destruct (date_value s); [by rewrite lookup_insert_eq | done].
Qed.

Lemma normalize_time_at c :
  normalize_time c !! "time_of_event"
  = on_str (fun s => Some (time_value s)) (c !! "time_of_event").
Proof.
  unfold normalize_time, on_str, Py.get.
  destruct (c !! "time_of_event") as [[| | | |s| |]|] eqn:Hk; simpl; try done.
  by rewrite lookup_insert_eq.
Qed.

Ltac in_null_keys := unfold null_keys; rewrite !elem_of_cons; tauto.

(** The time field after the sanitizer: null coercion, then the time rule *)
Lemma sanitize_time c c' :
  _sanitize_call c = Ok c' →
  c' !! "time_of_event"
  = on_str (fun s => Some (time_value s)) (nullify (c !! "time_of_event")).
Proof.
  intros (c1 & c2 & c3 & H1 & H2 & H3 & ->)%sanitize_inv.
  rewrite normalize_tone_other, normalize_witnesses_other, normalize_time_at by done.
  rewrite normalize_date_other by done.
  rewrite (validate_secondary_other _ _ _ H3), (validate_call_type_other _ _ _ H2),
    (force_country_other _ _ _ H1) by done.
  rewrite normalize_state_other, normalize_name_other by done.
  rewrite normalize_nulls_at by in_null_keys. done.
Qed.

(** The date field after the sanitizer: null coercion, then the date rule *)
Lemma sanitize_date c c' :
  _sanitize_call c = Ok c' →
  c' !! "date_of_event" = on_str date_value (nullify (c !! "date_of_event")).
Proof.
  intros (c1 & c2 & c3 & H1 & H2 & H3 & ->)%sanitize_inv.
  rewrite normalize_tone_other, normalize_witnesses_other, normalize_time_other by done.
  rewrite normalize_date_at.
  rewrite (validate_secondary_other _ _ _ H3), (validate_call_type_other _ _ _ H2),
    (force_country_other _ _ _ H1) by done.
  rewrite normalize_state_other, normalize_name_other by done.
  rewrite normalize_nulls_at by in_null_keys. done.
Qed.

End FieldFacts.

Module TimeClaims.

Import Sanitizer SanitizerSpec StrFacts SanitizerFacts FieldFacts ClockFacts TimeFacts.

Lemma clock_shape_fmt n mm :
  n < 112 → two_digits mm = true →
  clock_shape (Str.fmt_02d n +:+ ":" +:+ mm) = true.
Proof.
  intros Hn Hmm. pose proof (two_digits_all _ Hmm) as [Hdm _].
  assert (Hh : Str.all Chr.is_digit (Str.fmt_02d n) = true
               ∧ 2 ≤ String.length (Str.fmt_02d n)).
  { destruct (Nat.lt_ge_cases n 100) as [Hlt|Hge].
    - destruct (fmt_02d_two n Hlt) as [[? ?]%two_digits_all _]. split; [done | lia].
    - destruct (fmt_02d_three n ltac:(lia)) as [? ?]. split; [done | lia]. }
  destruct Hh as [Hdh Hlh]. unfold clock_shape. rewrite split_on_clock by done.
  rewrite Hdh, Hmm. by destruct (Nat.leb_spec 2 (String.length (Str.fmt_02d n))); [|lia].
Qed.

Lemma valid_hhmm_fmt n mm :
  n ≤ 23 → two_digits mm = true → Str.int_of mm ≤ 59 →
  valid_hhmm (Str.fmt_02d n +:+ ":" +:+ mm) = true.
Proof.
  intros Hn Hmm Hmin. pose proof (two_digits_all _ Hmm) as [Hdm _].
  destruct (fmt_02d_two n ltac:(lia)) as [Hh Hint].
  pose proof (two_digits_all _ Hh) as [Hdh _].
  unfold valid_hhmm. rewrite split_on_clock by done. rewrite Hh, Hmm, Hint. simpl.
  destruct (Nat.leb_spec n 23); [|lia]. destruct (Nat.leb_spec (Str.int_of mm) 59); [done | lia].
Qed.

(** C4: the time rule does not do what its header announces, "enforce
    HH:MM or null". It reads a clock time by the pattern of its digits and
    never checks their range: "99:99" is kept, and is not a time of day;
    "99pm" becomes "111:00", which is not even of the shape. It runs on
    strings only: the number 1430 is kept, and is neither null nor a
    string. *)
Lemma sanitized_time_out_of_range :
  field_after "time_of_event" (record [("time_of_event", JStr "99:99")])
    = Ok (Some (JStr "99:99"))
  ∧ valid_hhmm "99:99" = false
  ∧ field_after "time_of_event" (record [("time_of_event", JStr "99pm")])
    = Ok (Some (JStr "111:00"))
  ∧ valid_hhmm "111:00" = false
  ∧ field_after "time_of_event" (record [("time_of_event", JInt 1430)])
    = Ok (Some (JInt 1430)).
Proof. vm_compute. repeat split; reflexivity. Qed.

(** What the time rule does ensure as the code stands. For a record whose
    [time_of_event] is a string, the field is afterwards null or a string
    made of a decimal hour of two digits or more, a colon and two decimal
    digits; that string is zero-padded [HH:MM] with the hour in [0,23] and
    the minute in [0,59] whenever the numerals of the input are in range (a
    time-of-day word, a 24-hour reading with hour at most 23 and minute at
    most 59, a 12-hour reading with hour at most 12 and minute at most 59).
    A [time_of_event] that is not a string is not looked at. *)
Theorem sanitized_time_shape (c c' : call) :
  _sanitize_call c = Ok c' →
  match Py.get c "time_of_event" with
  | JStr time_val =>
      c' !! "time_of_event" = Some JNull
      ∨ ∃ t, c' !! "time_of_event" = Some (JStr t) ∧ clock_shape t = true
             ∧ (numerals_in_range time_val = true → valid_hhmm t = true)
  | _ => c' !! "time_of_event" = c !! "time_of_event"
  end.
Proof.
  intros Hrun. rewrite (sanitize_time _ _ Hrun). unfold nullify, on_str, Py.get.
  destruct (c !! "time_of_event") as [[| | | |s| |]|] eqn:Hk; simpl; try done.
  destruct (null_like s); [by left|].
  destruct (time_value_cases s) as [-> | [(t & -> & Ht) | (n & mm & -> & Hn & Hmm & Hrange)]].
  - by left.
  - right. exists t. apply time_words_valid in Ht as (? & ? & _). done.
  - right. eexists. split; [done|]. split; [by apply clock_shape_fmt|].
    intros [? ?]%Hrange. by apply valid_hhmm_fmt.
Qed.

Lemma sanitized_time_shape_witness :
  ∃ t, record [("call_type", JStr "Other"); ("caller_emotional_tone", JStr "matter-of-fact");
               ("involves_other_witnesses", JBool false); ("time_of_event", JStr "15:30")]
         !! "time_of_event" = Some (JStr t)
       ∧ clock_shape t = true ∧ valid_hhmm t = true.
Proof.
  destruct (sanitized_time_shape
              (record [("time_of_event", JStr "3:30 PM")])
              (record [("call_type", JStr "Other");
                       ("caller_emotional_tone", JStr "matter-of-fact");
                       ("involves_other_witnesses", JBool false);
                       ("time_of_event", JStr "15:30")]))
    as [Hnull | (t & Ht & Hshape & Hvalid)].
  - reflexivity.
  - discriminate Hnull.
  - exists t. split; [exact Ht|]. split; [exact Hshape|]. apply Hvalid. vm_compute. reflexivity.
Defined.

(** C5, as stated, fails: the sanitizer turns "around 3 in the afternoon"
    into "12:00", not "15:00". *)
Lemma afternoon_is_not_15 :
  field_after "time_of_event" (record [("time_of_event", JStr "around 3 in the afternoon")])
    = Ok (Some (JStr "12:00"))
  ∧ field_after "time_of_event" (record [("time_of_event", JStr "around 3 in the afternoon")])
    ≠ Ok (Some (JStr "15:00")).
Proof. vm_compute. split; [reflexivity | discriminate]. Qed.

(** C5, amended: "around 3 in the afternoon" carries no am/pm marker, so
    the sanitizer does not read it as a 12-hour time; neither clock pattern
    matches it, and the sanitized time is one of the canonical times of the
    table of time-of-day words, found by substring. It is the 12-hour form
    "around 3 pm" that the sanitizer turns into "15:00". *)
Theorem afternoon_is_a_time_word :
  Re.match_ re_hhmm "around 3 in the afternoon" = None
  ∧ Re.match_ re_ampm "around 3 in the afternoon" = None
  ∧ (∃ t, field_after "time_of_event"
            (record [("time_of_event", JStr "around 3 in the afternoon")]) = Ok (Some (JStr t))
          ∧ first_word_in "around 3 in the afternoon" = Some t
          ∧ t ∈ TIME_WORD_MAP.*2)
  ∧ field_after "time_of_event" (record [("time_of_event", JStr "around 3 pm")])
    = Ok (Some (JStr "15:00")).
Proof.
  split; [vm_compute; reflexivity|]. split; [vm_compute; reflexivity|]. split.
  - exists "12:00". split; [vm_compute; reflexivity|]. split; [vm_compute; reflexivity|].
    apply (first_word_in_table "around 3 in the afternoon"). vm_compute. reflexivity.
  - vm_compute. reflexivity.
Qed.

End TimeClaims.

(** ** The verifier *)

(** ** The words the verifier looks for *)

Module WordFacts.

Import Re Verifier VerifierSpec ChrFacts.









End WordFacts.

Module VerifierClaims.

Import Verifier VerifierSpec SanitizerSpec SanitizerFacts.


Lemma check_snippet_tags t s x :
  x ∈ check_snippet t s → x = "snippet_match" ∨ x = "snippet_partial".
Proof.
  unfold check_snippet. repeat case_match; rewrite ?list_elem_of_singleton; auto;
    by intros ?%elem_of_nil.
Qed.

Lemma check_found_tags tag t s x : x ∈ check_found tag t s → x = tag.
Proof.
  unfold check_found. case_match; rewrite ?list_elem_of_singleton; auto;
    by intros ?%elem_of_nil.
Qed.

Lemma check_desc_tags t s x : x ∈ check_desc t s → x = "desc_words_match".
Proof.
  unfold check_desc. repeat case_match; rewrite ?list_elem_of_singleton; auto;
    by intros ?%elem_of_nil.
Qed.






End VerifierClaims.

(** ** The date rule *)

Module DateFacts.

Import Sanitizer SanitizerSpec StrSpec StrFacts ChrFacts Re ReSpec ReFacts ReComplete
       ClockFacts TimeFacts.

(** Four decimal digits *)
Lemma four_digits_cases w :
  Str.all Chr.is_digit w = true → String.length w = 4 →
  ∃ a b c e, w = String a (String b (String c (String e "")))
             ∧ Chr.is_digit a = true ∧ Chr.is_digit b = true
             ∧ Chr.is_digit c = true ∧ Chr.is_digit e = true.
Proof.
  destruct w as [|a [|b [|c [|e [|? ?]]]]]; try done.
  unfold Str.all. simpl.
  intros [Ha [Hb [Hc [He _]%andb_true_iff]%andb_true_iff]%andb_true_iff]%andb_true_iff _.
  by exists a, b, c, e.
Qed.

Lemma two_digits_cases w :
  two_digits w = true →
  ∃ a b, w = String a (String b "") ∧ Chr.is_digit a = true ∧ Chr.is_digit b = true.
Proof.
  destruct w as [|a [|b [|? ?]]]; try done. simpl.
  intros [Ha Hb]%andb_true_iff. by exists a, b.
Qed.

(** A full date: four digits, two digits and two digits between hyphens.
    The date rule leaves it as it is, and it is no null sentinel. *)
Lemma full_date_stable y m dd :
  Str.all Chr.is_digit y = true → String.length y = 4 →
  two_digits m = true → two_digits dd = true →
  let date := y +:+ "-" +:+ m +:+ "-" +:+ dd in
  date_value date = None ∧ null_like date = false.
Proof.
  intros Hy Hly Hm Hd date.
  destruct (four_digits_cases y Hy Hly) as (y1 & y2 & y3 & y4 & -> & Hy1 & Hy2 & Hy3 & Hy4).
  destruct (two_digits_cases m Hm) as (m1 & m2 & -> & Hm1 & Hm2).
  destruct (two_digits_cases dd Hd) as (d1 & d2 & -> & Hd1 & Hd2).
  assert (Hstrip : Str.strip date = date).
  { apply strip_fix; unfold date; rewrite !app_cons, !app_nil_l; simpl;
      by apply digit_not_space. }
  split.
  - unfold date_value. rewrite Hstrip.
    assert (Hmatch : matched (match_ re_full_date date) = true); [|by rewrite Hmatch].
    apply match_iff.
    destruct (run_here Chr.is_digit _ 0 None ("-" +:+ String m1 (String m2 "") +:+ "-"
                +:+ String d1 (String d2 "")) [] Hy) as [pv1 H1].
    destruct (eat_here "-" (0 + 4) pv1 (String m1 (String m2 "") +:+ "-"
                +:+ String d1 (String d2 "")) []) as [pv2 H2].
    pose proof (two_digits_all _ Hm) as [Hdm _]. pose proof (two_digits_all _ Hd) as [Hdd _].
    destruct (run_here Chr.is_digit _ (0 + 4 + 1) pv2 ("-" +:+ String d1 (String d2 "")) [] Hdm)
      as [pv3 H3].
    destruct (eat_here "-" (0 + 4 + 1 + 2) pv3 (String d1 (String d2 "")) []) as [pv4 H4].
    destruct (run_here Chr.is_digit _ (0 + 4 + 1 + 2 + 1) pv4 "" [] Hdd) as [pv5 H5].
    rewrite app_empty_r in H5.
    eexists. unfold re_full_date, times, d. simpl.
    eapply M_Cat; [by apply M_Bol|].
    eapply M_Cat; [eapply (M_Rep _ _ _ _); [exact H1 | simpl; lia | intros ? [= <-]; simpl; lia]|].
    eapply M_Cat; [apply M_Lit; exact H2|].
    eapply M_Cat; [eapply (M_Rep _ _ _ _); [exact H3 | simpl; lia | intros ? [= <-]; simpl; lia]|].
    eapply M_Cat; [apply M_Lit; exact H4|].
    eapply M_Cat; [eapply (M_Rep _ _ _ _); [exact H5 | simpl; lia | intros ? [= <-]; simpl; lia]|].
    by apply M_Eol.
  - unfold null_like. rewrite Hstrip.
    destruct (Str.mem _ NULL_STRINGS) eqn:Hmem; [|done].
    apply mem_spec in Hmem.
    assert (Hlen : String.length (Str.lower date) = 10).
    { unfold Str.lower. rewrite length_map. unfold date. by rewrite !app_cons, !app_nil_l. }
    unfold NULL_STRINGS in Hmem. rewrite !elem_of_cons in Hmem.
    exfalso. repeat (destruct Hmem as [Hmem|Hmem]; [by rewrite Hmem in Hlen|]).
    by apply elem_of_nil in Hmem.
Qed.

(** What [^\d{4}$] and [^\d{4}-\d{2}$] match *)
Lemma year_inv tv m :
  match_ re_year tv = Some m →
  ∃ w e, tv = w +:+ e ∧ Str.all Chr.is_digit w = true ∧ String.length w = 4
         ∧ at_eol e = true.
Proof.
  unfold match_. intros (st' & Hm & _)%rx_sound.
  unfold re_year, times in Hm. simpl in Hm.
  apply rmatch_cat in Hm as (s1 & [_ ->]%rmatch_bol & Hm).
  apply rmatch_cat in Hm as (s2 & (w & Hr & Hlo & Hhi)%rmatch_rep & [He ->]%rmatch_eol).
  apply run_spec in Hr as (Hr & _ & _ & Hd). simpl in Hr. unfold d in *.
  exists w, (rest s2). specialize (Hhi 4 eq_refl). repeat split; try done. lia.
Qed.

Lemma year_month_inv tv m :
  match_ re_year_month tv = Some m →
  ∃ w1 w2 e, tv = w1 +:+ "-" +:+ w2 +:+ e
             ∧ Str.all Chr.is_digit w1 = true ∧ String.length w1 = 4
             ∧ two_digits w2 = true ∧ at_eol e = true.
Proof.
  unfold match_. intros (st' & Hm & _)%rx_sound.
  unfold re_year_month, times in Hm. simpl in Hm.
  apply rmatch_cat in Hm as (s1 & [_ ->]%rmatch_bol & Hm).
  apply rmatch_cat in Hm as (s2 & (w1 & Hr1 & Hlo1 & Hhi1)%rmatch_rep & Hm).
  apply rmatch_cat in Hm as (s3 & Hl%rmatch_lit & Hm).
  apply rmatch_cat in Hm as (s4 & (w2 & Hr2 & Hlo2 & Hhi2)%rmatch_rep & [He ->]%rmatch_eol).
  apply run_spec in Hr1 as (Hr1 & _ & _ & Hd1), Hr2 as (Hr2 & _ & _ & Hd2).
  apply eat_spec in Hl as (Hl & _). simpl in Hr1. unfold d in *.
  exists w1, w2, (rest s4). rewrite Hr1, Hl, Hr2.
  specialize (Hhi1 4 eq_refl). specialize (Hhi2 2 eq_refl).
  repeat split; try done; try lia. apply all_two_digits; [done | lia].
Qed.

(** [re.search] succeeds with a match of the pattern at some offset. *)
Lemma search_go_sound r s : ∀ ps pv m,
  search_go r ps pv s = Some m → ∃ st, caps st = [] ∧ rx r st Some = Some m.
Proof.
  induction s as [|c t IH]; intros ps pv m; simpl.
  - destruct (rx r (MSt ps pv "" []) Some) as [out|] eqn:Hrx; [|done].
    intros [= <-]. by exists (MSt ps pv "" []).
  - destruct (rx r (MSt ps pv (String c t) []) Some) as [out|] eqn:Hrx.
    + intros [= <-]. by exists (MSt ps pv (String c t) []).
    + apply IH.
Qed.

(** What [(\d{4})s] and [(\d{2})s] capture *)
Lemma decade_inv n tv m :
  search (seq [Grp 1 (times d n); Lit "s"]) tv = Some m →
  Str.all Chr.is_digit (group_text 1 m) = true ∧ String.length (group_text 1 m) = n.
Proof.
  unfold search. intros (st & Hc & (st' & Hm & [= <-])%rx_sound)%search_go_sound.
  unfold times in Hm. simpl in Hm.
  apply rmatch_cat in Hm as (s1 & (w & Hd & Hlo & Hhi & Hc1)%grp_rep & [_ Hc2]%lit_take).
  unfold group_text, group. rewrite Hc2, Hc1. simpl. specialize (Hhi n eq_refl).
  unfold d in *. split; [done | lia].
Qed.

Lemma stripped_no_eol w e :
  last_space (w +:+ e) = false → at_eol e = true → e = "".
Proof.
  intros Hlast [->| ->]%at_eol_cases; [done|].
  rewrite last_space_app in Hlast by done. done.
Qed.

(** What the date rule stores: nothing new, null, or a full date. *)
Lemma date_value_cases x :
  date_value x = None ∨ date_value x = Some JNull
  ∨ ∃ y m dd, date_value x = Some (JStr (y +:+ "-" +:+ m +:+ "-" +:+ dd))
              ∧ Str.all Chr.is_digit y = true ∧ String.length y = 4
              ∧ two_digits m = true ∧ two_digits dd = true.
Proof.
  unfold date_value. pose proof (strip_last x) as Hlast.
  destruct (matched (match_ re_full_date (Str.strip x))); [by left|].
  destruct (matched (match_ re_year (Str.strip x))) eqn:Hyear.
  { apply matched_some in Hyear as [m (w & e & Hx & Hd & Hl & He)%year_inv].
    rewrite Hx in Hlast. pose proof (stripped_no_eol _ _ Hlast He) as ->.
    rewrite app_empty_r in Hx. rewrite Hx.
    right; right. by exists w, "01", "01". }
  destruct (matched (match_ re_year_month (Str.strip x))) eqn:Hym.
  { apply matched_some in Hym as [m (w1 & w2 & e & Hx & Hd1 & Hl1 & Hd2 & He)%year_month_inv].
    rewrite Hx, <- !app_assoc_str in Hlast. pose proof (stripped_no_eol _ _ Hlast He) as ->.
    rewrite app_empty_r in Hx. rewrite Hx.
    right; right. exists w1, w2, "01". rewrite !app_assoc_str. done. }
  destruct (search re_decade4 (Str.strip x)) as [m|] eqn:Hd4.
  { apply (decade_inv 4) in Hd4 as [Hd Hl]. right; right.
    by exists (group_text 1 m), "01", "01". }
  destruct (search re_decade2 (Str.strip x)) as [m|] eqn:Hd2; [|by right; left].
  apply (decade_inv 2) in Hd2 as [Hd Hl]. right; right.
  destruct (two_digits_cases _ (all_two_digits _ Hd Hl)) as (a & b & Hg & Ha & Hb).
  exists ((if 30 <=? Str.int_of (group_text 1 m) then "19" else "20") +:+ group_text 1 m),
    "01", "01".
  rewrite !app_assoc_str. split; [done|]. rewrite Hg.
  destruct (30 <=? _); unfold Str.all; simpl; rewrite Ha, Hb; done.
Qed.

End DateFacts.

(** ** The state, tone and secondary-category rules on their own output *)

Module RuleFacts.

Import Sanitizer SanitizerSpec StrSpec StrFacts ChrFacts SanitizerFacts CallTypeFacts.

(** Every full state name of the two tables is kept by the state rule,
    and none is a null sentinel. *)
Lemma table_states_stable d k full :
  d = STATE_ABBREV_TO_FULL ∨ d = STATE_ALIASES →
  Str.assoc k d = Some full →
  state_value full = JStr full ∧ null_like full = false.
Proof.
  assert (Hall : forallb (fun v => match state_value v with
                                   | JStr v' => String.eqb v v' && negb (null_like v)
                                   | _ => false
                                   end)
                   (STATE_ABBREV_TO_FULL.*2 ++ STATE_ALIASES.*2) = true)
    by (vm_compute; reflexivity).
  rewrite forallb_forall in Hall. intros Hd Hk%assoc_spec.
  assert (Hin : In full (STATE_ABBREV_TO_FULL.*2 ++ STATE_ALIASES.*2)).
  { apply list_elem_of_In, elem_of_app.
    destruct Hd as [-> | ->]; [left | right]; apply list_elem_of_fmap; by exists (k, full). }
  specialize (Hall full Hin). destruct (state_value full); try done.
  apply andb_true_iff in Hall as [<-%String.eqb_eq ?%negb_true_iff]. done.
Qed.

(** The state rule keeps what it has written. *)
Lemma state_value_stable s s' :
  state_value s = JStr s' → state_value s' = JStr s' ∧ null_like s' = false.
Proof.
  unfold state_value at 1. cbv zeta.
  destruct (Str.assoc (Str.upper (Str.strip s)) STATE_ABBREV_TO_FULL) as [full|] eqn:Hab.
  { intros [= <-]. eapply table_states_stable; [by left | done]. }
  destruct (Str.assoc (Str.lower (Str.strip s)) STATE_ALIASES) as [full|] eqn:Hal.
  { intros [= <-]. eapply table_states_stable; [by right | done]. }
  destruct (Str.mem (Str.lower (Str.strip s)) NULL_STRINGS) eqn:Hnull; [done|].
  intros [= <-].
  set (s0 := Str.strip s) in *.
  set (s' := if String.eqb s0 (Str.lower s0) || String.eqb s0 (Str.upper s0)
             then Str.title s0 else s0).
  assert (Hstrip : Str.strip s' = s').
  { unfold s'. destruct (_ || _); [apply strip_title | apply strip_strip]. }
  assert (Hup : Str.upper s' = Str.upper s0).
  { unfold s'. destruct (_ || _); [apply upper_title_go | done]. }
  assert (Hlow : Str.lower s' = Str.lower s0).
  { unfold s'. destruct (_ || _); [apply lower_title_go | done]. }
  split.
  - unfold state_value. cbv zeta. rewrite Hstrip, Hup, Hlow, Hab, Hal, Hnull.
    f_equal.
    assert (Hcases : Str.title s' = s'
                     ∨ (s' = s0 ∧ String.eqb s0 (Str.lower s0) || String.eqb s0 (Str.upper s0)
                                  = false)).
    { unfold s'. destruct (_ || _); [left | by right].
      unfold Str.title. apply title_go_idem. }
    destruct Hcases as [-> | [-> ->]]; [|done].
    by destruct (String.eqb s' (Str.lower s0) || String.eqb s' (Str.upper s0)).
  - unfold null_like. by rewrite Hstrip, Hlow.
Qed.

(** The tone rule stores a tone of the enumeration, and keeps it. *)
Lemma tone_value_valid v : Str.mem (tone_value v) VALID_TONES = true.
Proof.
  assert (Hmap : forallb (fun t => Str.mem t VALID_TONES) ("matter-of-fact" :: tone_map.*2) = true)
    by (vm_compute; reflexivity).
  rewrite forallb_forall in Hmap.
  unfold tone_value. destruct (Py.or_ v (JStr "")) as [| | | |tone| |];
    try (apply Hmap; by left).
  cbv zeta. set (t0 := Str.replace "_" "-" (Str.lower (Str.strip tone))).
  destruct (Str.mem t0 VALID_TONES) eqn:Hm; [done|].
  destruct (Str.assoc t0 tone_map) as [t|] eqn:Ha; simpl; [|apply Hmap; by left].
  apply Hmap. right. apply assoc_spec in Ha. apply list_elem_of_In, list_elem_of_fmap.
  by eexists (_, t).
Qed.

Lemma tone_value_fix t : Str.mem t VALID_TONES = true → tone_value (JStr t) = t.
Proof.
  assert (Hall : forallb (fun t => String.eqb (tone_value (JStr t)) t) VALID_TONES = true)
    by (vm_compute; reflexivity).
  rewrite forallb_forall in Hall. intros Ht%mem_spec%list_elem_of_In.
  by apply String.eqb_eq, Hall.
Qed.

(** No label of the vocabulary is a null sentinel. *)
Lemma labels_not_null l : Str.mem l VALID_ENTITY_LABELS = true → null_like l = false.
Proof.
  assert (Hall : forallb (fun l => negb (null_like l)) VALID_ENTITY_LABELS = true)
    by (vm_compute; reflexivity).
  rewrite forallb_forall in Hall. intros Hl%mem_spec%list_elem_of_In.
  by apply negb_true_iff, Hall.
Qed.

(** What the rule of the secondary category leaves in the field *)
Lemma validate_secondary_inv c c' :
  validate_secondary c = Ok c' →
  match Py.get c "call_type_secondary" with
  | JNull => c' = c
  | JStr s =>
      if Str.mem s VALID_ENTITY_LABELS then c' = c
      else c' = <["call_type_secondary" :=
                   match canonical_label s with Some l => JStr l | None => JNull end]> c
  | _ => False
  end.
Proof.
  assert (Hraise : ∀ v, (∀ s, v ≠ JStr s) →
            find_label v VALID_ENTITY_LABELS = Raise AttributeError).
  { intros v Hv. by apply (find_label_raises v "Bigfoot/Sasquatch"). }
  unfold validate_secondary. unfold_bind.
  destruct (Py.get c "call_type_secondary") as [|b|z|f|s|l|m] eqn:Hget;
    cbn [Py.in_ negb]; rewrite ?Hraise by done; try done.
  - by intros [= <-].
  - rewrite find_label_str. fold (canonical_label s).
    destruct (Str.mem s VALID_ENTITY_LABELS); cbn [negb]; [by intros [= <-]|].
    destruct (canonical_label s); by intros [= <-].
Qed.

End RuleFacts.

(** ** The sanitizer on its own output *)

Module Idempotence.

Import Sanitizer SanitizerSpec StrSpec StrFacts SanitizerFacts CallTypeFacts FieldFacts
       ClockFacts TimeFacts DateFacts RuleFacts.

(** *** A rule that finds its own output in the field leaves the record *)

Lemma nullify_stable v :
  (∀ s, v = Some (JStr s) → null_like s = false) → nullify v = v.
Proof.
  unfold nullify, on_str. destruct v as [[| | | |s| |]|]; try done.
  intros H. by rewrite (H s eq_refl).
Qed.

Lemma nullify_str v s : nullify v = Some (JStr s) → null_like s = false.
Proof.
  unfold nullify, on_str. destruct v as [[| | | |s0| |]|]; try done.
  destruct (null_like s0) eqn:Hs; [done|]. by intros [= <-].
Qed.

Lemma normalize_nulls_fix c :
  (∀ k, k ∈ null_keys → nullify (c !! k) = c !! k) → normalize_nulls c = c.
Proof.
  intros Hfix. apply map_eq. intros i.
  destruct (decide (i ∈ null_keys)) as [Hin|Hnin].
  - rewrite normalize_nulls_at by done. by apply Hfix.
  - by apply normalize_nulls_other.
Qed.

Lemma normalize_name_fix c :
  nullify (c !! "caller_name") = c !! "caller_name" → normalize_name c = c.
Proof.
  intros Hfix. apply map_eq. intros i. destruct (decide (i = "caller_name")) as [->|].
  - by rewrite normalize_name_at.
  - by apply normalize_name_other.
Qed.

Lemma normalize_state_fix c :
  on_str (fun s => Some (state_value s)) (c !! "state_or_region") = c !! "state_or_region" →
  normalize_state c = c.
Proof.
  intros Hfix. apply map_eq. intros i. destruct (decide (i = "state_or_region")) as [->|].
  - by rewrite normalize_state_at.
  - by apply normalize_state_other.
Qed.

Lemma normalize_date_fix c :
  on_str date_value (c !! "date_of_event") = c !! "date_of_event" → normalize_date c = c.
Proof.
  intros Hfix. apply map_eq. intros i. destruct (decide (i = "date_of_event")) as [->|].
  - by rewrite normalize_date_at.
  - by apply normalize_date_other.
Qed.

Lemma normalize_time_fix c :
  on_str (fun s => Some (time_value s)) (c !! "time_of_event") = c !! "time_of_event" →
  normalize_time c = c.
Proof.
  intros Hfix. apply map_eq. intros i. destruct (decide (i = "time_of_event")) as [->|].
  - by rewrite normalize_time_at.
  - by apply normalize_time_other.
Qed.

Lemma normalize_witnesses_fix c b :
  c !! "involves_other_witnesses" = Some (JBool b) → normalize_witnesses c = c.
Proof. intros H. unfold normalize_witnesses. by rewrite (get_lookup _ _ _ H). Qed.

Lemma normalize_tone_fix c t :
  c !! "caller_emotional_tone" = Some (JStr t) → Str.mem t VALID_TONES = true →
  normalize_tone c = c.
Proof.
  intros H Ht. unfold normalize_tone. rewrite (get_lookup _ _ _ H), tone_value_fix by done.
  by apply insert_id.
Qed.

Lemma validate_call_type_fix c l :
  c !! "call_type" = Some (JStr l) → Str.mem l VALID_ENTITY_LABELS = true →
  validate_call_type c = Ok c.
Proof.
  intros H Hl. unfold validate_call_type, Py.or_. rewrite (get_lookup _ _ _ H).
  destruct l as [|a l]; [by vm_compute in Hl|].
  cbn [Py.truthy Str.is_empty negb Py.in_]. unfold_bind. by rewrite Hl.
Qed.

Lemma validate_secondary_fix c :
  (Py.get c "call_type_secondary" = JNull
   ∨ ∃ l, Py.get c "call_type_secondary" = JStr l ∧ Str.mem l VALID_ENTITY_LABELS = true) →
  validate_secondary c = Ok c.
Proof.
  unfold validate_secondary. intros [-> | (l & -> & Hl)]; [done|].
  cbn [Py.in_]. unfold_bind. by rewrite Hl.
Qed.

Lemma force_country_fix c :
  (Py.truthy (Py.get c "state_or_region") = true →
   ∃ b, Py.in_ (Py.get c "state_or_region") US_REGIONS.*1 = Ok b
        ∧ (b = true → c !! "country" = Some (JStr "USA"))) →
  force_country c = Ok c.
Proof.
  unfold force_country. destruct (Py.truthy _); [|done].
  intros H. destruct (H eq_refl) as (b & -> & Hb). unfold_bind.
  destruct b; [|done]. by rewrite insert_id by auto.
Qed.

(** *** The fields of a sanitized record *)

Lemma on_str_fix f v :
  (∀ s, v = Some (JStr s) → f s = Some (JStr s) ∨ f s = None) → on_str f v = v.
Proof.
  unfold on_str. destruct v as [[| | | |s| |]|]; try done.
  intros H. by destruct (H s eq_refl) as [-> | ->].
Qed.

Lemma on_str_nullify_str f v s' :
  on_str f (nullify v) = Some (JStr s') →
  ∃ s, v = Some (JStr s) ∧ null_like s = false
       ∧ (f s = Some (JStr s') ∨ (f s = None ∧ s' = s)).
Proof.
  unfold nullify, on_str. destruct v as [[| | | |s| |]|]; try done.
  destruct (null_like s) eqn:Hs; [done|].
  destruct (f s) as [w|] eqn:Hf.
  - intros [= ->]. exists s. auto.
  - intros [= <-]. exists s. auto.
Qed.

Ltac through_rules H1 H2 H3 :=
  rewrite ?normalize_tone_other, ?normalize_witnesses_other, ?normalize_time_other,
    ?normalize_date_other by done;
  rewrite ?(validate_secondary_other _ _ _ H3) by done;
  rewrite ?(validate_call_type_other _ _ _ H2) by done;
  rewrite ?(force_country_other _ _ _ H1) by done;
  rewrite ?normalize_state_other, ?normalize_name_other by done.

Lemma sanitize_state c c' :
  _sanitize_call c = Ok c' →
  c' !! "state_or_region"
  = on_str (fun s => Some (state_value s)) (nullify (c !! "state_or_region")).
Proof.
  intros (c1 & c2 & c3 & H1 & H2 & H3 & ->)%sanitize_inv.
  through_rules H1 H2 H3. rewrite normalize_state_at. through_rules H1 H2 H3.
  by rewrite normalize_nulls_at by in_null_keys.
Qed.

Lemma sanitize_name c c' :
  _sanitize_call c = Ok c' → c' !! "caller_name" = nullify (c !! "caller_name").
Proof.
  intros (c1 & c2 & c3 & H1 & H2 & H3 & ->)%sanitize_inv.
  through_rules H1 H2 H3. rewrite normalize_name_at.
  rewrite normalize_nulls_other; [done|].
  unfold null_keys. rewrite !not_elem_of_cons. repeat split; try done. apply not_elem_of_nil.
Qed.

Lemma sanitize_nulls_only c c' k :
  _sanitize_call c = Ok c' →
  k ∈ ["city"; "setting"; "derek_commentary"; "caller_intro_snippet"] →
  c' !! k = nullify (c !! k).
Proof.
  intros (c1 & c2 & c3 & H1 & H2 & H3 & ->)%sanitize_inv Hk.
  rewrite !elem_of_cons in Hk.
  destruct Hk as [-> | [-> | [-> | [-> | ?%elem_of_nil]]]]; try done;
    through_rules H1 H2 H3; by rewrite normalize_nulls_at by in_null_keys.
Qed.

Lemma sanitize_call_type c c' :
  _sanitize_call c = Ok c' →
  ∃ l, c' !! "call_type" = Some (JStr l) ∧ Str.mem l VALID_ENTITY_LABELS = true.
Proof.
  intros (c1 & c2 & c3 & H1 & H2 & H3 & ->)%sanitize_inv.
  rewrite normalize_tone_other, normalize_witnesses_other, normalize_time_other,
    normalize_date_other, (validate_secondary_other _ _ _ H3) by done.
  apply validate_call_type_inv in H2.
  destruct (Py.get c1 "call_type") as [| | | |s| |] eqn:Hv;
    try (destruct H2 as [_ ->]; exists "Other"; by rewrite lookup_insert_eq).
  destruct (Str.mem s VALID_ENTITY_LABELS) eqn:Hmem; subst c2.
  - exists s. by apply get_str in Hv.
  - rewrite lookup_insert_eq. eexists. split; [done|].
    destruct (canonical_label s) as [l0|] eqn:Hcan; simpl; [|done].
    apply canonical_label_spec in Hcan as [Hin _]. by apply mem_spec.
Qed.

Lemma sanitize_secondary c c' :
  _sanitize_call c = Ok c' →
  c' !! "call_type_secondary" = None ∨ c' !! "call_type_secondary" = Some JNull
  ∨ ∃ l, c' !! "call_type_secondary" = Some (JStr l)
         ∧ Str.mem l VALID_ENTITY_LABELS = true.
Proof.
  intros (c1 & c2 & c3 & H1 & H2 & H3 & ->)%sanitize_inv.
  rewrite normalize_tone_other, normalize_witnesses_other, normalize_time_other,
    normalize_date_other by done.
  apply validate_secondary_inv in H3. unfold Py.get in H3.
  destruct (c2 !! "call_type_secondary") as [[| | | |s| |]|] eqn:Hv; simpl in H3;
    try done; try (subst c3; rewrite Hv; auto).
  destruct (Str.mem s VALID_ENTITY_LABELS) eqn:Hmem; subst c3.
  - rewrite Hv. right; right. by exists s.
  - rewrite lookup_insert_eq.
    destruct (canonical_label s) as [l0|] eqn:Hcan; [|auto].
    apply canonical_label_spec in Hcan as [Hin%mem_spec _]. right; right. by exists l0.
Qed.

Lemma force_country_inv c c1 :
  force_country c = Ok c1 →
  (Py.truthy (Py.get c "state_or_region") = false ∧ c1 = c)
  ∨ (Py.truthy (Py.get c "state_or_region") = true
     ∧ ∃ b, Py.in_ (Py.get c "state_or_region") US_REGIONS.*1 = Ok b
            ∧ c1 = if b then <["country" := JStr "USA"]> c else c).
Proof.
  unfold force_country. destruct (Py.truthy _); [|intros [= <-]; by left].
  unfold_bind. destruct (Py.in_ _ _) as [b|]; [|done].
  intros [= <-]. right. split; [done|]. by exists b.
Qed.

Lemma sanitize_country c c' :
  _sanitize_call c = Ok c' →
  (Py.truthy (Py.get c' "state_or_region") = true →
   ∃ b, Py.in_ (Py.get c' "state_or_region") US_REGIONS.*1 = Ok b
        ∧ (b = true → c' !! "country" = Some (JStr "USA")))
  ∧ (∀ s, c' !! "country" = Some (JStr s) → null_like s = false).
Proof.
  intros (c1 & c2 & c3 & H1 & H2 & H3 & ->)%sanitize_inv.
  set (c0 := normalize_state (normalize_name (normalize_nulls c))) in *.
  set (c' := normalize_tone _).
  assert (Hstate : Py.get c' "state_or_region" = Py.get c0 "state_or_region").
  { apply get_other. unfold c'. by through_rules H1 H2 H3. }
  assert (Hcountry : c' !! "country" = c1 !! "country").
  { unfold c'. by through_rules H1 H2 H3. }
  assert (Hc0 : c0 !! "country" = nullify (c !! "country")).
  { unfold c0. rewrite normalize_state_other, normalize_name_other by done.
    by rewrite normalize_nulls_at by in_null_keys. }
  rewrite Hstate, Hcountry.
  apply force_country_inv in H1 as [[Hf ->] | [Ht (b & Hin & ->)]].
  - split; [by rewrite Hf|]. rewrite Hc0. apply nullify_str.
  - split.
    + intros _. exists b. split; [done|]. intros ->. apply lookup_insert_eq.
    + destruct b.
      * rewrite lookup_insert_eq. by intros s [= <-].
      * rewrite Hc0. apply nullify_str.
Qed.

Lemma sanitize_witnesses c c' :
  _sanitize_call c = Ok c' → ∃ b, c' !! "involves_other_witnesses" = Some (JBool b).
Proof.
  intros (c1 & c2 & c3 & H1 & H2 & H3 & ->)%sanitize_inv.
  rewrite normalize_tone_other by done. unfold normalize_witnesses, Py.get.
  generalize (normalize_time (normalize_date c3)). intros x.
  destruct (x !! "involves_other_witnesses") as [[| | | | | |]|] eqn:Hv; simpl;
    rewrite ?lookup_insert_eq, ?Hv; by eexists.
Qed.

Lemma sanitize_tone c c' :
  _sanitize_call c = Ok c' →
  ∃ t, c' !! "caller_emotional_tone" = Some (JStr t) ∧ Str.mem t VALID_TONES = true.
Proof.
  intros (c1 & c2 & c3 & H1 & H2 & H3 & ->)%sanitize_inv.
  unfold normalize_tone. rewrite lookup_insert_eq. eexists. split; [done|].
  apply tone_value_valid.
Qed.

Lemma state_field_stable c c' s :
  _sanitize_call c = Ok c' → c' !! "state_or_region" = Some (JStr s) →
  state_value s = JStr s ∧ null_like s = false.
Proof.
  intros Hrun Hs. rewrite (sanitize_state _ _ Hrun) in Hs.
  apply on_str_nullify_str in Hs as (s0 & _ & _ & [[= Hf] | [[=] _]]).
  by apply state_value_stable in Hf.
Qed.

Lemma date_field_stable c c' s :
  _sanitize_call c = Ok c' → c' !! "date_of_event" = Some (JStr s) →
  date_value s = None ∧ null_like s = false.
Proof.
  intros Hrun Hs. rewrite (sanitize_date _ _ Hrun) in Hs.
  apply on_str_nullify_str in Hs as (s0 & _ & Hnull & [Hf | [Hf ->]]); [|done].
  destruct (date_value_cases s0) as [Hd | [Hd | (y & m & dd & Hd & Hy & Hly & Hm & Hdd)]];
    rewrite Hd in Hf; try done.
  injection Hf as <-. by apply full_date_stable.
Qed.

Lemma time_field_stable c c' t :
  _sanitize_call c = Ok c' → time_fits c' → c' !! "time_of_event" = Some (JStr t) →
  time_value t = JStr t ∧ null_like t = false.
Proof.
  intros Hrun Hfit Ht. specialize (Hfit t Ht). rewrite (sanitize_time _ _ Hrun) in Ht.
  apply on_str_nullify_str in Ht as (s0 & _ & _ & [[= Hf] | [[=] _]]).
  destruct (time_value_cases s0) as [Hv | [(t' & Hv & Hin) | (n & mm & Hv & Hn & Hmm & _)]];
    rewrite Hv in Hf; try done.
  - injection Hf as <-. apply time_words_valid in Hin. tauto.
  - injection Hf as <-. apply clock_stable; [|done].
    destruct (Nat.lt_ge_cases n 100) as [Hlt|Hge]; [by apply fmt_02d_two|].
    destruct (fmt_02d_three n ltac:(lia)) as [_ Hlen].
    pose proof (two_digits_all _ Hmm) as [_ Hlm].
    rewrite !length_app_str, Hlen, Hlm in Hfit. simpl in Hfit. lia.
Qed.

End Idempotence.

Module IdempotenceClaims.

Import Sanitizer SanitizerSpec StrFacts SanitizerFacts FieldFacts RuleFacts Idempotence.

(** C6: the sanitizer is not idempotent, because the time rule does not
    keep to its header, "enforce HH:MM or null". It turns "99pm" into
    "111:00", an hour of three digits that none of its patterns reads
    back, and a second run turns "111:00" into null. *)
Lemma sanitize_not_idempotent :
  field_after "time_of_event" (record [("time_of_event", JStr "99pm")])
    = Ok (Some (JStr "111:00"))
  ∧ field_after_twice "time_of_event" (record [("time_of_event", JStr "99pm")])
    = Ok (Some JNull)
  ∧ valid_hhmm "111:00" = false.
Proof. vm_compute. repeat split; reflexivity. Qed.

(** X30: apart from the hour that is out of range, the sanitizer is
    idempotent. On a record whose fields are of the ASCII range, on which
    the sanitizer runs to completion and whose sanitized time, when a
    string, has no more than the five characters of [HH:MM], a second run
    returns the record of the first, unchanged. The rules for the state
    or region, the null sentinels, the country, the two categories, the
    date, the witness flag and the tone are stable on their own output
    without condition; the time rule is stable on null and on every
    output with an hour of two digits. *)
Theorem sanitize_idempotent (c c' : call) :
  plain_fields c = true →
  _sanitize_call c = Ok c' → time_fits c' → _sanitize_call c' = Ok c'.
Proof.
  intros _ Hrun Hfit.
  assert (Hnulls : ∀ k, k ∈ null_keys → nullify (c' !! k) = c' !! k).
  { intros k Hk. apply nullify_stable. intros s Hs.
    unfold null_keys in Hk. rewrite !elem_of_cons in Hk.
    destruct Hk as [-> | [-> | [-> | [-> | [-> | [-> | [-> | [-> | [-> | ?%elem_of_nil]]]]]]]]];
      try done.
    - by eapply state_field_stable.
    - rewrite (sanitize_nulls_only c c') in Hs; [by eapply nullify_str | done|].
      rewrite !elem_of_cons. tauto.
    - by eapply (proj2 (sanitize_country _ _ Hrun)).
    - destruct (sanitize_secondary _ _ Hrun) as [H | [H | (l & H & Hl)]];
        rewrite H in Hs; try done. injection Hs as <-. by apply labels_not_null.
    - by eapply date_field_stable.
    - by eapply time_field_stable.
    - rewrite (sanitize_nulls_only c c') in Hs; [by eapply nullify_str | done|].
      rewrite !elem_of_cons. tauto.
    - rewrite (sanitize_nulls_only c c') in Hs; [by eapply nullify_str | done|].
      rewrite !elem_of_cons. tauto.
    - rewrite (sanitize_nulls_only c c') in Hs; [by eapply nullify_str | done|].
      rewrite !elem_of_cons. tauto. }
  destruct (sanitize_call_type _ _ Hrun) as (l & Hct & Hl).
  destruct (sanitize_witnesses _ _ Hrun) as (b & Hwit).
  destruct (sanitize_tone _ _ Hrun) as (t & Htone & Ht).
  unfold _sanitize_call. cbv zeta.
  rewrite (normalize_nulls_fix c' Hnulls).
  rewrite normalize_name_fix
    by (rewrite (sanitize_name _ _ Hrun); apply nullify_idem).
  rewrite normalize_state_fix.
  2:{ apply on_str_fix. intros s Hs. left. f_equal. by eapply state_field_stable. }
  rewrite force_country_fix by apply (proj1 (sanitize_country _ _ Hrun)).
  unfold_bind. rewrite (validate_call_type_fix c' l Hct Hl).
  rewrite validate_secondary_fix.
  2:{ unfold Py.get.
      destruct (sanitize_secondary _ _ Hrun) as [-> | [-> | (l2 & -> & Hl2)]];
        [by left | by left | right; by exists l2]. }
  rewrite normalize_date_fix.
  2:{ apply on_str_fix. intros s Hs. right. by eapply date_field_stable. }
  rewrite normalize_time_fix.
  2:{ apply on_str_fix. intros s Hs. left. f_equal. by eapply time_field_stable. }
  rewrite (normalize_witnesses_fix c' b Hwit).
  by rewrite (normalize_tone_fix c' t Htone Ht).
Qed.

Lemma sanitize_idempotent_witness :
  let c' := record [("state_or_region", JStr "California"); ("country", JStr "USA");
                    ("call_type", JStr "Other"); ("time_of_event", JStr "15:00");
                    ("involves_other_witnesses", JBool false);
                    ("caller_emotional_tone", JStr "matter-of-fact")] in
  _sanitize_call c' = Ok c'.
Proof.
  intros c'.
  apply (sanitize_idempotent
           (record [("state_or_region", JStr " ca "); ("time_of_event", JStr "3 pm")]) c').
  - vm_compute. reflexivity.
  - reflexivity.
  - intros t Ht. vm_compute in Ht. injection Ht as <-. simpl. lia.
Defined.

End IdempotenceClaims.

(* ===================================================================== *)
(** * Part III: further properties of the program *)
(* ===================================================================== *)

(** ** The sanitizer, field by field *)

Module FieldRules.

Import Sanitizer SanitizerSpec FieldSpec StrSpec StrFacts ChrFacts SanitizerFacts
       CallTypeFacts FieldFacts ClockFacts TimeFacts DateFacts RuleFacts Idempotence.
Import Re ReSpec ReFacts.



(** X1: the sanitizer writes no field but its own. Whatever else the
    record holds (the description, the stamps of the episode, any key the
    model invented) is in the sanitized record as it was. *)
Theorem sanitize_keeps_other_fields (c c' : call) (k : string) :
  _sanitize_call c = Ok c' → k ∉ sanitized_keys → c' !! k = c !! k.
Proof. apply sanitize_other. Qed.

Lemma sanitize_keeps_other_fields_witness :
  record [("call_type", JStr "Other"); ("caller_emotional_tone", JStr "matter-of-fact");
          ("description", JStr "A light over the lake");
          ("involves_other_witnesses", JBool false)] !! "description"
  = record [("description", JStr "A light over the lake")] !! "description".
Proof.
  apply (sanitize_keeps_other_fields
           (record [("description", JStr "A light over the lake")])).
  - reflexivity.
  - unfold sanitized_keys, null_keys. simpl. rewrite !not_elem_of_cons.
    repeat split; try done. apply not_elem_of_nil.
Defined.








(** *** No sentinel survives, and the country follows the state *)

(** A string that begins with a digit is no null sentinel. *)
Lemma digit_head_not_null a t : Chr.is_digit a = true → null_like (String a t) = false.
Proof.
  intros Ha. unfold null_like, Str.strip. cbn [Str.lstrip].
  rewrite (digit_not_space a Ha). cbn [Str.rstrip]. rewrite (digit_not_space a Ha).
  cbn [andb]. unfold Str.lower. cbn [Str.map]. rewrite (digit_lower a Ha).
  destruct (Str.mem _ NULL_STRINGS) eqn:Hm; [|done].
  apply mem_spec in Hm. unfold NULL_STRINGS in Hm. rewrite !elem_of_cons in Hm.
  exfalso.
  repeat (destruct Hm as [Hm|Hm]; [by (discriminate Hm || (injection Hm as -> _))|]).
  by apply elem_of_nil in Hm.
Qed.

Lemma fmt_02d_head n :
  n < 112 → ∃ a t, Str.fmt_02d n = String a t ∧ Chr.is_digit a = true.
Proof.
  assert (Hall : forallb (fun n => match Str.fmt_02d n with
                                   | String a _ => Chr.is_digit a
                                   | EmptyString => false
                                   end) (List.seq 0 112) = true)
    by (vm_compute; reflexivity).
  rewrite forallb_forall in Hall. intros Hn.
  specialize (Hall n ltac:(apply in_seq; lia)).
  destruct (Str.fmt_02d n) as [|a t]; [done|]. by exists a, t.
Qed.

(** What the time rule stores is no null sentinel. *)
Lemma time_value_not_null x t : time_value x = JStr t → null_like t = false.
Proof.
  intros Hx.
  destruct (time_value_cases x) as [Hv | [(t' & Hv & Hin) | (n & mm & Hv & Hn & Hmm & _)]];
    rewrite Hv in Hx; try done; injection Hx as <-.
  - apply time_words_valid in Hin. tauto.
  - destruct (fmt_02d_head n Hn) as (a & u & -> & Ha). rewrite app_cons.
    by apply digit_head_not_null.
Qed.

(** X4: no null sentinel survives the sanitizer. In the sanitized form
    of a record whose fields are of the ASCII range, none of the nine
    fields of the null normalization, nor the caller name, holds a string
    that, stripped and lowered, is one of [NULL_STRINGS] ("n/a",
    "unknown", "anonymous", the empty string, ...): such a field holds
    null or a string with content. *)
Theorem sanitized_fields_not_sentinel (c c' : call) (k s : string) :
  plain_fields c = true →
  _sanitize_call c = Ok c' → k ∈ nullable_keys → c' !! k = Some (JStr s) →
  null_like s = false.
Proof.
  intros _ Hrun Hk Hs. unfold nullable_keys, null_keys in Hk.
  rewrite elem_of_app, !elem_of_cons in Hk.
  destruct Hk as [[-> | [-> | [-> | [-> | [-> | [-> | [-> | [-> | [-> | Hk]]]]]]]]]
                  | [-> | Hk]]; try (by apply elem_of_nil in Hk).
  - by apply (state_field_stable c c').
  - rewrite (sanitize_nulls_only c c') in Hs by (done || rewrite !elem_of_cons; tauto).
    by apply nullify_str in Hs.
  - by apply (sanitize_country c c' Hrun).
  - destruct (sanitize_secondary c c' Hrun) as [H | [H | (l & H & Hl)]];
      rewrite H in Hs; try done.
    injection Hs as <-. by apply labels_not_null.
  - by apply (date_field_stable c c').
  - rewrite (sanitize_time _ _ Hrun) in Hs.
    apply on_str_nullify_str in Hs as (s0 & _ & _ & [[= Hf] | [[=] _]]).
    by apply time_value_not_null in Hf.
  - rewrite (sanitize_nulls_only c c') in Hs by (done || rewrite !elem_of_cons; tauto).
    by apply nullify_str in Hs.
  - rewrite (sanitize_nulls_only c c') in Hs by (done || rewrite !elem_of_cons; tauto).
    by apply nullify_str in Hs.
  - rewrite (sanitize_nulls_only c c') in Hs by (done || rewrite !elem_of_cons; tauto).
    by apply nullify_str in Hs.
  - rewrite (sanitize_name c c' Hrun) in Hs. by apply nullify_str in Hs.
Qed.

Lemma sanitized_fields_not_sentinel_witness : null_like "Salem" = false.
Proof.
  apply (sanitized_fields_not_sentinel
           (record [("city", JStr "Salem"); ("setting", JStr " N/A ")])
           (record [("call_type", JStr "Other");
                    ("caller_emotional_tone", JStr "matter-of-fact");
                    ("city", JStr "Salem");
                    ("involves_other_witnesses", JBool false);
                    ("setting", JNull)])
           "city").
  - vm_compute. reflexivity.
  - reflexivity.
  - unfold nullable_keys, null_keys. rewrite elem_of_app, !elem_of_cons. tauto.
  - reflexivity.
Defined.

(** The country after the rule that forces it *)
Lemma force_country_at c c1 :
  force_country c = Ok c1 →
  c1 !! "country"
  = match c !! "state_or_region" with
    | Some (JStr s) =>
        if Str.mem s US_REGIONS.*1 && negb (Str.is_empty s) then Some (JStr "USA")
        else c !! "country"
    | _ => c !! "country"
    end.
Proof.
  unfold force_country, Py.get. unfold_bind.
  generalize (US_REGIONS.*1). intros keys.
  destruct (c !! "state_or_region") as [[|b0|z|f|s|l|m]|] eqn:Hst;
    cbn [default from_option id Py.truthy Py.in_].
  all: try (repeat case_match; by intros [= <-]).
  destruct (Str.is_empty s); cbn [negb]; [rewrite andb_false_r; by intros [= <-]|].
  rewrite andb_true_r. destruct (Str.mem s keys); intros [= <-];
    [apply lookup_insert_eq | done].
Qed.

(** The country after the sanitizer *)
Lemma country_after c c' :
  _sanitize_call c = Ok c' →
  c' !! "country"
  = match c' !! "state_or_region" with
    | Some (JStr s) =>
        if Str.mem s US_REGIONS.*1 && negb (Str.is_empty s) then Some (JStr "USA")
        else nullify (c !! "country")
    | _ => nullify (c !! "country")
    end.
Proof.
  intros Hrun. pose proof Hrun as (c1 & c2 & c3 & H1 & H2 & H3 & ->)%sanitize_inv.
  through_rules H1 H2 H3.
  rewrite (force_country_at _ _ H1).
  rewrite (normalize_state_other _ "country"), (normalize_name_other _ "country") by done.
  rewrite (normalize_nulls_at _ "country") by in_null_keys.
  by rewrite (force_country_other _ _ "state_or_region" H1).
Qed.



(** *** The state tables and the shape of the date *)

Lemma str_lower_upper s : Str.lower (Str.upper s) = Str.lower s.
Proof.
  unfold Str.lower, Str.upper. induction s as [|a s IH]; simpl; [done|].
  by rewrite ChrFacts.lower_upper, IH.
Qed.

Lemma str_upper_lower s : Str.upper (Str.lower s) = Str.upper s.
Proof.
  unfold Str.lower, Str.upper. induction s as [|a s IH]; simpl; [done|].
  by rewrite ChrFacts.upper_lower, IH.
Qed.

(** The two tables of the state rule: no key is listed twice, no
    abbreviation is a null sentinel, no alias is an abbreviation, and every
    full name but that of the federal district is a key of [US_REGIONS]. *)
Lemma abbreviations_sound k full :
  (k, full) ∈ STATE_ABBREV_TO_FULL →
  Str.assoc k STATE_ABBREV_TO_FULL = Some full
  ∧ Str.mem (Str.lower k) NULL_STRINGS = false
  ∧ Str.is_empty full = false
  ∧ (full ≠ "District of Columbia" → Str.mem full US_REGIONS.*1 = true).
Proof.
  assert (Hall : forallb (fun kv =>
            match Str.assoc kv.1 STATE_ABBREV_TO_FULL with
            | Some v => String.eqb v kv.2
            | None => false
            end
            && negb (Str.mem (Str.lower kv.1) NULL_STRINGS)
            && negb (Str.is_empty kv.2)
            && (String.eqb kv.2 "District of Columbia" || Str.mem kv.2 US_REGIONS.*1))
          STATE_ABBREV_TO_FULL = true) by (vm_compute; reflexivity).
  rewrite forallb_forall in Hall. intros Hin%list_elem_of_In.
  specialize (Hall _ Hin). simpl in Hall.
  apply andb_true_iff in Hall as [[[H1 H2]%andb_true_iff H3]%andb_true_iff H4].
  apply negb_true_iff in H2, H3.
  destruct (Str.assoc k STATE_ABBREV_TO_FULL) as [v|]; [|done].
  apply String.eqb_eq in H1 as ->. repeat split; try done.
  intros Hne. apply orb_true_iff in H4 as [Heq%String.eqb_eq|H4]; done.
Qed.

Lemma aliases_sound k full :
  (k, full) ∈ STATE_ALIASES →
  Str.assoc (Str.upper k) STATE_ABBREV_TO_FULL = None
  ∧ Str.assoc k STATE_ALIASES = Some full
  ∧ Str.mem k NULL_STRINGS = false
  ∧ Str.is_empty full = false
  ∧ Str.mem full US_REGIONS.*1 = true.
Proof.
  assert (Hall : forallb (fun kv =>
            match Str.assoc (Str.upper kv.1) STATE_ABBREV_TO_FULL with
            | Some _ => false
            | None => true
            end
            && match Str.assoc kv.1 STATE_ALIASES with
               | Some v => String.eqb v kv.2
               | None => false
               end
            && negb (Str.mem kv.1 NULL_STRINGS)
            && negb (Str.is_empty kv.2)
            && Str.mem kv.2 US_REGIONS.*1)
          STATE_ALIASES = true) by (vm_compute; reflexivity).
  rewrite forallb_forall in Hall. intros Hin%list_elem_of_In.
  specialize (Hall _ Hin). simpl in Hall.
  apply andb_true_iff in Hall as [[[[H0 H1]%andb_true_iff H2]%andb_true_iff
                                     H3]%andb_true_iff H4].
  apply negb_true_iff in H2, H3.
  destruct (Str.assoc (Str.upper k) STATE_ABBREV_TO_FULL); [done|].
  destruct (Str.assoc k STATE_ALIASES) as [v|]; [|done].
  by apply String.eqb_eq in H1 as ->.
Qed.

(** X6: a state given by its postal abbreviation or by one of the aliases
    of the table is stored under its full name, in whatever letter case
    and with whatever white space around it the model wrote it; and the
    country of the record is then "USA", except for the federal district,
    which [US_REGIONS] does not list. *)
Theorem state_abbreviation_expanded (c c' : call) (s full : string) :
  _sanitize_call c = Ok c' →
  c !! "state_or_region" = Some (JStr s) →
  (Str.upper (Str.strip s), full) ∈ STATE_ABBREV_TO_FULL
  ∨ (Str.lower (Str.strip s), full) ∈ STATE_ALIASES →
  c' !! "state_or_region" = Some (JStr full)
  ∧ (full ≠ "District of Columbia" → c' !! "country" = Some (JStr "USA")).
Proof.
  intros Hrun Hs Htable.
  assert (Hfacts : null_like s = false ∧ state_value s = JStr full
                   ∧ Str.is_empty full = false
                   ∧ (full ≠ "District of Columbia" → Str.mem full US_REGIONS.*1 = true)).
  { destruct Htable as [(Ha & Hn & He & Hus)%abbreviations_sound
                       | (Hno & Ha & Hn & He & Hus)%aliases_sound].
    - split; [|split; [|done]].
      + unfold null_like. by rewrite <- str_lower_upper.
      + unfold state_value. by rewrite Ha.
    - rewrite str_upper_lower in Hno. split; [done|]. split; [|done].
      unfold state_value. by rewrite Hno, Ha. }
  destruct Hfacts as (Hnull & Hvalue & Hfull & Hus).
  assert (Hstate : c' !! "state_or_region" = Some (JStr full)).
  { rewrite (sanitize_state _ _ Hrun), Hs. unfold nullify, on_str.
    by rewrite Hnull, Hvalue. }
  split; [done|]. intros Hne.
  by rewrite (country_after _ _ Hrun), Hstate, (Hus Hne), Hfull.
Qed.

Lemma state_abbreviation_expanded_witness :
  record [("call_type", JStr "Other"); ("caller_emotional_tone", JStr "matter-of-fact");
          ("country", JStr "USA"); ("involves_other_witnesses", JBool false);
          ("state_or_region", JStr "Texas")] !! "state_or_region" = Some (JStr "Texas").
Proof.
  destruct (state_abbreviation_expanded
              (record [("state_or_region", JStr " tx ")])
              (record [("call_type", JStr "Other");
                       ("caller_emotional_tone", JStr "matter-of-fact");
                       ("country", JStr "USA"); ("involves_other_witnesses", JBool false);
                       ("state_or_region", JStr "Texas")])
              " tx " "Texas")
    as [Hstate _].
  - reflexivity.
  - reflexivity.
  - left. apply list_elem_of_In. vm_compute. tauto.
  - exact Hstate.
Defined.

(** What [^\d{4}-\d{2}-\d{2}$] matches *)
Lemma full_date_inv tv m :
  match_ re_full_date tv = Some m →
  ∃ y mo dd e, tv = y +:+ "-" +:+ mo +:+ "-" +:+ dd +:+ e
               ∧ Str.all Chr.is_digit y = true ∧ String.length y = 4
               ∧ two_digits mo = true ∧ two_digits dd = true ∧ at_eol e = true.
Proof.
  unfold match_. intros (st' & Hm & _)%rx_sound.
  unfold re_full_date, times in Hm. simpl in Hm.
  apply rmatch_cat in Hm as (s1 & [_ ->]%rmatch_bol & Hm).
  apply rmatch_cat in Hm as (s2 & (w1 & Hr1 & Hlo1 & Hhi1)%rmatch_rep & Hm).
  apply rmatch_cat in Hm as (s3 & Hl1%rmatch_lit & Hm).
  apply rmatch_cat in Hm as (s4 & (w2 & Hr2 & Hlo2 & Hhi2)%rmatch_rep & Hm).
  apply rmatch_cat in Hm as (s5 & Hl2%rmatch_lit & Hm).
  apply rmatch_cat in Hm as (s6 & (w3 & Hr3 & Hlo3 & Hhi3)%rmatch_rep & [He ->]%rmatch_eol).
  apply run_spec in Hr1 as (Hr1 & _ & _ & Hd1), Hr2 as (Hr2 & _ & _ & Hd2),
    Hr3 as (Hr3 & _ & _ & Hd3).
  apply eat_spec in Hl1 as (Hl1 & _), Hl2 as (Hl2 & _). simpl in Hr1. unfold d in *.
  exists w1, w2, w3, (rest s6). rewrite Hr1, Hl1, Hr2, Hl2, Hr3.
  specialize (Hhi1 4 eq_refl). specialize (Hhi2 2 eq_refl). specialize (Hhi3 2 eq_refl).
  repeat split; try done; try lia; (apply all_two_digits; [done | lia]).
Qed.

(** A date the rule leaves in place is a full date once stripped. *)
Lemma date_value_kept x : date_value x = None → iso_date (Str.strip x).
Proof.
  unfold date_value. pose proof (strip_last x) as Hlast.
  destruct (matched (match_ re_full_date (Str.strip x))) eqn:Hfull.
  - intros _.
    apply matched_some in Hfull
      as [m (y & mo & dd & e & Hx & Hy & Hly & Hmo & Hdd & He)%full_date_inv].
    assert (e = "") as ->.
    { apply (stripped_no_eol (y +:+ "-" +:+ mo +:+ "-" +:+ dd)); [|done].
      by rewrite !app_assoc_str, <- Hx. }
    rewrite app_empty_r in Hx. by exists y, mo, dd.
  - repeat case_match; done.
Qed.

Lemma iso_date_strip t : iso_date t → Str.strip t = t.
Proof.
  intros (y & mo & dd & -> & Hy & Hly & Hmo & Hdd).
  destruct (four_digits_cases y Hy Hly) as (y1 & y2 & y3 & y4 & -> & Hy1 & _).
  destruct (two_digits_cases dd Hdd) as (d1 & d2 & -> & _ & Hd2).
  destruct (two_digits_cases mo Hmo) as (m1 & m2 & -> & _ & _).
  apply strip_fix; rewrite !app_cons, !app_nil_l; simpl; by apply digit_not_space.
Qed.

(** X7: the date of a sanitized record has the shape of an ISO date, or is
    null. On a record whose fields are of the ASCII range: when the field
    held a string, it holds afterwards null or a string that, stripped, is
    four digits, two digits and two digits between hyphens; a string that already has this shape once stripped is
    kept as it was, white space included. The digits are not checked
    against the calendar. A date that is not a string is left as it
    is. *)
Theorem sanitized_date_shape (c c' : call) :
  plain_fields c = true →
  _sanitize_call c = Ok c' →
  match Py.get c "date_of_event" with
  | JStr x =>
      c' !! "date_of_event" = Some JNull
      ∨ ∃ t, c' !! "date_of_event" = Some (JStr t) ∧ iso_date (Str.strip t)
             ∧ (iso_date (Str.strip x) → t = x)
  | _ => c' !! "date_of_event" = c !! "date_of_event"
  end.
Proof.
  intros _ Hrun. rewrite (sanitize_date _ _ Hrun). unfold Py.get.
  destruct (c !! "date_of_event") as [[| | | |x| |]|] eqn:Hc; simpl; try done.
  unfold nullify, on_str. destruct (null_like x) eqn:Hnull; [by left|].
  destruct (date_value x) as [v|] eqn:Hv.
  - destruct (date_value_cases x) as [Hd | [Hd | (y & m & dd & Hd & Hy & Hly & Hm & Hdd)]];
      rewrite Hd in Hv; try done; injection Hv as <-; [by left|].
    right. eexists. split; [done|].
    assert (Hiso : iso_date (y +:+ "-" +:+ m +:+ "-" +:+ dd)) by (by exists y, m, dd).
    split; [by rewrite (iso_date_strip _ Hiso)|].
    intros (y0 & m0 & d0 & Hx & Hy0 & Hly0 & Hm0 & Hd0).
    destruct (full_date_stable y0 m0 d0 Hy0 Hly0 Hm0 Hd0) as [Hkept _].
    unfold date_value in Hkept, Hd. rewrite <- Hx, strip_strip in Hkept.
    destruct (matched (match_ re_full_date (Str.strip x))); [done|].
    repeat case_match; done.
  - right. exists x. split; [done|]. split; [by apply date_value_kept | done].
Qed.

Lemma sanitized_date_shape_witness :
  ∃ t, record [("call_type", JStr "Other"); ("caller_emotional_tone", JStr "matter-of-fact");
               ("date_of_event", JStr "1994-01-01");
               ("involves_other_witnesses", JBool false)] !! "date_of_event"
       = Some (JStr t)
       ∧ iso_date (Str.strip t).
Proof.
  pose proof (sanitized_date_shape
                (record [("date_of_event", JStr "the mid-94s")])
                (record [("call_type", JStr "Other");
                         ("caller_emotional_tone", JStr "matter-of-fact");
                         ("date_of_event", JStr "1994-01-01");
                         ("involves_other_witnesses", JBool false)])
                eq_refl eq_refl) as H.
  change (Py.get (record [("date_of_event", JStr "the mid-94s")]) "date_of_event")
    with (JStr "the mid-94s") in H.
  destruct H as [H | (t & H & Hiso & _)].
  - vm_compute in H. discriminate H.
  - exists t. split; [exact H | exact Hiso].
Defined.

(** *** When the sanitizer completes *)

Lemma force_country_completes c :
  completes (force_country c)
  = negb (Py.truthy (Py.get c "state_or_region")) || hashable (Py.get c "state_or_region").
Proof.
  unfold force_country. unfold_bind. generalize (US_REGIONS.*1). intros keys.
  destruct (Py.get c "state_or_region") as [|b0|z|f|s|l|m];
    cbn [Py.truthy Py.in_ hashable]; repeat case_match; done.
Qed.

Lemma validate_call_type_completes c :
  completes (validate_call_type c)
  = negb (Py.truthy (Py.get c "call_type")) || is_str (Py.get c "call_type").
Proof.
  assert (Hraise : ∀ v, (∀ s, v ≠ JStr s) →
            find_label v VALID_ENTITY_LABELS = Raise AttributeError).
  { intros v Hv. by apply (find_label_raises v "Bigfoot/Sasquatch"). }
  assert (Hempty : Str.mem "" VALID_ENTITY_LABELS = false) by (vm_compute; reflexivity).
  unfold validate_call_type, Py.or_. unfold_bind.
  destruct (Py.get c "call_type") as [|b|z|f|s|l|m] eqn:Hget;
    try (destruct (Py.truthy _) eqn:Ht;
         [ simpl; simpl in Ht; rewrite ?Ht; simpl; rewrite ?Hraise by done; done
         | simpl; simpl in Ht; rewrite ?Ht, ?Hempty; simpl; done ]).
  rewrite orb_true_r.
  destruct s as [|a s]; cbn [Py.truthy Str.is_empty negb Py.in_].
  - by rewrite Hempty.
  - rewrite find_label_str. repeat case_match; done.
Qed.

Lemma validate_secondary_completes c :
  completes (validate_secondary c)
  = is_null (Py.get c "call_type_secondary") || is_str (Py.get c "call_type_secondary").
Proof.
  assert (Hraise : ∀ v, (∀ s, v ≠ JStr s) →
            find_label v VALID_ENTITY_LABELS = Raise AttributeError).
  { intros v Hv. by apply (find_label_raises v "Bigfoot/Sasquatch"). }
  unfold validate_secondary. unfold_bind.
  destruct (Py.get c "call_type_secondary") as [|b|z|f|s|l|m] eqn:Hget;
    cbn [Py.in_ negb is_null is_str orb]; rewrite ?Hraise by done; try done.
  rewrite find_label_str. repeat case_match; done.
Qed.

(** The sanitizer completes on the records [sanitizable] describes. *)
Lemma sanitize_completes_spec (c : call) :
  completes (_sanitize_call c) = sanitizable c.
Proof.
  unfold sanitizable.
  set (c0 := normalize_name (normalize_nulls c)).
  assert (Hstate : ∀ p : json → bool, p JNull = true → (∀ s, p (JStr s) = true) →
            p (Py.get (normalize_state c0) "state_or_region")
            = p (Py.get c "state_or_region")).
  { intros p Hnull Hstr. unfold Py.get. rewrite normalize_state_at. unfold c0.
    rewrite normalize_name_other by done. rewrite normalize_nulls_at by in_null_keys.
    unfold nullify, on_str.
    destruct (c !! "state_or_region") as [[| | | |s| |]|]; simpl; try done.
    destruct (null_like s); simpl; [by rewrite Hnull, Hstr|].
    rewrite Hstr. unfold state_value. repeat case_match; by rewrite ?Hnull, ?Hstr. }
  unfold _sanitize_call. unfold_bind. fold c0.
  pose proof (force_country_completes (normalize_state c0)) as Hfc.
  rewrite (Hstate (fun v => negb (Py.truthy v) || hashable v)) in Hfc
    by (done || intros; apply orb_true_r).
  rewrite <- Hfc.
  destruct (force_country (normalize_state c0)) as [c1|] eqn:H1; [|done].
  assert (Hct : Py.get c1 "call_type" = Py.get c "call_type").
  { apply get_other. rewrite (force_country_other _ _ _ H1) by done. unfold c0.
    rewrite normalize_state_other, normalize_name_other, normalize_nulls_other; try done.
    unfold null_keys. rewrite !not_elem_of_cons. repeat split; try done. apply not_elem_of_nil. }
  pose proof (validate_call_type_completes c1) as Hvc. rewrite Hct in Hvc.
  cbn [completes andb]. rewrite <- Hvc.
  destruct (validate_call_type c1) as [c2|] eqn:H2; [|done].
  assert (Hct2 : c2 !! "call_type_secondary" = nullify (c !! "call_type_secondary")).
  { rewrite (validate_call_type_other _ _ _ H2), (force_country_other _ _ _ H1) by done.
    unfold c0. rewrite normalize_state_other, normalize_name_other by done.
    by rewrite normalize_nulls_at by in_null_keys. }
  pose proof (validate_secondary_completes c2) as Hvs.
  cbn [completes andb].
  assert (Hsame : is_null (Py.get c2 "call_type_secondary")
                  || is_str (Py.get c2 "call_type_secondary")
                  = is_null (Py.get c "call_type_secondary")
                    || is_str (Py.get c "call_type_secondary")).
  { unfold Py.get. rewrite Hct2. unfold nullify, on_str.
    destruct (c !! "call_type_secondary") as [[| | | |s| |]|]; simpl; try done.
    by destruct (null_like s). }
  rewrite <- Hsame, <- Hvs.
  by destruct (validate_secondary c2).
Qed.

(** X9: the sanitizer runs to completion exactly on the records in which
    the state or region is not a list or dict with elements, the category
    is a string or a falsy value (null, missing, zero, false, an empty list
    or dict), and the secondary category is a string, null or missing.
    On every other record it raises; what the remaining fields hold never
    makes it raise. *)
Theorem sanitize_completes_iff (c : call) :
  completes (_sanitize_call c) = sanitizable c.
Proof. apply sanitize_completes_spec. Qed.

(** The records of the examples: one the sanitizer takes, three it
    refuses *)
Example sanitize_completes_examples :
  completes (_sanitize_call (record [("call_type", JBool false); ("city", JInt 7)])) = true
  ∧ completes (_sanitize_call (record [("call_type", JBool true)])) = false
  ∧ completes (_sanitize_call (record [("call_type_secondary", JInt 0)])) = false
  ∧ completes (_sanitize_call (record [("state_or_region", JArr [JNull])])) = false.
Proof. vm_compute. repeat split; reflexivity. Qed.

End FieldRules.

(** ** The chunker: the size and the number of the chunks *)

Module ChunkSizes.

Import Chunker ChunkSpec ChunkerFacts.

Lemma len_slice_to best remaining :
  (0 ≤ best ≤ len remaining)%Z → len (Str.slice_to best remaining) = best.
Proof.
  intros Hb. unfold len, Str.slice_to, Str.slice_bound in *.
  destruct (Z.leb_spec 0 best); [|lia]. rewrite length_take. lia.
Qed.

(** The loop cuts full chunks, and leaves at most one shorter chunk at
    the end. *)
Lemma chunk_loop_sizes fuel max_chars chunks remaining out :
  (1 ≤ max_chars)%Z → Forall (full_chunk max_chars) chunks →
  chunk_loop fuel max_chars chunks remaining = Some out →
  ∃ cut tail, out = cut ++ tail ∧ Forall (full_chunk max_chars) cut
              ∧ (tail = [] ∨ ∃ r, tail = [r] ∧ r ≠ "" ∧ (len r ≤ max_chars)%Z).
Proof.
  intros Hmax. revert chunks remaining.
  assert (Hend : ∀ chunks remaining,
    Forall (full_chunk max_chars) chunks → (max_chars <? len remaining)%Z = false →
    ∃ cut tail,
      (if Str.is_empty remaining then chunks else chunks ++ [remaining]) = cut ++ tail
      ∧ Forall (full_chunk max_chars) cut
      ∧ (tail = [] ∨ ∃ r, tail = [r] ∧ r ≠ "" ∧ (len r ≤ max_chars)%Z)).
  { intros chunks remaining Hall Hlt%Z.ltb_ge.
    destruct remaining as [|a r]; simpl.
    - exists chunks, []. rewrite app_nil_r. auto.
    - exists chunks, [String a r]. split; [done|]. split; [done|]. right. by eexists. }
  induction fuel as [|fuel IH]; intros chunks remaining Hall; simpl.
  - destruct (max_chars <? len remaining)%Z eqn:Hlt; [done|].
    intros [= <-]. by apply Hend.
  - destruct (max_chars <? len remaining)%Z eqn:Hlt; [|intros [= <-]; by apply Hend].
    apply IH. apply Forall_app. split; [done|]. apply Forall_singleton.
    apply Z.ltb_lt in Hlt.
    pose proof (split_point_bounds max_chars remaining Hmax) as Hb.
    unfold full_chunk. rewrite len_slice_to by lia.
    destruct (split_point_cases max_chars remaining) as [->|(start & -> & Hw)]; [lia|].
    unfold in_window in Hw. apply andb_true_iff in Hw as [H1%Z.ltb_lt H2%Z.ltb_lt]. lia.
Qed.

Lemma length_concat l :
  Z.of_nat (String.length (Str.concat l)) = foldr (fun ch n => (len ch + n)%Z) 0%Z l.
Proof.
  induction l as [|x l IH]; simpl; [done|].
  rewrite length_app_str, Nat2Z.inj_add, IH. done.
Qed.

Lemma weight_app l1 l2 :
  foldr (fun ch n => (len ch + n)%Z) 0%Z (l1 ++ l2)
  = (foldr (fun ch n => (len ch + n)%Z) 0%Z l1
     + foldr (fun ch n => (len ch + n)%Z) 0%Z l2)%Z.
Proof. induction l1 as [|x l1 IH]; simpl; [done|]. rewrite IH. lia. Qed.

Lemma weight_nonneg l : (0 ≤ foldr (fun ch n => (len ch + n)%Z) 0%Z l)%Z.
Proof. induction l as [|x l IH]; simpl; [done|]. unfold len at 1. lia. Qed.

Lemma full_chunks_weigh max_chars l :
  Forall (full_chunk max_chars) l →
  (Z.of_nat (length l) * max_chars ≤ 2 * foldr (fun ch n => (len ch + n)%Z) 0%Z l)%Z.
Proof.
  induction 1 as [|x l [Hx _] _ IH]; simpl; [lia|]. lia.
Qed.

(** X10: no chunk exceeds the budget, and every chunk but the last is
    longer than half of it. For a budget of at least one character, each
    chunk [_chunk_transcript] returns has at most [max_chars] characters;
    each chunk before the last has more than [max_chars / 2]; no chunk of a
    text with content is empty; and so a text of [n] characters gives at
    most [2 n / max_chars + 1] chunks, one model call each. *)
Theorem chunk_sizes (fuel : nat) (text : string) (max_chars : Z) (chunks : list string) :
  (1 ≤ max_chars)%Z → _chunk_transcript fuel text max_chars = Some chunks →
  Forall (fun chunk => (len chunk ≤ max_chars)%Z) chunks
  ∧ (∀ before last, chunks = before ++ [last] → Forall (full_chunk max_chars) before)
  ∧ (text ≠ "" → Forall (fun chunk => chunk ≠ "") chunks)
  ∧ ((Z.of_nat (length chunks) - 1) * max_chars ≤ 2 * len text)%Z.
Proof.
  intros Hmax. unfold _chunk_transcript.
  destruct (Z.leb_spec (len text) max_chars) as [Hshort|Hlong].
  { intros [= <-]. split; [by apply Forall_singleton|]. split; [|split].
    - intros before last Heq. destruct before as [|x [|y before]]; try done.
    - intros Hne. by apply Forall_singleton.
    - simpl. unfold len. lia. }
  intros Hrun. pose proof (chunk_loop_concat _ _ _ _ _ Hrun) as Hcat.
  cbn [Str.concat] in Hcat. rewrite app_nil_l in Hcat.
  apply chunk_loop_sizes in Hrun as (cut & tail & -> & Hcut & Htail); [|done..].
  assert (Hfull : ∀ chunk, full_chunk max_chars chunk → chunk ≠ "" ∧ (len chunk ≤ max_chars)%Z).
  { intros chunk [H1 H2]. split; [|done]. intros ->. unfold len in H1. simpl in H1. lia. }
  split; [|split; [|split]].
  - apply Forall_app. split.
    + eapply Forall_impl; [exact Hcut|]. intros chunk Hc. by apply Hfull.
    + destruct Htail as [->|(r & -> & _ & Hr)]; [done | by apply Forall_singleton].
  - intros before last Heq. destruct Htail as [->|(r & -> & _)].
    + rewrite app_nil_r in Heq. subst cut. by apply Forall_app in Hcut as [? _].
    + by apply app_inj_tail in Heq as [<- _].
  - intros _. apply Forall_app. split.
    + eapply Forall_impl; [exact Hcut|]. intros chunk Hc. by apply Hfull.
    + destruct Htail as [->|(r & -> & Hr & _)]; [done | by apply Forall_singleton].
  - assert (Hsum : (Z.of_nat (length cut) * max_chars ≤ 2 * len text)%Z).
    { pose proof (full_chunks_weigh _ _ Hcut) as Hw. rewrite <- Hcat.
      unfold len at 1. rewrite length_concat.
      rewrite weight_app. pose proof (weight_nonneg tail).
      lia. }
    rewrite length_app. destruct Htail as [->|(r & -> & _)]; simpl; lia.
Qed.

Lemma chunk_sizes_witness :
  Forall (fun chunk => (len chunk ≤ 4)%Z) ["Now "; "folk"; "s"].
Proof.
  refine (proj1 (chunk_sizes 9 "Now folks" 4 ["Now "; "folk"; "s"] _ _)).
  - lia.
  - vm_compute. reflexivity.
Defined.

End ChunkSizes.

(** ** The verifier: when it completes, and what it writes *)

Module VerifierRules.

Import Verifier VerifierSpec VerifierLog FieldSpec SanitizerSpec SanitizerFacts
       VerifierClaims.

Lemma field_completes c k : completes (field c k) = readable (Py.get c k).
Proof.
  unfold field, Py.or_, readable.
  destruct (Py.get c k) as [|b|z|f|s|l|m]; simpl; try done.
  - by destruct b.
  - by destruct (_ =? _)%Z.
  - by destruct (Py.float_is_zero f).
  - rewrite orb_true_r. by destruct s.
  - by destruct l.
  - by destruct (size m =? 0).
Qed.

Lemma verify_call_completes t c : completes (verify_call t c) = verifiable c.
Proof.
  unfold verifiable. cbn [forallb]. rewrite <- !field_completes, andb_true_r.
  unfold verify_call, evidence_of. unfold_bind.
  destruct (field c "caller_intro_snippet"); [|done].
  destruct (field c "caller_name"); [|done].
  destruct (field c "state_or_region"); [|done].
  by destruct (field c "description").
Qed.

(** X11: the verifier completes exactly when, in every record, the intro
    snippet, the caller name, the state or region and the description are
    each a string or a falsy value (null, missing, zero, false, empty). A
    number, [true] or a list or dict with elements in one of them makes
    [_verify_calls] raise, which [parse_transcripts] does not catch. *)
Theorem verify_completes_iff (calls : list call) (transcript : string) :
  completes (_verify_calls calls transcript) = forallb verifiable calls.
Proof.
  unfold _verify_calls. generalize (Str.lower transcript) as t. intros t.
  induction calls as [|c calls IH]; [done|].
  cbn [verify_all forallb]. unfold_bind.
  rewrite <- (verify_call_completes t c), <- IH.
  destruct (verify_call t c); [|done].
  by destruct (verify_all t calls).
Qed.

(** The sanitizer leaves the caller name as it is when it is not a string:
    a sanitized record can still stop the verifier. *)
Example sanitized_record_stops_verifier :
  field_after "caller_name" (record [("caller_name", JInt 7)]) = Ok (Some (JInt 7))
  ∧ completes (_verify_calls [record [("caller_name", JInt 7)]] "") = false.
Proof. vm_compute. split; reflexivity. Qed.

Lemma join_head sep x l : ∃ rest, Str.join sep (x :: l) = x +:+ rest.
Proof.
  destruct l as [|y l]; simpl.
  - exists "". by rewrite app_empty_r.
  - by eexists.
Qed.

Lemma evidence_in_tags t c evidence x :
  evidence_of t c = Ok evidence → x ∈ evidence → x ∈ evidence_tags.
Proof.
  unfold evidence_of. unfold_bind.
  destruct (field c "caller_intro_snippet"); [|done].
  destruct (field c "caller_name"); [|done].
  destruct (field c "state_or_region"); [|done].
  destruct (field c "description"); [|done].
  intros [= <-]. rewrite !elem_of_app. unfold evidence_tags. rewrite !elem_of_cons.
  intros [[?|?]%check_snippet_tags | [?%check_found_tags | [?%check_found_tags
          | ?%check_desc_tags]]]; tauto.
Qed.

(** X12: the verifier writes its verdict and nothing else. A verified
    record differs from the record given in the two fields [verified] and
    [verification_evidence] only; [verified] is a boolean, and the evidence
    is the text "none" exactly when [verified] is false, and otherwise
    begins with one of the five tags of the checks. *)
Theorem verify_writes_verdict_only (c c' : call) (t_lower : string) :
  verify_call t_lower c = Ok c' →
  (∀ k, k ≠ "verified" → k ≠ "verification_evidence" → c' !! k = c !! k)
  ∧ ∃ verified evidence,
      c' !! "verified" = Some (JBool verified)
      ∧ c' !! "verification_evidence" = Some (JStr evidence)
      ∧ (verified = false ↔ evidence = "none")
      ∧ (verified = true →
         ∃ tag rest, tag ∈ evidence_tags ∧ evidence = tag +:+ rest).
Proof.
  unfold verify_call. unfold_bind.
  destruct (evidence_of t_lower c) as [ev|] eqn:Hev; [|done].
  intros [= <-]. split.
  { intros k H1 H2. by rewrite !lookup_insert_ne. }
  eexists _, _. split; [rewrite lookup_insert_ne by done; apply lookup_insert_eq|].
  split; [apply lookup_insert_eq|].
  destruct ev as [|x ev]; [by split|].
  assert (Hx : x ∈ evidence_tags) by (eapply evidence_in_tags; [done | by left]).
  destruct (join_head "," x ev) as [rest Hrest]. rewrite Hrest. split.
  - split; [done|]. intros Hnone. exfalso. revert Hnone.
    unfold evidence_tags in Hx. rewrite !elem_of_cons in Hx.
    destruct Hx as [-> | [-> | [-> | [-> | [-> | ?%elem_of_nil]]]]]; done.
  - intros _. by exists x, rest.
Qed.

Lemma verify_writes_verdict_only_witness :
  record [("caller_name", JStr "Jones"); ("verified", JBool true);
          ("verification_evidence", JStr "name_found")] !! "caller_name"
  = record [("caller_name", JStr "Jones")] !! "caller_name".
Proof.
  refine (proj1 (verify_writes_verdict_only
                   (record [("caller_name", JStr "Jones")])
                   (record [("caller_name", JStr "Jones"); ("verified", JBool true);
                            ("verification_evidence", JStr "name_found")])
                   (Str.lower "Mister Jones called in") _) "caller_name" _ _).
  - reflexivity.
  - discriminate.
  - discriminate.
Defined.

(** *** The summary *)

Lemma verify_all_app t l1 l2 out :
  verify_all t (l1 ++ l2) = Ok out →
  ∃ out1 out2, out = out1 ++ out2 ∧ verify_all t l1 = Ok out1
               ∧ verify_all t l2 = Ok out2 ∧ length out1 = length l1.
Proof.
  revert out; induction l1 as [|c l1 IH]; intros out; simpl.
  - intros H. by exists [], out.
  - unfold_bind. destruct (verify_call t c) as [c'|]; [|done].
    destruct (verify_all t (l1 ++ l2)) as [rest|] eqn:Hrest; [|done].
    intros [= <-]. destruct (IH rest eq_refl) as (o1 & o2 & -> & H1 & H2 & Hlen).
    exists (c' :: o1), o2. rewrite H1. simpl. by rewrite Hlen.
Qed.

Lemma take_filter_reaches (p : call → bool) before c after :
  length before < 3 → p c = true →
  c ∈ take 3 (List.filter p (before ++ c :: after)).
Proof.
  intros Hlen Hp. rewrite List.filter_app. simpl. rewrite Hp.
  pose proof (List.filter_length_le p before) as Hle.
  generalize dependent (List.filter p before). intros l Hl.
  destruct l as [|x1 [|x2 [|x3 l]]]; simpl in *; try lia;
    rewrite !elem_of_cons; tauto.
Qed.

(** X13: a record with no evidence and no usable description breaks the
    summary. When one of the first three records has a description that
    cannot be sliced (null, a number, a boolean, a dict) and no snippet,
    name or state, [_verify_calls] raises: either in its loop, on a
    description that is truthy, or, every record verified, in the warning
    it logs for the unverified record. *)
Theorem blank_record_breaks_summary (before after : list call) (c : call)
    (transcript : string) :
  length before < 3 →
  description_head c = None →
  Py.truthy (Py.get c "caller_intro_snippet") = false →
  Py.truthy (Py.get c "caller_name") = false →
  Py.truthy (Py.get c "state_or_region") = false →
  _verify_calls_logged (before ++ c :: after) transcript = None.
Proof.
  intros Hlen Hdesc Hsnip Hname Hstate.
  unfold _verify_calls_logged, _verify_calls.
  destruct (verify_all _ _) as [out|] eqn:Hrun; [|done].
  apply verify_all_app in Hrun as (out1 & out2 & -> & _ & Hrun & Hlen1).
  simpl in Hrun. unfold_bind.
  destruct (verify_call (Str.lower transcript) c) as [c'|] eqn:Hc; [|done].
  destruct (verify_all (Str.lower transcript) after) as [out3|]; [|done].
  injection Hrun as <-.
  assert (Hfalsy : ∀ k, Py.truthy (Py.get c k) = false → field c k = Ok "").
  { intros k Hk. unfold field, Py.or_. by rewrite Hk. }
  assert (Hc' : c' !! "verified" = Some (JBool false)
                ∧ c' !! "description" = c !! "description").
  { revert Hc. unfold verify_call, evidence_of. unfold_bind.
    rewrite (Hfalsy _ Hsnip), (Hfalsy _ Hname), (Hfalsy _ Hstate).
    destruct (Py.truthy (Py.get c "description")) eqn:Hd.
    - unfold field, Py.or_. rewrite Hd. unfold description_head, Py.get in *.
      destruct (c !! "description") as [[| | | |s|l|]|]; done.
    - rewrite (Hfalsy _ Hd).
      change (check_snippet (Str.lower transcript) "" ++
              check_found "name_found" (Str.lower transcript) "" ++
              check_found "state_found" (Str.lower transcript) "" ++
              check_desc (Str.lower transcript) "") with (@nil string).
      intros [= <-]. split; [|by rewrite !lookup_insert_ne].
      rewrite lookup_insert_ne by done. apply lookup_insert_eq. }
  destruct Hc' as [Hv Hd].
  assert (Hin : c' ∈ take 3 (List.filter unverified (out1 ++ c' :: out3))).
  { apply take_filter_reaches; [lia|]. unfold unverified, Py.get. by rewrite Hv. }
  destruct (summary_completes _) eqn:Hsum; [|done].
  unfold summary_completes in Hsum. rewrite forallb_forall in Hsum.
  apply list_elem_of_In, Hsum in Hin.
  unfold description_head in *. rewrite Hd in Hin. by rewrite Hdesc in Hin.
Qed.

Lemma blank_record_breaks_summary_witness :
  _verify_calls_logged ([] ++ record [("description", JNull)] :: []) "A light" = None.
Proof.
  apply (blank_record_breaks_summary [] [] (record [("description", JNull)]) "A light").
  - simpl. lia.
  - reflexivity.
  - reflexivity.
  - reflexivity.
  - reflexivity.
Defined.

(** With a description that is a string, the same record passes. *)
Example blank_record_with_text_passes :
  _verify_calls_logged [record [("description", JStr "")]] "A light"
  = Some [record [("description", JStr ""); ("verified", JBool false);
                  ("verification_evidence", JStr "none")]].
Proof. reflexivity. Qed.

End VerifierRules.

(** ** The extractor: a chunk that is lost, a chunk that is kept *)

Module ExtractorRules.

Import Extractor ExtractorSpec Sanitizer SanitizerSpec FieldSpec SanitizerFacts FieldRules.

Lemma stamp_other ep c k :
  k ∉ ["season"; "episode"; "episode_title"; "release_date"] →
  stamp ep c !! k = c !! k.
Proof.
  rewrite !not_elem_of_cons. intros (? & ? & ? & ? & _).
  unfold stamp. by rewrite !lookup_insert_ne.
Qed.

Lemma stamp_stamped ep c : stamped ep (stamp ep c).
Proof.
  unfold stamped, stamp. repeat split.
  - rewrite !lookup_insert_ne by done. apply lookup_insert_eq.
  - rewrite !lookup_insert_ne by done. apply lookup_insert_eq.
  - rewrite !lookup_insert_ne by done. apply lookup_insert_eq.
  - apply lookup_insert_eq.
Qed.

(** The stamps are no field of the sanitizer. *)
Lemma sanitizable_stamp ep c : sanitizable (stamp ep c) = sanitizable c.
Proof.
  unfold sanitizable, Py.get.
  rewrite !stamp_other; [done|..]; rewrite !not_elem_of_cons;
    repeat split; try done; apply not_elem_of_nil.
Qed.

Lemma sanitize_keeps_stamps ep c c' :
  _sanitize_call (stamp ep c) = Ok c' → stamped ep c'.
Proof.
  intros Hrun. destruct (stamp_stamped ep c) as (H1 & H2 & H3 & H4).
  assert (Hout : ∀ k, k ∈ ["season"; "episode"; "episode_title"; "release_date"] →
                      k ∉ sanitized_keys).
  { intros k Hk Hin%StrFacts.mem_spec. rewrite !elem_of_cons in Hk.
    destruct Hk as [-> | [-> | [-> | [-> | ?%elem_of_nil]]]]; try done;
      by vm_compute in Hin. }
  unfold stamped.
  rewrite !(sanitize_other _ _ _ Hrun) by (apply Hout; rewrite !elem_of_cons; tauto).
  done.
Qed.

Section Loop.

Context {W : Type}.
Variable _llm_call : W → string → string → string → string → W * (raised + string).
Variable json_loads : string → string + json.
Variable str : json → string.
Variable str_exn : exn → string.
Variable PARSE_SYSTEM_PROMPT : string.
Variable _resolve_timestamps : option (list call → raised + list call).
Variables model_name provider : string.
Variable ep : episode.

Local Abbreviation turn :=
  (process_chunk _llm_call json_loads str str_exn PARSE_SYSTEM_PROMPT
                 _resolve_timestamps model_name provider ep).

Lemma sanitize_each_fails (good : list call) (bad : call) (rest : list json) e :
  Forall (fun c => sanitizable c = true) good →
  _sanitize_call (stamp ep bad) = Raise e →
  sanitize_each str_exn ep ((JObj <$> good) ++ JObj bad :: rest)
  = inl (OtherException (str_exn e)).
Proof.
  intros Hgood Hbad.
  induction Hgood as [|c good Hc _ IH]; cbn [fmap list_fmap app sanitize_each].
  - by rewrite Hbad.
  - rewrite <- (sanitizable_stamp ep), <- sanitize_completes_spec in Hc.
    destruct (_sanitize_call (stamp ep c)); [|done]. cbn [lift]. by rewrite IH.
Qed.

(** X14: one record the sanitizer cannot take loses the whole chunk. When
    the answer for a chunk decodes to a list of records of which one makes
    the sanitizer raise, no record of the chunk is kept, not even those
    sanitized before it: the turn logs one "API error" line with the text
    of the exception, sleeps five seconds and then the 1.5 seconds that
    end every turn, and leaves [episode_calls] as it was. *)
Theorem sanitizer_failure_loses_chunk (st : state) (chunk : string) (w : W)
    (raw : string) (good : list call) (bad : call) (rest : list json) :
  _llm_call (world st) model_name PARSE_SYSTEM_PROMPT (user_content str ep chunk) provider
    = (w, inr raw) →
  json_loads (strip_fence raw) = inr (JArr ((JObj <$> good) ++ JObj bad :: rest)) →
  Forall (fun c => sanitizable c = true) good →
  sanitizable bad = false →
  ∃ e, _sanitize_call (stamp ep bad) = Raise e
       ∧ episode_calls (turn st chunk) = episode_calls st
       ∧ trace (turn st chunk)
         = trace st ++
             [LogError (Str.concat ["API error for "; Str.take 50 (ep_name ep); ": ";
                                    str_exn e]);
              Sleep 5000; Sleep 1500]
       ∧ world (turn st chunk) = w.
Proof.
  intros Hanswer Hloads Hgood Hbad.
  rewrite <- (sanitizable_stamp ep), <- sanitize_completes_spec in Hbad.
  destruct (_sanitize_call (stamp ep bad)) as [|e] eqn:Hrun; [done|].
  exists e. split; [done|].
  unfold process_chunk. rewrite Hanswer. unfold decode. rewrite Hloads.
  cbn [sanitize_calls]. rewrite (sanitize_each_fails good bad rest e Hgood Hrun).
  unfold emit. cbn [episode_calls trace world]. by rewrite <- !app_assoc.
Qed.

Lemma sanitize_each_stamped (items : list json) (cs : list call) :
  sanitize_each str_exn ep items = inr cs →
  Forall2 (fun item c' => ∃ c, item = JObj c ∧ _sanitize_call (stamp ep c) = Ok c') items cs.
Proof.
  revert cs; induction items as [|item items IH]; intros cs; cbn [sanitize_each].
  - intros [= <-]. constructor.
  - destruct item as [| | | | | |c]; try done.
    destruct (_sanitize_call (stamp ep c)) as [c'|] eqn:Hc; [|done]. cbn [lift].
    destruct (sanitize_each str_exn ep items) as [|cs']; [done|].
    intros [= <-]. constructor; [by exists c | by apply IH].
Qed.

(** X15: a chunk that decodes and sanitizes is kept whole, stamped with
    its episode. When the answer for a chunk decodes to a list on which the
    sanitizer completes, and the episode has no time index, the turn adds
    one record per element of the list to [episode_calls], in order, logs
    nothing and sleeps 1.5 seconds; each record added is the sanitized form
    of its element and carries the season, episode number, title and
    release date of the episode, whatever the model had put in these
    fields. *)
Theorem sanitized_chunk_is_stamped (st : state) (chunk : string) (w : W)
    (raw : string) (items : list json) (cs : list call) :
  _resolve_timestamps = None →
  _llm_call (world st) model_name PARSE_SYSTEM_PROMPT (user_content str ep chunk) provider
    = (w, inr raw) →
  json_loads (strip_fence raw) = inr (JArr items) →
  sanitize_each str_exn ep items = inr cs →
  episode_calls (turn st chunk) = episode_calls st ++ cs
  ∧ trace (turn st chunk) = trace st ++ [Sleep 1500]
  ∧ Forall2 (fun item c' => ∃ c, item = JObj c ∧ _sanitize_call (stamp ep c) = Ok c')
            items cs
  ∧ Forall (stamped ep) cs.
Proof.
  intros Hnone Hanswer Hloads Hsan.
  unfold process_chunk. rewrite Hanswer. unfold decode. rewrite Hloads.
  cbn [sanitize_calls]. rewrite Hsan, Hnone. unfold emit. cbn [episode_calls trace world].
  split; [done|]. split; [done|].
  pose proof (sanitize_each_stamped items cs Hsan) as Hall. split; [done|].
  clear -Hall. induction Hall as [|item c' items cs (c & _ & Hc) _ IH]; constructor; [|done].
  by apply (sanitize_keeps_stamps ep c).
Qed.

End Loop.

(** A chunk of two records whose second has a number for category *)
Lemma sanitizer_failure_loses_chunk_witness :
  let backend (w : nat) (_ _ _ _ : string) : nat * (raised + string) := (S w, inr "[]") in
  let loads (_ : string) : string + json :=
    inr (JArr ((JObj <$> [record [("call_type", JStr "Dogman")]])
               ++ JObj (record [("call_type", JInt 5)]) :: [])) in
  let ep := Episode "Episode 12" "2024-01-01" None None in
  let st' := process_chunk backend loads (fun _ => "") (fun _ => "AttributeError") "" None
               "m" "p" ep (State 0 [] []) "chunk" in
  episode_calls st' = [].
Proof.
  intros backend loads ep st'.
  destruct (sanitizer_failure_loses_chunk backend loads (fun _ => "")
              (fun _ => "AttributeError") "" None "m" "p" ep (State 0 [] []) "chunk" 1 "[]"
              [record [("call_type", JStr "Dogman")]] (record [("call_type", JInt 5)]) [])
    as (e & _ & Hcalls & _).
  - reflexivity.
  - reflexivity.
  - repeat constructor.
  - reflexivity.
  - exact Hcalls.
Defined.

Lemma sanitized_chunk_is_stamped_witness :
  let backend (w : nat) (_ _ _ _ : string) : nat * (raised + string) := (S w, inr "[]") in
  let loads (_ : string) : string + json :=
    inr (JArr [JObj (record [("episode_title", JStr "made up")])]) in
  let ep := Episode "Episode 12" "2024-01-01" None None in
  let c' := record [("call_type", JStr "Other");
                    ("caller_emotional_tone", JStr "matter-of-fact");
                    ("episode", JNull); ("episode_title", JStr "Episode 12");
                    ("involves_other_witnesses", JBool false);
                    ("release_date", JStr "2024-01-01"); ("season", JNull)] in
  Forall (stamped ep) [c'].
Proof.
  intros backend loads ep c'.
  refine (proj2 (proj2 (proj2 (sanitized_chunk_is_stamped backend loads (fun _ => "")
            (fun _ => "") "" None "m" "p" ep (State 0 [] []) "chunk" 1 "[]"
            [JObj (record [("episode_title", JStr "made up")])] [c'] _ _ _ _)))).
  - reflexivity.
  - reflexivity.
  - reflexivity.
  - reflexivity.
Defined.

End ExtractorRules.

(** ** Numbering and export *)

Module WorkbookRules.

Import Workbook WorkbookSpec Sanitizer SanitizerSpec FieldSpec StrFacts SanitizerFacts FieldFacts
       Idempotence FieldRules.

Lemma number_calls_app k l1 l2 :
  number_calls k (l1 ++ l2)
  = let '(k1, out1) := number_calls k l1 in
    let '(k2, out2) := number_calls k1 l2 in
    (k2, out1 ++ out2).
Proof.
  revert k; induction l1 as [|c l1 IH]; intros k; simpl.
  - by destruct (number_calls k l2).
  - rewrite IH. destruct (number_calls (k + 1) l1) as [k1 out1].
    by destruct (number_calls k1 l2).
Qed.

Lemma number_calls_at k calls :
  (number_calls k calls).1 = (k + Z.of_nat (length calls))%Z
  ∧ length (number_calls k calls).2 = length calls
  ∧ ∀ i c', (number_calls k calls).2 !! i = Some c' →
            ∃ c, calls !! i = Some c
                 ∧ c' = <["instance" := JInt (k + Z.of_nat i + 1)]> c.
Proof.
  revert k; induction calls as [|c calls IH]; intros k; simpl.
  - split; [lia|]. split; [done|]. by intros i c' ?.
  - destruct (IH (k + 1)%Z) as (H1 & H2 & H3).
    destruct (number_calls (k + 1) calls) as [n out]. simpl in *.
    split; [lia|]. split; [by rewrite H2|].
    intros [|i] c'; simpl.
    + intros [= <-]. exists c. split; [done|]. do 2 f_equal. lia.
    + intros Hi. destruct (H3 i c' Hi) as (c0 & Hc0 & ->). exists c0. split; [done|].
      do 2 f_equal. lia.
Qed.

(** X16: the instance numbers run on. Numbering a list of records from
    the counter [k] gives the record at position [i] (from zero) the
    instance [k + i + 1], whatever instance it carried, changes no other
    field, and returns the counter [k] plus the number of records; and
    numbering two lists one after the other, the second from where the
    first ended, is numbering their concatenation. From a counter of zero
    the instances of the whole run are 1, 2, 3, ... in the order of the
    records, cached episodes included. *)
Theorem instances_run_on (k : Z) (calls more : list call) :
  (number_calls k calls).1 = (k + Z.of_nat (length calls))%Z
  ∧ length (number_calls k calls).2 = length calls
  ∧ (∀ i c', (number_calls k calls).2 !! i = Some c' →
       c' !! "instance" = Some (JInt (k + Z.of_nat i + 1))
       ∧ ∃ c, calls !! i = Some c ∧ ∀ key, key ≠ "instance" → c' !! key = c !! key)
  ∧ (number_calls k (calls ++ more)).2
    = (number_calls k calls).2 ++ (number_calls (number_calls k calls).1 more).2.
Proof.
  destruct (number_calls_at k calls) as (H1 & H2 & H3).
  split; [done|]. split; [done|]. split.
  - intros i c' Hi. destruct (H3 i c' Hi) as (c & Hc & ->).
    split; [apply lookup_insert_eq|]. exists c. split; [done|].
    intros key Hkey. by rewrite lookup_insert_ne.
  - rewrite number_calls_app. destruct (number_calls k calls) as [k1 out1]. simpl.
    by destruct (number_calls k1 more).
Qed.

Lemma mem_assoc s d :
  Str.mem s d.*1 = match Str.assoc s d with Some _ => true | None => false end.
Proof.
  induction d as [|[k v] d IH]; [done|].
  change (Str.assoc s ((k, v) :: d)) with (if String.eqb s k then Some v else Str.assoc s d).
  change (Str.mem s ((k, v) :: d).*1) with (String.eqb s k || Str.mem s d.*1).
  by destruct (String.eqb s k).
Qed.

(** The state of a sanitized record is no list or dict with elements. *)
Lemma sanitized_state_hashable c c' :
  _sanitize_call c = Ok c' →
  negb (Py.truthy (Py.get c' "state_or_region")) || hashable (Py.get c' "state_or_region")
  = true.
Proof.
  intros Hrun. pose proof (sanitize_completes_spec c) as Hok. rewrite Hrun in Hok.
  unfold sanitizable in Hok. symmetry in Hok.
  apply andb_true_iff in Hok as [[Hok _]%andb_true_iff _].
  unfold Py.get in *. rewrite (sanitize_state _ _ Hrun). unfold nullify, on_str.
  destruct (c !! "state_or_region") as [[|b|z|f|s|l|m]|]; try done.
  destruct (null_like s); [done|]. unfold state_value.
  repeat case_match; simpl; rewrite ?orb_true_r; done.
Qed.

(** The census region: the lookup the export makes *)
Lemma region_of_sanitized c c' :
  _sanitize_call c = Ok c' →
  region c'
  = Ok (match c' !! "state_or_region" with
        | Some (JStr s) =>
            match Str.assoc s US_REGIONS with Some r => JStr r | None => JNull end
        | _ => JNull
        end).
Proof.
  intros Hrun. pose proof (sanitized_state_hashable _ _ Hrun) as Hh.
  assert (Hempty : Str.assoc "" US_REGIONS = None) by (vm_compute; reflexivity).
  unfold region. unfold Py.get in *. rewrite (country_after _ _ Hrun).
  destruct (c' !! "state_or_region") as [[|b|z|f|s|l|m]|];
    cbn [default from_option id] in *; try (repeat case_match; done).
  - rewrite mem_assoc. destruct (Str.assoc s US_REGIONS) as [r|] eqn:Hr.
    + destruct s as [|a s]; [by rewrite Hempty in Hr | done].
    + repeat case_match; done.
  - cbn [hashable] in Hh. rewrite orb_false_r in Hh. apply negb_true_iff in Hh.
    rewrite Hh. by rewrite andb_false_r.
  - cbn [hashable] in Hh. rewrite orb_false_r in Hh. apply negb_true_iff in Hh.
    rewrite Hh. by rewrite andb_false_r.
Qed.

(** X17: the region lookup of the export cannot fail on a sanitized
    record, and finds the census region of every US state. On a record
    the sanitizer has returned, the list of the values of the row is built
    without an exception: [US_REGIONS.get(state)], which hashes the state,
    does not raise. When the state or region is one of the fifty states of
    [US_REGIONS] the value under [us_census_region] is the region of that
    state, because the sanitizer has set the country the export tests; for
    any other state or region it is "NA". What the workbook library does
    with the values it is handed is outside this statement. *)
Theorem sanitized_record_builds_row (c c' : call) :
  _sanitize_call c = Ok c' →
  (∃ cells, row c' = Ok cells)
  ∧ (∀ s r, c' !! "state_or_region" = Some (JStr s) → Str.assoc s US_REGIONS = Some r →
            region c' = Ok (JStr r))
  ∧ ((∀ s, c' !! "state_or_region" = Some (JStr s) → Str.assoc s US_REGIONS = None) →
     region c' = Ok JNull ∧ na JNull = JStr "NA").
Proof.
  intros Hrun. pose proof (region_of_sanitized _ _ Hrun) as Hregion.
  split; [|split].
  - unfold row. rewrite Hregion. unfold_bind. by eexists.
  - intros s r Hs Hr. by rewrite Hregion, Hs, Hr.
  - intros Hout. split; [|done]. rewrite Hregion.
    destruct (c' !! "state_or_region") as [[| | | |s| |]|]; try done.
    by rewrite (Hout s eq_refl).
Qed.

Lemma sanitized_record_builds_row_witness :
  region (record [("call_type", JStr "Other");
                  ("caller_emotional_tone", JStr "matter-of-fact");
                  ("country", JStr "USA"); ("involves_other_witnesses", JBool false);
                  ("state_or_region", JStr "Ohio")]) = Ok (JStr "Midwest").
Proof.
  refine (proj1 (proj2 (sanitized_record_builds_row
            (record [("country", JStr "Canada"); ("state_or_region", JStr "OH")])
            (record [("call_type", JStr "Other");
                     ("caller_emotional_tone", JStr "matter-of-fact");
                     ("country", JStr "USA"); ("involves_other_witnesses", JBool false);
                     ("state_or_region", JStr "Ohio")]) _)) "Ohio" "Midwest" _ _).
  - reflexivity.
  - reflexivity.
  - reflexivity.
Defined.

(** X18: the row of a record follows the header row. The row has one
    cell for each of the twenty-five headers, in the same order: the cell
    under a header shows the field of that name, except that
    [us_census_region] shows the region looked up and the two flags
    [involves_other_witnesses] and [verified] show a boolean or nothing; and
    no cell is empty, a missing or null value being written as "NA". *)
Theorem row_follows_headers (c : call) (cells : list json) :
  row c = Ok cells →
  length cells = length headers
  ∧ (JNull ∉ cells)
  ∧ (∃ r, region c = Ok r
          ∧ (∀ i h, headers !! i = Some h → cells !! i = Some (cell c r h))).
Proof.
  assert (Hna : ∀ v, JNull ≠ na v) by (by intros []).
  unfold row. unfold_bind. destruct (region c) as [r|]; [|done].
  intros [= <-]. split; [done|]. split.
  - rewrite !not_elem_of_cons. repeat split; (apply Hna || apply not_elem_of_nil).
  - exists r. split; [done|]. intros i h Hh.
    do 25 (destruct i as [|i]; [by injection Hh as <-|]). done.
Qed.

Lemma row_follows_headers_witness :
  length [JStr "NA"; JStr "NA"; JStr "NA"; JStr "NA"; JStr "NA"; JStr "NA"; JStr "NA";
          JStr "NA"; JStr "NA"; JStr "Salem"; JStr "NA"; JStr "NA"; JStr "NA"; JStr "NA";
          JStr "NA"; JStr "NA"; JStr "NA"; JStr "NA"; JStr "NA"; JStr "NA"; JStr "NA";
          JStr "NA"; JStr "NA"; JStr "NA"; JStr "NA"]
  = length headers.
Proof.
  refine (proj1 (row_follows_headers (record [("city", JStr "Salem"); ("verified", JInt 1)])
                   _ _)).
  reflexivity.
Defined.

End WorkbookRules.

(** ** Time offsets *)

Module HmsRules.

Import Hms HmsSpec SanitizerSpec StrFacts ChrFacts ClockFacts.

(** The decimal writing of a number: digits only, and it reads back. *)
Lemma uint_digits d : Str.all Chr.is_digit (NilEmpty.string_of_uint d) = true.
Proof. unfold Str.all. induction d; simpl; done. Qed.

Lemma uint_reads_back d : ∀ acc,
  fold_left (fun acc c => 10 * acc + Chr.digit_val c)
            (list_ascii_of_string (NilEmpty.string_of_uint d)) acc
  = Nat.of_uint_acc d acc.
Proof.
  induction d; intros acc; cbn [NilEmpty.string_of_uint list_ascii_of_string fold_left
                                 Nat.of_uint_acc]; [done|..];
    rewrite IHd; f_equal; rewrite Nat.tail_mul_spec; vm_compute Chr.digit_val; lia.
Qed.

Lemma of_nat_cases n :
  Str.of_nat n = "0" ∨ Str.of_nat n = NilEmpty.string_of_uint (Nat.to_uint n).
Proof. unfold Str.of_nat, NilZero.string_of_uint. destruct (Nat.to_uint n); auto. Qed.

Lemma of_nat_digits n : Str.all Chr.is_digit (Str.of_nat n) = true.
Proof. destruct (of_nat_cases n) as [-> | ->]; [done | apply uint_digits]. Qed.

Lemma int_of_of_nat n : Str.int_of (Str.of_nat n) = n.
Proof.
  unfold Str.of_nat, NilZero.string_of_uint.
  pose proof (Unsigned.of_to n) as Hn.
  destruct (Nat.to_uint n) eqn:Hd; [by rewrite <- Hn|..];
    unfold Str.int_of; rewrite uint_reads_back; exact Hn.
Qed.

Lemma of_nat_head n : ∃ a t, Str.of_nat n = String a t ∧ Chr.is_digit a = true.
Proof.
  pose proof (of_nat_digits n) as Hd. pose proof (int_of_of_nat n) as Hn.
  destruct (Str.of_nat n) as [|a t] eqn:Hs.
  - destruct (of_nat_cases n) as [H | H]; rewrite Hs in H; [done|].
    exists "0"%char, "". split; [|done]. exfalso.
    unfold Str.of_nat, NilZero.string_of_uint in Hs.
    destruct (Nat.to_uint n); done.
  - exists a, t. split; [done|]. unfold Str.all in Hd. simpl in Hd.
    by apply andb_true_iff in Hd as [? _].
Qed.

Lemma Z_of_of_Z z : Z_of (of_Z z) = z.
Proof.
  unfold of_Z. destruct (Z.ltb_spec z 0).
  - simpl. rewrite int_of_of_nat. lia.
  - destruct (of_nat_head (Z.to_nat z)) as (a & t & Hs & Ha).
    pose proof (int_of_of_nat (Z.to_nat z)) as Hn. rewrite Hs in *.
    unfold Z_of. assert (Ascii.eqb a "-" = false) as -> by (revert Ha; by_cases a).
    rewrite Hn. lia.
Qed.

Lemma of_Z_no_colon z : Str.all (fun c => negb (Ascii.eqb c ":")) (of_Z z) = true.
Proof.
  unfold of_Z. destruct (z <? 0)%Z.
  - unfold Str.all. simpl. apply (digits_no_colon _ (of_nat_digits _)).
  - apply (digits_no_colon _ (of_nat_digits _)).
Qed.

Lemma split_on_head h t :
  Str.all (fun c => negb (Ascii.eqb c ":")) h = true →
  Str.split_on ":" (h +:+ ":" +:+ t) = h :: Str.split_on ":" t.
Proof.
  intros Hh. unfold Str.split_on. rewrite split_on_go_plain by done.
  rewrite app_cons. simpl. by rewrite rev_rev_app, app_nil_l.
Qed.

(** What [_seconds_to_hms] writes for a whole number of seconds *)
Lemma hms_reads_back_int total :
  seconds_of (of_Z (total / 3600) +:+ ":"
              +:+ Str.fmt_02d (Z.to_nat (total mod 3600 / 60)) +:+ ":"
              +:+ Str.fmt_02d (Z.to_nat (total mod 60)))
  = Some total.
Proof.
  assert (Hm : (0 ≤ total mod 3600 / 60 < 60)%Z).
  { pose proof (Z.mod_pos_bound total 3600 ltac:(lia)).
    split; [apply Z.div_pos; lia | apply Z.div_lt_upper_bound; lia]. }
  assert (Hs : (0 ≤ total mod 60 < 60)%Z) by (apply Z.mod_pos_bound; lia).
  destruct (fmt_02d_two (Z.to_nat (total mod 3600 / 60)) ltac:(lia)) as [Hm2 Hmi].
  destruct (fmt_02d_two (Z.to_nat (total mod 60)) ltac:(lia)) as [Hs2 Hsi].
  pose proof (two_digits_all _ Hm2) as [Hmd _]. pose proof (two_digits_all _ Hs2) as [Hsd _].
  unfold seconds_of. rewrite split_on_head by apply of_Z_no_colon.
  rewrite split_on_clock by done.
  rewrite Hm2, Hs2, Hmi, Hsi, Z_of_of_Z. cbn [andb].
  destruct (Nat.ltb_spec (Z.to_nat (total mod 3600 / 60)) 60); [|lia].
  destruct (Nat.ltb_spec (Z.to_nat (total mod 60)) 60); [|lia].
  cbn [andb]. f_equal. rewrite !Z2Nat.id by lia.
  pose proof (Z.div_mod total 3600 ltac:(lia)) as H1.
  pose proof (Z.div_mod (total mod 3600) 60 ltac:(lia)) as H2.
  assert (H3 : (total mod 60 = (total mod 3600) mod 60)%Z).
  { rewrite H1 at 1.
    replace (3600 * (total / 3600) + total mod 3600)%Z
      with (total mod 3600 + (60 * (total / 3600)) * 60)%Z by lia.
    apply Z_mod_plus_full. }
  lia.
Qed.

(** X19: a time offset reads back. For every finite number of seconds,
    negative ones included, [_seconds_to_hms] writes the hours, a colon,
    two digits of minutes below sixty, a colon and two digits of seconds
    below sixty, and the text stands for the whole seconds of the number,
    the fraction dropped; it raises on nan and on the infinities only. *)
Theorem hms_reads_back (seconds : pyfloat) :
  match int_of_float seconds with
  | Some total =>
      ∃ hms, _seconds_to_hms seconds = Some hms ∧ seconds_of hms = Some total
  | None => _seconds_to_hms seconds = None
  end.
Proof.
  unfold _seconds_to_hms. destruct (int_of_float seconds) as [total|]; [|done].
  eexists. split; [done|]. apply hms_reads_back_int.
Qed.

(** An hour, a minute and a second and a half; the last second before
    zero *)
Example hms_examples :
  _seconds_to_hms (FFin false 7323 (-1)) = Some "1:01:01"
  ∧ _seconds_to_hms (FFin true 1 0) = Some "-1:59:59"
  ∧ _seconds_to_hms FNan = None.
Proof. vm_compute. repeat split; reflexivity. Qed.

End HmsRules.

(** ** The output file *)

Module VersioningRules.

Import Versioning.

Section FileSystem.

Variable exists_ : string → string → bool.



End FileSystem.


(** The version of the path given is not kept: an existing fifth version
    is sent back to the second when that one is free. *)
Example versioned_path_restarts :
  _versioned_path (fun _ file => String.eqb file "MAU_Tidy_Data_v5.xlsx") 1
                  (Path "output" "MAU_Tidy_Data_v5" ".xlsx")
  = Some ("output", "MAU_Tidy_Data_v2.xlsx").
Proof. vm_compute. reflexivity. Qed.

End VersioningRules.

(** ** What a pattern cannot match without *)

Module NeedsFacts.

Import Re ReSpec ReNeeds ReFacts ReComplete.

Lemma starts_with_app l w t :
  Str.starts_with l w = true → Str.starts_with l (w +:+ t) = true.
Proof.
  revert w; induction l as [|a l IH]; intros w; [done|].
  destruct w as [|b w]; [done|]. rewrite app_cons. simpl.
  intros [-> H]%andb_true_iff. simpl. by apply IH.
Qed.

Lemma contains_prefix l w t :
  Str.contains l w = true → Str.contains l (w +:+ t) = true.
Proof.
  induction w as [|b w IH].
  - simpl. rewrite orb_false_r. intros H. destruct l; [|done]. by destruct t.
  - rewrite app_cons. simpl. intros [H|H]%orb_true_iff.
    + apply (starts_with_app _ (String b w) t) in H. rewrite app_cons in H.
      by rewrite H.
    + rewrite (IH H). apply orb_true_r.
Qed.

Lemma contains_suffix l w t :
  Str.contains l t = true → Str.contains l (w +:+ t) = true.
Proof.
  intros H. induction w as [|b w IH]; [done|].
  rewrite app_cons. simpl. rewrite IH. apply orb_true_r.
Qed.

Lemma has_app q w t : has q (w +:+ t) = has q w || has q t.
Proof.
  unfold has. induction w as [|b w IH]; [done|].
  rewrite app_cons. simpl. by rewrite IH, orb_assoc.
Qed.

Lemma within_spec p q c : within p q = true → p c = true → q c = true.
Proof.
  unfold within, all_chars. rewrite forallb_forall. intros Hall Hp.
  specialize (Hall c). rewrite Hp in Hall. apply Hall.
  apply in_map_iff. exists (nat_of_ascii c). split; [apply ascii_nat_embedding|].
  apply in_seq. pose proof (nat_ascii_bounded c). lia.
Qed.

Lemma all_within p q w :
  within p q = true → Str.all p w = true → w ≠ "" → has q w = true.
Proof.
  intros Hpq Hall Hw. destruct w as [|a w]; [done|].
  unfold Str.all, has in *. simpl in *. apply andb_true_iff in Hall as [Ha _].
  by rewrite (within_spec p q a Hpq Ha).
Qed.

(** A match of a pattern that needs a text reads that text. *)
Lemma needs_read l r st st' :
  needs l r = true → rmatch r st st' →
  ∃ w, rest st = w +:+ rest st' ∧ Str.contains l w = true.
Proof.
  intros Hneeds Hm. revert Hneeds.
  induction Hm as [st|l' st st' Heat|p st c t Hrest Hp|r1 r2 st1 st2 st3 H1 IH1 H2 IH2
                  |r1 r2 st st' _ IH|r1 r2 st st' _ IH|p lo hi w st st' Hrun _ _
                  |n r st st' _ IH|st _|st _|st _|r st st' _ _]; simpl; try done.
  - intros Hc. exists l'. apply eat_spec in Heat. split; [tauto | done].
  - intros [Hn|Hn]%orb_true_iff.
    + destruct (IH1 Hn) as (w1 & Hr1 & Hc1).
      destruct (rmatch_reads _ _ _ H2) as (w2 & Hr2 & _).
      exists (w1 +:+ w2). rewrite app_assoc_str, <- Hr2. split; [done|].
      by apply contains_prefix.
    + destruct (IH2 Hn) as (w2 & Hr2 & Hc2).
      destruct (rmatch_reads _ _ _ H1) as (w1 & Hr1 & _).
      exists (w1 +:+ w2). rewrite app_assoc_str, <- Hr2. split; [done|].
      by apply contains_suffix.
  - intros [Hn _]%andb_true_iff. by apply IH.
  - intros [_ Hn]%andb_true_iff. by apply IH.
Qed.

(** A match of a pattern that needs a class reads a character of it. *)
Lemma needs_class_read q r st st' :
  needs_class q r = true → rmatch r st st' →
  ∃ w, rest st = w +:+ rest st' ∧ has q w = true.
Proof.
  intros Hneeds Hm. revert Hneeds.
  induction Hm as [st|l' st st' Heat|p st c t Hrest Hp|r1 r2 st1 st2 st3 H1 IH1 H2 IH2
                  |r1 r2 st st' _ IH|r1 r2 st st' _ IH|p lo hi w st st' Hrun Hlo _
                  |n r st st' _ IH|st _|st _|st _|r st st' _ _]; simpl; try done.
  - intros Hc. exists l'. apply eat_spec in Heat. split; [tauto | done].
  - intros Hpq. exists (String c ""). split; [done|].
    unfold has. simpl. by rewrite (within_spec p q c Hpq Hp).
  - intros [Hn|Hn]%orb_true_iff.
    + destruct (IH1 Hn) as (w1 & Hr1 & Hc1).
      destruct (rmatch_reads _ _ _ H2) as (w2 & Hr2 & _).
      exists (w1 +:+ w2). rewrite app_assoc_str, <- Hr2. split; [done|].
      by rewrite has_app, Hc1.
    + destruct (IH2 Hn) as (w2 & Hr2 & Hc2).
      destruct (rmatch_reads _ _ _ H1) as (w1 & Hr1 & _).
      exists (w1 +:+ w2). rewrite app_assoc_str, <- Hr2. split; [done|].
      rewrite has_app, Hc2. apply orb_true_r.
  - intros [Hn _]%andb_true_iff. by apply IH.
  - intros [_ Hn]%andb_true_iff. by apply IH.
  - destruct lo as [|lo]; [done|]. intros Hpq.
    apply run_spec in Hrun as (Hr & _ & _ & Hall). exists w. split; [done|].
    apply (all_within p q); [done..|]. intros ->. simpl in Hlo. lia.
Qed.

Lemma search_go_none r : ∀ s ps pv,
  (∀ st, ahead_of s st → rx r st Some = None) → search_go r ps pv s = None.
Proof.
  induction s as [|c t IH]; intros ps pv Hnone; simpl.
  - rewrite Hnone; [done | by exists ""].
  - rewrite Hnone by (by exists ""). apply IH. intros st [pre Hpre].
    apply Hnone. exists (String c pre). by rewrite app_cons, Hpre.
Qed.

Lemma remove_go_none r : ∀ s ps pv,
  (∀ st, ahead_of s st → rx r st Some = None) → remove_go r ps pv s 0 = s.
Proof.
  induction s as [|c t IH]; intros ps pv Hnone; simpl; [done|].
  rewrite Hnone by (by exists ""). f_equal. apply IH. intros st [pre Hpre].
  apply Hnone. exists (String c pre). by rewrite app_cons, Hpre.
Qed.

(** A text without what the pattern needs has no match of it. *)
Lemma no_match_without l r s st :
  needs l r = true → Str.contains l s = false → ahead_of s st → rx r st Some = None.
Proof.
  intros Hneeds Hs [pre Hpre]. destruct (rx r st Some) as [out|] eqn:Hrx; [|done].
  apply rx_sound in Hrx as (st' & Hm & _).
  destruct (needs_read l r st st' Hneeds Hm) as (w & Hw & Hc).
  rewrite Hpre, Hw in Hs. by rewrite contains_suffix in Hs by (by apply contains_prefix).
Qed.

Lemma no_match_without_class q r s st :
  needs_class q r = true → has q s = false → ahead_of s st → rx r st Some = None.
Proof.
  intros Hneeds Hs [pre Hpre]. destruct (rx r st Some) as [out|] eqn:Hrx; [|done].
  apply rx_sound in Hrx as (st' & Hm & _).
  destruct (needs_class_read q r st st' Hneeds Hm) as (w & Hw & Hc).
  rewrite Hpre, Hw, !has_app, Hc in Hs. by rewrite orb_true_r in Hs.
Qed.

Lemma search_without l r s :
  needs l r = true → Str.contains l s = false → search r s = None.
Proof. intros Hn Hs. apply search_go_none. intros st. by apply (no_match_without l). Qed.

Lemma search_without_class q r s :
  needs_class q r = true → has q s = false → search r s = None.
Proof.
  intros Hn Hs. apply search_go_none. intros st. by apply (no_match_without_class q).
Qed.

Lemma remove_without l r s :
  needs l r = true → Str.contains l s = false → remove r s = s.
Proof. intros Hn Hs. apply remove_go_none. intros st. by apply (no_match_without l). Qed.

End NeedsFacts.

(** ** Titles, addresses and code fences without their marks *)

Module PlainTexts.

Import Re ReSpec ReNeeds ReFacts ReComplete NeedsFacts Titles Audio AudioSpec Extractor.

(** X21: a title without a digit has no season and no episode. Each of
    the four patterns of [_parse_season_episode] reads a decimal digit, so
    on a title of the ASCII range that holds none of the digits 0 to 9 the
    function returns [(None, None)]. *)
Theorem title_without_digit (title : string) :
  StrSpec.ascii_text title = true →
  has Chr.is_digit title = false → _parse_season_episode title = (None, None).
Proof.
  intros _ Hno. unfold _parse_season_episode, patterns. cbn [first_season].
  rewrite !(search_without_class Chr.is_digit) by (done || (vm_compute; reflexivity)).
  done.
Qed.

Lemma title_without_digit_witness :
  _parse_season_episode "Season finale special" = (None, None).
Proof. apply title_without_digit; vm_compute; reflexivity. Defined.

Lemma contains_refl l : Str.contains l l = true.
Proof.
  assert (Hs : ∀ s, Str.starts_with s s = true).
  { induction s as [|b s IHs]; [done|]. simpl. by rewrite Ascii.eqb_refl. }
  destruct l as [|a l]; [done|]. simpl. by rewrite Ascii.eqb_refl, Hs.
Qed.

Lemma first_host_without url hs :
  Forall (fun host => Str.contains host url = false) hs → first_host url hs = None.
Proof.
  induction 1 as [|host hs Hhost _ IH]; [done|]. cbn [first_host].
  rewrite (search_without host); [done| |done].
  unfold re_host. cbn [needs seq Opt]. rewrite contains_refl. by rewrite !orb_true_r.
Qed.

(** X22: an address that names none of the known hosts is returned as it
    is. When the text of [url] contains neither "audioboom.com" nor any of
    the four archive hosts, [_clean_audio_url] returns [url] unchanged. *)
Theorem url_without_host_unchanged (url : string) :
  Forall (fun host => Str.contains host url = false) ("audioboom.com" :: hosts) →
  _clean_audio_url url = url.
Proof.
  intros [Hboom Hhosts]%Forall_cons. unfold _clean_audio_url.
  rewrite (search_without "audioboom.com") by (done || (vm_compute; reflexivity)).
  by rewrite first_host_without.
Qed.

Lemma url_without_host_unchanged_witness :
  _clean_audio_url "https://example.org/feed/episode12.mp3?sid=7"
  = "https://example.org/feed/episode12.mp3?sid=7".
Proof.
  apply url_without_host_unchanged. repeat constructor; vm_compute; reflexivity.
Defined.

(** X23: an answer without a code fence is passed on as it is. When the
    raw answer of the model holds no run of three backquotes, the two
    substitutions that strip a fence leave it unchanged, character for
    character. *)
Theorem answer_without_fence_unchanged (raw : string) :
  Str.contains "```" raw = false → strip_fence raw = raw.
Proof.
  intros Hno. unfold strip_fence.
  rewrite (remove_without "```" _ raw) by (done || (vm_compute; reflexivity)).
  by rewrite (remove_without "```") by (done || (vm_compute; reflexivity)).
Qed.

Lemma answer_without_fence_unchanged_witness :
  strip_fence "[1, 2, 3]" = "[1, 2, 3]".
Proof. apply answer_without_fence_unchanged. vm_compute. reflexivity. Defined.

(** A fenced answer loses its fence. *)
Example fenced_answer_stripped :
  strip_fence (String.concat (String "010" "") ["```json"; "[]"; "```"]) = "[]".
Proof. vm_compute. reflexivity. Qed.

(** *** The address of an Audioboom post *)



Lemma search_go_some r pre t : ∀ ps pv,
  (∀ ps' pv', is_Some (rx r (MSt ps' pv' t []) Some)) →
  is_Some (search_go r ps pv (pre +:+ t)).
Proof.
  induction pre as [|c pre IH]; intros ps pv Hok.
  - rewrite app_nil_l. destruct (Hok ps pv) as [out Hout].
    destruct t; simpl; rewrite Hout; by eexists.
  - rewrite app_cons. simpl. destruct (rx r _ Some); [by eexists | by apply IH].
Qed.

Lemma search_go_ahead r s : ∀ ps pv m,
  search_go r ps pv s = Some m →
  ∃ st, ahead_of s st ∧ caps st = [] ∧ rx r st Some = Some m.
Proof.
  induction s as [|c t IH]; intros ps pv m; simpl.
  - destruct (rx r (MSt ps pv "" []) Some) as [out|] eqn:Hrx; [|done].
    intros [= <-]. exists (MSt ps pv "" []). split; [by exists ""|]. done.
  - destruct (rx r (MSt ps pv (String c t) []) Some) as [out|] eqn:Hrx.
    + intros [= <-]. exists (MSt ps pv (String c t) []). split; [by exists ""|]. done.
    + intros (st & [pre Hpre] & Hst)%IH. exists st. split; [|done].
      exists (String c pre). by rewrite app_cons, Hpre.
Qed.










End PlainTexts.

(** ** Episode identifiers *)

Module EpisodeRules.

Import Re Episodes EpisodesSpec ReNeeds.

Lemma sub_class p : ∀ s ps pv,
  sub_go (Cls p) "_" ps pv s 0
  = Str.map (fun c => if p c then "_"%char else c) s.
Proof.
  induction s as [|c t IH]; intros ps pv; [done|].
  cbn [sub_go rx rest pos caps Str.map]. destruct (p c); cbn [pos].
  - assert ((S ps =? ps) = false) as -> by (apply Nat.eqb_neq; lia).
    replace (S ps - ps - 1) with 0 by lia. rewrite IH. done.
  - by rewrite IH.
Qed.

Lemma episode_id_map title :
  episode_id title
  = Str.take 60 (Str.map (fun c => if not_word c then "_"%char else c) title).
Proof. unfold episode_id, sub. by rewrite sub_class. Qed.

Lemma take_map f n s : Str.take n (Str.map f s) = Str.map f (Str.take n s).
Proof.
  revert s; induction n as [|n IH]; intros [|c s]; simpl; try done. by rewrite IH.
Qed.

Lemma take_take n s : Str.take n (Str.take n s) = Str.take n s.
Proof. revert s; induction n as [|n IH]; intros [|c s]; simpl; try done. by rewrite IH. Qed.

Lemma map_map_word s :
  Str.map (fun c => if not_word c then "_"%char else c)
          (Str.map (fun c => if not_word c then "_"%char else c) s)
  = Str.map (fun c => if not_word c then "_"%char else c) s.
Proof.
  induction s as [|c s IH]; simpl; [done|]. rewrite IH. f_equal.
  destruct (not_word c) eqn:Hc; [done|]. by rewrite Hc.
Qed.

(** X25: the identifier of an episode is safe as a file name, and is
    made of the first sixty characters of the title only. It has at most
    sixty characters; it holds no character of the ASCII range but letters,
    digits and the underscore (no blank, slash, dot or colon); it is its
    own identifier; and two titles with the same first sixty characters
    have the same identifier, as have two titles that differ only in
    characters replaced by the underscore, so that such episodes share
    their audio, transcript and parsed files. *)
Theorem episode_id_safe (title : string) :
  String.length (episode_id title) ≤ 60
  ∧ has unsafe (episode_id title) = false
  ∧ episode_id (episode_id title) = episode_id title
  ∧ episode_id title = episode_id (Str.take 60 title)
  ∧ episode_id title
    = episode_id (Str.map (fun c => if unsafe c then "_"%char else c) title).
Proof.
  rewrite !episode_id_map. split; [|split; [|split; [|split]]].
  - rewrite length_take. lia.
  - rewrite take_map. generalize (Str.take 60 title) as s. intros s.
    unfold has. induction s as [|c s IH]; simpl; [done|]. rewrite IH, orb_false_r.
    unfold unsafe, not_word. destruct (Chr.is_word c) eqn:Hc; simpl; [by rewrite Hc, andb_false_r|].
    done.
  - by rewrite !take_map, take_take, map_map_word.
  - by rewrite !take_map, take_take.
  - f_equal. induction title as [|c s IH]; simpl; [done|]. rewrite IH. f_equal.
    unfold unsafe, not_word. destruct (Chr.is_word c) eqn:Hc; simpl.
    + by rewrite andb_false_r, Hc.
    + destruct (Chr.code c <? 128)%N; simpl; [done | by rewrite Hc].
Qed.

(** Two titles of one identifier *)
Example episode_id_collision :
  episode_id "Ep. 12: The Road" = "Ep__12__The_Road"
  ∧ episode_id "Ep 12 - The Road" = "Ep_12___The_Road"
  ∧ episode_id "Ep: 12. The Road" = episode_id "Ep. 12: The Road".
Proof. vm_compute. repeat split; reflexivity. Qed.

End EpisodeRules.

(** ** The pattern of the title that never decides *)

Module TitleRules.

Import Re ReSpec ReNeeds ReFacts ReComplete NeedsFacts Titles PlainTexts.

(** A text the pattern can read is matched wherever it stands. *)
Lemma reads_rmatch r w :
  reads r w → ∀ ps pv t cs,
  ∃ pv' cs', rmatch r (MSt ps pv (w +:+ t) cs) (MSt (ps + String.length w) pv' t cs').
Proof.
  induction 1 as [|l|p c Hc|r1 r2 w1 w2 _ IH1 _ IH2|r1 r2 w _ IH|r1 r2 w _ IH
                 |p lo hi w Hall Hlo Hhi|n r w _ IH]; intros ps pv t cs.
  - exists pv, cs. rewrite Nat.add_0_r. constructor.
  - destruct (eat_here l ps pv t cs) as [pv' He]. exists pv', cs. by constructor.
  - exists (Some c), cs. rewrite app_cons, app_nil_l.
    replace (ps + String.length (String c "")) with (S ps) by (simpl; lia).
    by apply (M_Cls p (MSt ps pv (String c t) cs) c t).
  - destruct (IH1 ps pv (w2 +:+ t) cs) as (pv1 & cs1 & H1).
    destruct (IH2 (ps + String.length w1) pv1 t cs1) as (pv2 & cs2 & H2).
    exists pv2, cs2. rewrite app_assoc_str, length_app_str, Nat.add_assoc.
    by eapply M_Cat.
  - destruct (IH ps pv t cs) as (pv' & cs' & H). exists pv', cs'. by apply M_AltL.
  - destruct (IH ps pv t cs) as (pv' & cs' & H). exists pv', cs'. by apply M_AltR.
  - destruct (run_here p w ps pv t cs Hall) as [pv' Hrun]. exists pv', cs.
    by apply (M_Rep p lo hi w).
  - destruct (IH ps pv t cs) as (pv' & cs' & H). eexists pv', _.
    apply (M_Grp n) in H. exact H.
Qed.

Lemma reads_found r w pre post :
  reads r w → is_Some (search r (pre +:+ w +:+ post)).
Proof.
  intros Hr. apply search_go_some. intros ps pv.
  destruct (reads_rmatch r w Hr ps pv post []) as (pv' & cs' & Hm).
  eapply rx_complete; [exact Hm | by eexists].
Qed.

(** What the pattern in parentheses reads *)
Lemma paren_inv st m :
  rx re_season_paren st Some = Some m →
  ∃ s1 d1 s2 s3 d2 post,
    rest st = "(Sn." +:+ s1 +:+ d1 +:+ s2 +:+ "Ep." +:+ s3 +:+ d2 +:+ ")" +:+ post
    ∧ Str.all sp s1 = true ∧ Str.all sp s2 = true ∧ Str.all sp s3 = true
    ∧ Str.all d d1 = true ∧ 1 ≤ String.length d1
    ∧ Str.all d d2 = true ∧ 1 ≤ String.length d2.
Proof.
  intros (st' & Hm & _)%rx_sound. unfold re_season_paren in Hm. cbn [seq] in Hm.
  apply rmatch_cat in Hm as (a1 & (E1 & _)%rmatch_lit%eat_spec & Hm).
  apply rmatch_cat in Hm as (a2 & (s1 & (E2 & _ & _ & A2)%run_spec & _)%rmatch_rep & Hm).
  apply rmatch_cat in Hm as (a3 & (b3 & (d1 & (E3 & _ & _ & A3)%run_spec & L3 & _)%rmatch_rep
                                   & ->)%TimeFacts.rmatch_grp_raw & Hm).
  apply rmatch_cat in Hm as (a4 & (s2 & (E4 & _ & _ & A4)%run_spec & _)%rmatch_rep & Hm).
  apply rmatch_cat in Hm as (a5 & (E5 & _)%rmatch_lit%eat_spec & Hm).
  apply rmatch_cat in Hm as (a6 & (s3 & (E6 & _ & _ & A6)%run_spec & _)%rmatch_rep & Hm).
  apply rmatch_cat in Hm as (a7 & (b7 & (d2 & (E7 & _ & _ & A7)%run_spec & L7 & _)%rmatch_rep
                                   & ->)%TimeFacts.rmatch_grp_raw & (E8 & _)%rmatch_lit%eat_spec).
  cbn [set_cap rest] in *.
  exists s1, d1, s2, s3, d2, (rest st').
  rewrite E1, E2, E3, E4, E5, E6, E7, E8. done.
Qed.

(** X26: the third pattern of the title never decides. Every title in
    which the pattern in parentheses, "(Sn. 12 Ep. 5)", has a match has a
    match of the first pattern as well, which is tried before it: the
    season and the episode are those the first two patterns give, and the
    third can be removed without changing any result. *)
Theorem third_pattern_never_decides (title : string) :
  (is_Some (search re_season_paren title) → is_Some (search re_season_long title))
  ∧ first_season title patterns = first_season title [re_season_long; re_season_short].
Proof.
  assert (Hdead : is_Some (search re_season_paren title) →
                  is_Some (search re_season_long title)).
  { intros [m Hm]. apply search_go_ahead in Hm as (st & [pre Hpre] & _ & Hrx).
    apply paren_inv in Hrx
      as (s1 & d1 & s2 & s3 & d2 & post & Hrest & A1 & A2 & A3 & D1 & L1 & D2 & L2).
    assert (Hreads : reads re_season_long
              ("S" +:+ ("n" +:+ "." +:+ s1) +:+ d1 +:+ s2 +:+ "E" +:+ "p" +:+ ""
               +:+ "." +:+ s3 +:+ d2)).
    { unfold re_season_long. cbn [seq].
      apply R_Cat; [by apply R_Cls|].
      apply R_Cat.
      { apply R_AltL. cbn [seq]. apply R_Cat; [apply R_Lit|].
        apply R_Cat; [by apply R_Rep; [| simpl; lia | intros ? [= <-]; simpl; lia]|].
        by apply R_Rep; [| lia |]. }
      apply R_Cat; [by apply R_Grp, R_Rep|].
      apply R_Cat; [by apply R_Rep; [| lia |]|].
      apply R_Cat; [by apply R_Cls|].
      apply R_Cat; [apply R_Lit|].
      apply R_Cat; [apply R_AltR, R_Eps|].
      apply R_Cat; [by apply R_Rep; [| simpl; lia | intros ? [= <-]; simpl; lia]|].
      apply R_Cat; [by apply R_Rep; [| lia |]|].
      by apply R_Grp, R_Rep. }
    pose proof (reads_found _ _ (pre +:+ "(") (")" +:+ post) Hreads) as Hfound.
    replace title with ((pre +:+ "(") +:+
      ("S" +:+ ("n" +:+ "." +:+ s1) +:+ d1 +:+ s2 +:+ "E" +:+ "p" +:+ "" +:+ "."
       +:+ s3 +:+ d2) +:+ ")" +:+ post); [done|].
    rewrite Hpre, Hrest.
    repeat (rewrite ?app_assoc_str, ?app_cons, ?app_nil_l). reflexivity. }
  split; [done|]. unfold patterns. cbn [first_season].
  destruct (search re_season_long title) eqn:Hlong; [done|].
  destruct (search re_season_short title); [done|].
  destruct (search re_season_paren title) eqn:Hparen; [|done].
  destruct Hdead as [? ?]; [by eexists | done].
Qed.

End TitleRules.

(** ** Start times *)

Module TimestampRules.

Import Timestamps TimestampsSpec StrFacts SanitizerFacts.

Lemma index_from acc segments :
  foldl index_step acc segments
  = (acc.1 +:+ text_of segments, acc.2 ++ spans (String.length acc.1) segments).
Proof.
  revert acc; induction segments as [|seg segments IH]; intros [full ctt]; simpl.
  - by rewrite app_empty_r, app_nil_r.
  - rewrite IH. unfold index_step. cbn [fst snd].
    assert (Hlen : String.length (full +:+ seg_text seg +:+ " ")
                   = String.length full + String.length (seg_text seg) + 1).
    { rewrite !length_app_str. simpl. lia. }
    rewrite Hlen, app_assoc_str, <- app_assoc. done.
Qed.

Lemma index_spec segments : index segments = (text_of segments, spans 0 segments).
Proof. unfold index. by rewrite index_from. Qed.

Lemma length_text_of segments :
  String.length (text_of segments)
  = foldr (fun seg n => String.length (seg_text seg) + 1 + n) 0 segments.
Proof.
  induction segments as [|seg segments IH]; simpl; [done|].
  rewrite !length_app_str, IH. simpl. lia.
Qed.

Lemma span_app before seg after :
  span (before ++ seg :: after)
  = span before + (String.length (seg_text seg) + 1) + span after.
Proof.
  unfold span. rewrite !index_spec. simpl. rewrite !length_text_of.
  induction before as [|x before IH]; simpl; lia.
Qed.

(** The spans follow one another from the offset on: an offset in the
    text is in the span of one segment, the first that [time_at] meets. *)
Lemma time_at_spans segments : ∀ offset idx,
  offset ≤ idx < offset + String.length (text_of segments) →
  ∃ before seg after,
    segments = before ++ seg :: after
    ∧ offset + String.length (text_of before) ≤ idx
      < offset + String.length (text_of before) + String.length (seg_text seg) + 1
    ∧ time_at idx (spans offset segments) = seg_start_hms seg.
Proof.
  induction segments as [|seg segments IH]; intros offset idx Hidx; simpl in Hidx; [lia|].
  rewrite !length_app_str in Hidx. simpl in Hidx.
  destruct (Nat.lt_ge_cases idx (offset + String.length (seg_text seg) + 1)) as [Hin|Hout].
  - exists [], seg, segments. simpl. split; [done|]. split; [lia|].
    unfold time_at. simpl.
    destruct (Nat.leb_spec offset idx); [|lia].
    by destruct (Nat.ltb_spec idx (offset + String.length (seg_text seg) + 1)); [|lia].
  - destruct (IH (offset + String.length (seg_text seg) + 1) idx ltac:(lia))
      as (before & seg' & after & -> & Hspan & Htime).
    exists (seg :: before), seg', after. split; [done|]. simpl.
    rewrite !length_app_str. simpl. split; [lia|].
    unfold time_at in *. simpl.
    destruct (Nat.ltb_spec idx (offset + String.length (seg_text seg) + 1)); [lia|].
    by rewrite andb_false_r.
Qed.

(** An occurrence of a text with content begins inside the text searched. *)
Lemma find_go_bound sub s : ∀ i idx,
  sub ≠ "" → find_go sub s i = Some idx → i ≤ idx < i + String.length s.
Proof.
  induction s as [|c s IH]; intros i idx Hsub.
  - destruct sub; done.
  - destruct sub as [|a sub]; [done|]. cbn [find_go Str.starts_with].
    destruct (Ascii.eqb a c && Str.starts_with (String a sub) s) eqn:?;
      destruct (Ascii.eqb a c && Str.starts_with sub s).
    all: try (intros [= ->]; simpl; lia).
    all: intros H%IH; [simpl; lia | done].
Qed.

Lemma time_at_values idx segments offset :
  time_at idx (spans offset segments) = JNull
  ∨ ∃ seg, seg ∈ segments ∧ time_at idx (spans offset segments) = seg_start_hms seg.
Proof.
  unfold time_at. destruct (List.find _ _) as [sp|] eqn:Hf; [|by left]. right.
  apply find_some in Hf as [Hin _]. revert offset Hin.
  induction segments as [|seg segments IH]; intros offset; simpl; [done|].
  intros [<- | Hin].
  - exists seg. split; [by left | done].
  - destruct (IH _ Hin) as (seg' & Hseg & Heq). exists seg'. split; [by right | done].
Qed.

(** X27: a record gets the start time of the segment in which its intro
    snippet begins. The texts of the segments and the snippet are of the
    ASCII range, so that lowering keeps every offset. When the snippet of
    a record, lowered and stripped,
    has content and occurs in the lowered text of the index, the segments
    split into those before, one segment whose span of the text (its own
    text and the blank after it) holds the offset of the first occurrence,
    and those after; and [call_start_time] is set to the [start_hms] of
    that segment, no other field of the record being touched. The branch
    that would leave it null for want of a span is never taken. *)
Theorem start_time_of_segment (segments : list segment) (c : call) (s : string)
    (idx : nat) :
  StrSpec.ascii_text (text_of segments) = true → StrSpec.ascii_text s = true →
  c !! "caller_intro_snippet" = Some (JStr s) →
  Str.strip (Str.lower s) ≠ "" →
  find (Str.strip (Str.lower s)) (Str.lower (index segments).1) = Some idx →
  ∃ before seg after,
    segments = before ++ seg :: after
    ∧ span before ≤ idx < span before + String.length (seg_text seg) + 1
    ∧ resolve_call (Str.lower (index segments).1) (index segments).2 c
      = Ok (<["call_start_time" := seg_start_hms seg]> c).
Proof.
  intros _ _ Hc Hne Hfind.
  pose proof (find_go_bound _ _ 0 idx Hne Hfind) as Hidx.
  unfold Str.lower in Hidx. rewrite length_map, index_spec in Hidx. simpl in Hidx.
  destruct (time_at_spans segments 0 idx ltac:(lia))
    as (before & seg & after & Hsplit & Hspan & Htime).
  exists before, seg, after. split; [done|].
  split; [unfold span; rewrite index_spec; simpl; lia|].
  unfold resolve_call, Py.or_. rewrite (get_lookup _ _ _ Hc). unfold_bind.
  assert (Hs : s ≠ "") by (by intros ->).
  destruct s as [|a s']; [done|]. cbn [Py.truthy Str.is_empty negb Py.lower].
  destruct (Str.strip (Str.lower (String a s'))) as [|b sn] eqn:Hsn; [done|].
  cbn [Str.is_empty]. unfold locate. rewrite Hfind. rewrite index_spec. simpl.
  by rewrite Htime.
Qed.

Lemma start_time_of_segment_witness :
  ∃ before seg after,
    [Segment "Welcome back." (JStr "0:00:00"); Segment "Hi Derek, this is Tom." (JStr "0:00:07")]
    = before ++ seg :: after
    ∧ resolve_call
        (Str.lower (index [Segment "Welcome back." (JStr "0:00:00");
                           Segment "Hi Derek, this is Tom." (JStr "0:00:07")]).1)
        (index [Segment "Welcome back." (JStr "0:00:00");
                Segment "Hi Derek, this is Tom." (JStr "0:00:07")]).2
        (SanitizerSpec.record [("caller_intro_snippet", JStr "Hi Derek")])
      = Ok (<["call_start_time" := seg_start_hms seg]>
              (SanitizerSpec.record [("caller_intro_snippet", JStr "Hi Derek")])).
Proof.
  destruct (start_time_of_segment
              [Segment "Welcome back." (JStr "0:00:00");
               Segment "Hi Derek, this is Tom." (JStr "0:00:07")]
              (SanitizerSpec.record [("caller_intro_snippet", JStr "Hi Derek")])
              "Hi Derek" 14)
    as (before & seg & after & Hsplit & _ & Hrun).
  - vm_compute. reflexivity.
  - vm_compute. reflexivity.
  - reflexivity.
  - discriminate.
  - vm_compute. reflexivity.
  - exists before, seg, after. split; [exact Hsplit | exact Hrun].
Defined.

(** X28: every record gets a start time, null or that of a segment.
    Whenever [resolve_call] completes it has set [call_start_time], and
    nothing else, to null or to the [start_hms] of one of the segments of
    the index; it sets null when the record has no snippet (missing, null
    or blank). *)
Theorem start_time_always_set (segments : list segment) (c c' : call) :
  resolve_call (Str.lower (index segments).1) (index segments).2 c = Ok c' →
  ∃ v, c' = <["call_start_time" := v]> c
       ∧ (v = JNull ∨ ∃ seg, seg ∈ segments ∧ v = seg_start_hms seg)
       ∧ (Py.truthy (Py.get c "caller_intro_snippet") = false → v = JNull).
Proof.
  unfold resolve_call. unfold_bind. rewrite index_spec. simpl.
  destruct (Py.lower _) as [snippet|] eqn:Hsn; [|done].
  destruct (Str.is_empty (Str.strip snippet)) eqn:Hempty.
  { intros [= <-]. exists JNull. auto. }
  destruct (locate _ c _) as [idx|] eqn:Hloc; [|done].
  intros [= <-]. eexists. split; [done|]. split.
  - destruct idx as [i|]; [apply time_at_values | by left].
  - intros Hfalsy. unfold Py.or_ in Hsn. rewrite Hfalsy in Hsn.
    injection Hsn as <-. done.
Qed.

Lemma start_time_always_set_witness :
  ∃ v, <["call_start_time" := JNull]> (SanitizerSpec.record [("caller_name", JStr "Tom")])
       = <["call_start_time" := v]> (SanitizerSpec.record [("caller_name", JStr "Tom")]).
Proof.
  destruct (start_time_always_set [Segment "Welcome back." (JStr "0:00:00")]
              (SanitizerSpec.record [("caller_name", JStr "Tom")])
              (<["call_start_time" := JNull]>
                 (SanitizerSpec.record [("caller_name", JStr "Tom")])))
    as (v & Hv & _).
  - reflexivity.
  - exists v. exact Hv.
Defined.

End TimestampRules.

(** ** The location patch of [reparse_regions] *)

Module RegionRules.

Import Sanitizer SanitizerSpec FieldSpec SanitizerFacts FieldRules Regions RegionsSpec.





(** An answer that names only the state erases the city of the record,
    and an answer that is a list leaves the record as it was. *)
Example patch_examples :
  let c : call := {["city" := JStr "Austin"; "country" := JStr "Canada";
                    "caller_name" := JStr "Ann"]} in
  let loc : gmap string json := {["state_or_region" := JStr "tx"]} in
  (patch_location (JObj loc) c).1 !! "city" = Some JNull
  ∧ (patch_location (JObj loc) c).1 !! "state_or_region" = Some (JStr "Texas")
  ∧ (patch_location (JObj loc) c).1 !! "country" = Some (JStr "USA")
  ∧ (patch_location (JObj loc) c).1 !! "caller_name" = Some (JStr "Ann")
  ∧ patch_location (JArr [JObj loc]) c = (c, Some AttributeError).
Proof. cbn zeta. repeat split; vm_compute; reflexivity. Qed.

End RegionRules.
